(** * GoLint: task selection, orchestration and result processing

    A shallow embedding of the linter resolver ([lintersdb]), the runner
    ([lint]) and two result processors ([processors]) of the repository,
    and of the analyzers of [govet], the arguments of the root command,
    the configuration of a custom build and the linter [lll], followed by
    the properties the specification states about them and by further
    properties of the code.

    Go values are modelled as follows.
    - [string]: a Go string is a sequence of bytes; Rocq's [string] is a
      sequence of 8-bit [ascii] characters, so the two coincide.
    - maps ([map[string]T]): stdpp's [gmap string T].
    - slices: lists.  A nil slice and an empty slice are both [[]].
    - pointers to mutable structs: locations in an explicit store.
    - errors: a value of type [error]; a nil error is [None].
    - logging and wall-clock timing do not influence any returned value
      and are left out, except for the list of stage names a stopwatch
      tracks. *)

From Stdlib Require Import NArith Ascii String DecimalString.
From stdpp Require Import gmap strings list fin_maps sorting.


(** ** Go's standard library: package [strings] *)

Module gostrings.

(** [c < utf8.RuneSelf] *)
Definition isASCII (c : ascii) : bool := (N_of_ascii c <? 128)%N.

(** The table [asciiSpace]: tab, newline, vertical tab, form feed,
    carriage return and space. *)
Definition asciiSpace (c : ascii) : bool :=
  let n := N_of_ascii c in
  ((n =? 9) || (n =? 10) || (n =? 11) || (n =? 12) || (n =? 13) || (n =? 32))%N.

Fixpoint allASCII (s : string) : bool :=
  match s with
  | "" => true
  | String c s' => isASCII c && allASCII s'
  end.

(** [strings.HasPrefix(s, prefix)] *)
Fixpoint HasPrefix (s prefix : string) : bool :=
  match prefix, s with
  | "", _ => true
  | String _ _, "" => false
  | String p prefix', String c s' => bool_decide (c = p) && HasPrefix s' prefix'
  end.

(** [s[n:]] for [n <= len(s)] *)
Fixpoint drop (n : nat) (s : string) : string :=
  match n, s with
  | 0, _ => s
  | S _, "" => ""
  | S n', String _ s' => drop n' s'
  end.

(** [strings.TrimPrefix(s, prefix)] *)
Definition TrimPrefix (s prefix : string) : string :=
  if HasPrefix s prefix then drop (String.length prefix) s else s.

(** [strings.HasSuffix(s, suffix)]:
    [len(s) >= len(suffix) && s[len(s)-len(suffix):] == suffix] *)
Definition HasSuffix (s suffix : string) : bool :=
  (String.length suffix <=? String.length s)%nat &&
  bool_decide (drop (String.length s - String.length suffix) s = suffix).

(** [strings.Contains(s, substr)], that is [strings.Index(s, substr) >= 0] *)
Fixpoint Contains (s substr : string) : bool :=
  HasPrefix s substr ||
  match s with
  | "" => false
  | String _ s' => Contains s' substr
  end.

(** [strings.Join(elems, sep)] *)
Fixpoint Join (elems : list string) (sep : string) : string :=
  match elems with
  | [] => ""
  | [e] => e
  | e :: rest => e +:+ sep +:+ Join rest sep
  end.

(** The first loop of [TrimSpace]: advance [start] over ASCII white space.
    The boolean tells whether the loop ran into a non-ASCII byte; the
    string is [s[start:]]. *)
Fixpoint trimStart (s : string) : bool * string :=
  match s with
  | "" => (false, "")
  | String c s' =>
      if negb (isASCII c) then (true, s)
      else if asciiSpace c then trimStart s'
      else (false, s)
  end.

(** The second loop of [TrimSpace]: move [stop] back over ASCII white
    space.  The boolean tells whether the loop ran into a non-ASCII byte;
    the string is [s[:stop]]. *)
Fixpoint trimStop (s : string) : bool * string :=
  match s with
  | "" => (false, "")
  | String c s' =>
      match trimStop s' with
      | (false, "") =>
          if negb (isASCII c) then (true, String c "")
          else if asciiSpace c then (false, "")
          else (false, String c "")
      | (b, r) => (b, String c r)
      end
  end.

(** ['A' <= c && c <= 'Z'] then [c += 'a' - 'A'] *)
Definition lowerASCII (c : ascii) : ascii :=
  let n := N_of_ascii c in
  if ((65 <=? n) && (n <=? 90))%N then ascii_of_N (n + 32) else c.

Fixpoint mapLower (s : string) : string :=
  match s with
  | "" => ""
  | String c s' => String (lowerASCII c) (mapLower s')
  end.

(** White space or a byte of a multi-byte character: the bytes that the
    encoding of a Unicode white space character is made of. *)
Fixpoint spaceBytes (s : string) : bool :=
  match s with
  | "" => true
  | String c s' => (asciiSpace c || negb (isASCII c)) && spaceBytes s'
  end.

(** The parts of [strings.TrimSpace] and [strings.ToLower] that consult the
    Unicode tables.  Both functions have a fast path for ASCII input, which
    is embedded below; on other input they fall back to the three functions
    of this class.  What is known of these functions is the following.
    - Trimming returns its argument without some white space characters at
      its ends; the bytes cut off are ASCII white space or bytes of
      multi-byte characters.
    - Mapping to lower case maps every ASCII byte to its lower case, in
      place, whatever it does to the other characters: an ASCII phrase
      found in the text after its ASCII letters have been lowered is found
      in the mapped text. *)
Class Unicode := {
  (** [strings.TrimFunc(s, unicode.IsSpace)] *)
  TrimFunc_IsSpace : string → string;
  (** [strings.TrimRightFunc(s, unicode.IsSpace)] *)
  TrimRightFunc_IsSpace : string → string;
  (** [strings.Map(unicode.ToLower, s)] *)
  Map_ToLower : string → string;
  TrimFunc_IsSpace_cut s :
    ∃ sp1 sp2, s = sp1 +:+ TrimFunc_IsSpace s +:+ sp2
               ∧ spaceBytes sp1 = true ∧ spaceBytes sp2 = true;
  TrimRightFunc_IsSpace_cut s :
    ∃ sp, s = TrimRightFunc_IsSpace s +:+ sp ∧ spaceBytes sp = true;
  Map_ToLower_ascii s m :
    allASCII m = true → Contains (mapLower s) m = true →
    Contains (Map_ToLower s) m = true;
}.

Section WithUnicode.
Context `{!Unicode}.

(** [strings.TrimSpace(s)] *)
Definition TrimSpace (s : string) : string :=
  match trimStart s with
  | (true, rest) => TrimFunc_IsSpace rest
  | (false, rest) =>
      match trimStop rest with
      | (true, r) => TrimRightFunc_IsSpace r
      | (false, r) => r
      end
  end.

(** [strings.ToLower(s)] *)
Definition ToLower (s : string) : string :=
  if allASCII s then mapLower s else Map_ToLower s.
End WithUnicode.

(** What more is known of the three functions.  [strings.Map] maps a text
    character by character, and an ASCII byte is a character on its own
    wherever it stands: the mapping of a text is the mapping of what is
    before an ASCII byte, the lowered byte, and the mapping of what is
    after it.  The trimming functions cut off whole characters: the
    mapping of what they return is a part of the mapping of their
    argument. *)
Class UnicodeRunes `{!Unicode} : Prop := {
  Map_ToLower_nil : Map_ToLower "" = "";
  Map_ToLower_byte s c s' :
    isASCII c = true →
    Map_ToLower (s +:+ String c s') = Map_ToLower s +:+ String (lowerASCII c) (Map_ToLower s');
  Map_ToLower_TrimFunc s :
    ∃ l1 l2, Map_ToLower s = l1 +:+ Map_ToLower (TrimFunc_IsSpace s) +:+ l2;
  Map_ToLower_TrimRightFunc s :
    ∃ l, Map_ToLower s = Map_ToLower (TrimRightFunc_IsSpace s) +:+ l;
}.

End gostrings.


(** ** Errors

    An error value keeps the format string and the operands it was built
    from, so that the place in the source that produced it can be read off
    the value.  Operands other than the [%w] one are kept as strings. *)
#[warnings="-register-all"]
Inductive error :=
| errorsNew (text : string)
    (** [errors.New(text)], also errors of the standard library *)
| fmtErrorf (format : string) (a : list string) (w : option error)
    (** [fmt.Errorf(format, a..., w)] where [w] is the [%w] operand, if any *)
| errorsWrapf (err : error) (format : string) (a : list string)
    (** [errors.Wrap(err, format)] and [errors.Wrapf(err, format, a...)] *)
| joinError (errs : list error)
    (** the result of [errors.Join] *)
| PanicError (recovered : string) (stack : string).
    (** [*errorutil.PanicError] *)

(** [errors.Join(errs...)]: nil operands are discarded; the result is nil
    when every operand is nil. *)
Definition errorsJoin (errs : list (option error)) : option error :=
  match omap id errs with
  | [] => None
  | es => Some (joinError es)
  end.

(** The errors an error value is made of: [e] itself and, through
    [errors.Join] and [%w], the errors it holds ([errors.Is] walks the same
    tree). *)
Fixpoint errorTree (e : error) : list error :=
  e ::
  match e with
  | errorsNew _ => []
  | fmtErrorf _ _ None => []
  | fmtErrorf _ _ (Some w) => errorTree w
  | errorsWrapf err _ _ => errorTree err
  | joinError errs =>
      (fix go (l : list error) : list error :=
         match l with
         | [] => []
         | x :: l' => errorTree x ++ go l'
         end) errs
  | PanicError _ _ => []
  end.

(** [==] on two error values. *)
Fixpoint error_beq (e1 e2 : error) : bool :=
  match e1, e2 with
  | errorsNew t1, errorsNew t2 => bool_decide (t1 = t2)
  | fmtErrorf f1 a1 w1, fmtErrorf f2 a2 w2 =>
      bool_decide (f1 = f2) && bool_decide (a1 = a2)
      && match w1, w2 with
         | Some x, Some y => error_beq x y
         | None, None => true
         | _, _ => false
         end
  | errorsWrapf x f1 a1, errorsWrapf y f2 a2 =>
      error_beq x y && bool_decide (f1 = f2) && bool_decide (a1 = a2)
  | joinError l1, joinError l2 =>
      (fix go (l1 l2 : list error) : bool :=
         match l1, l2 with
         | [], [] => true
         | x :: l1', y :: l2' => error_beq x y && go l1' l2'
         | _, _ => false
         end) l1 l2
  | PanicError r1 s1, PanicError r2 s2 => bool_decide (r1 = r2) && bool_decide (s1 = s2)
  | _, _ => false
  end.

(** [errors.Is(err, target)]: [target] is one of the errors [err] is made
    of. *)
Definition errorsIs (err target : error) : bool :=
  existsb (error_beq target) (errorTree err).

(** ** Go's standard library: [path/filepath], [os], [bufio], [regexp], [plugin] *)

(** The functions of [path/filepath] the processors call.  They depend on
    the operating system and, for [Abs], on the working directory. *)
Class Filepath := {
  filepath_Base : string → string;
  filepath_Dir : string → string;
  filepath_IsAbs : string → bool;
  filepath_Abs : string → error + string;
}.

(** The files of the analysed project: [os.Open(path)] fails, or gives a
    file with its bytes.  The files are files that, once opened, are read
    without error: a file whose reading fails after it was opened (a
    directory, a failing disk) is not among them. *)
Class FileSystem := {
  os_Open : string → error + string;
}.

(** A compiled regular expression: its source text and its matcher. *)
Record Regexp := {
  Regexp_String : string;
  MatchString : string → bool;
}.

Module bufio.

Definition ErrTooLong : error := errorsNew "bufio.Scanner: token too long".

Definition newline : ascii := ascii_of_N 10.
Definition cr : ascii := ascii_of_N 13.

(** The byte runs [bufio.ScanLines] cuts the input into, before the
    trailing carriage return is dropped: every run that ends in a newline
    (without the newline) and a final non-empty run without one. *)
Fixpoint rawLines (s : string) : list string :=
  match s with
  | "" => []
  | String c s' =>
      if bool_decide (c = newline) then "" :: rawLines s'
      else match rawLines s' with
           | [] => [String c ""]
           | l :: ls => String c l :: ls
           end
  end.

(** [dropCR]: drop one terminal carriage return. *)
Fixpoint dropCR (data : string) : string :=
  match data with
  | "" => ""
  | String c "" => if bool_decide (c = cr) then "" else data
  | String c s' => String c (dropCR s')
  end.

(** A scanner whose buffer is [make([]byte, max)] with limit [max] gives up
    with [ErrTooLong] on a run of [max] bytes or more: the buffer is full
    before the newline, or the end of the input, has been seen. *)
Definition tooLong (max : N) (raw : string) : bool :=
  (max <=? N.of_nat (String.length raw))%N.

End bufio.

(** ** Package [result] *)
Module result.

(** Modelled from the spec: the declaration of [token.Position] is not
    among the sources.  A diagnostic has a [filePath], a [line] and an
    optional [column]. *)
Record Position := {
  Filename : string;
  Line : Z;
  Column : Z;
}.

(** Modelled from the spec: the declaration of [result.Issue] is not among
    the sources.  A diagnostic has a position, a [message], a
    [sourceTaskID] and a [severity]; the sources call them [Pos], [Text],
    [FromLinter] and [Severity].  The fields of a replacement play no part
    in what follows and are left out. *)
Record Issue := {
  FromLinter : string;
  Text : string;
  Severity : string;
  Pos : Position;
}.

Definition FilePath (i : Issue) : string := Filename (Pos i).

(** [issues[i].FromLinter = name] *)
Definition setFromLinter (name : string) (i : Issue) : Issue :=
  {| FromLinter := name; Text := Text i; Severity := Severity i; Pos := Pos i |}.

End result.

(** ** Package [config] *)
Module config.

Record Linters := {
  Enable : list string;
  Disable : list string;
  Anduril : bool;
  EnableAll : bool;
  DisableAll : bool;
  Fast : bool;
  Presets : list string;
}.

(** Modelled from the spec: the declaration of
    [config.CustomLinterSettings] is not among the sources.  An externally
    supplied task comes with the fields [loadCustomLinterConfig] reads. *)
Record CustomLinterSettings := {
  Path : string;
  Enabled : bool;
  Slow : bool;
  OriginalUrl : string;
}.

(** The declarations of the other sections of the configuration are not
    among the sources; they are given with the fields the runner reads.

    [config.BaseRule], [config.ExcludeRule] and [config.SeverityRule] *)
Record BaseRule := {
  Rule_Linters : list string;
  Rule_Path : string;
  Rule_PathExcept : string;
  Rule_Text : string;
  Rule_Source : string;
}.

Record ExcludeRule := { ExcludeRule_BaseRule : BaseRule }.

Record SeverityRule := {
  SeverityRule_BaseRule : BaseRule;
  SeverityRule_Severity : string;
}.

(** [config.ExcludePattern], an element of [config.GetExcludePatterns] *)
Record ExcludePattern := {
  ExcludePattern_Pattern : string;
  ExcludePattern_Linter : string;
}.

(** [config.Issues], the fields the runner reads for the rule stages. *)
Record Issues := {
  IncludeDefaultExcludes : list string;
  ExcludeCaseSensitive : bool;
  ExcludePatterns : list string;
  ExcludeRules : list ExcludeRule;
  UseDefaultExcludes : bool;
}.

Record Severity := {
  Default : string;
  CaseSensitive : bool;
  Rules : list SeverityRule;
  KeepLinterSeverity : bool;
}.

(** [config.Run] and [config.Output], the fields the runner reads. *)
Record Run := {
  SkipFiles : list string;
  SkipDirs : list string;
  UseDefaultSkipDirs : bool;
  Args : list string;
}.

Record Output := { PathPrefix : string }.

(** [config.Config].  [LintersSettings.Custom] is a Go map; it is kept as
    the list of its entries in the order [range] visits them, which Go
    leaves unspecified. *)
Record Config := {
  Run_ : Run;
  Output_ : Output;
  Linters_ : Linters;
  Custom : list (string * CustomLinterSettings);
  Issues_ : Issues;
  Severity_ : Severity;
}.

End config.

(** ** Package [linter] *)

(** [linter.Context], the analysis context every linter receives and may
    change (loaded packages and their type information), with the one
    operation the runner applies to it. *)
Class LintContext := {
  lintCtx : Type;
  ClearTypesInPackages : lintCtx → lintCtx;
}.

Module linter.

(** How a call of [Linter.Run] ends. *)
Inductive RunResult :=
| Returns (issues : list result.Issue) (err : option error)
| PanicsWithPanicError (recovered : string) (stack : string)
    (** [panic(pe)] with [pe] a [*errorutil.PanicError] *)
| Panics (panicData : string).
    (** [panic(v)] with any other value, given by its [%s] rendering *)

(** [goanalysis.LoadMode] *)
Inductive LoadMode :=
| LoadModeNone | LoadModeSyntax | LoadModeTypesInfo | LoadModeWholeProgram.

Section WithContext.
Context `{!LintContext}.

(** Modelled from the spec: the interface [linter.Linter] is not among the
    sources.  A task has an id and is executed on the shared context:
    "[execute(sharedContext) → (diagnostics, error)]"; the call may change
    the context.  [goanalysisLoadMode] is [Some mode] when the dynamic type
    of the value is [*goanalysis.Linter], the one type the resolver asserts
    on. *)
Record Linter := {
  Linter_Name : string;
  Linter_Desc : string;
  Linter_Run : lintCtx → RunResult * lintCtx;
  goanalysisLoadMode : option LoadMode;
}.

Record Deprecation := {
  Since : string;
  Message : string;
  Replacement : string;
}.

(** Modelled from the spec: the declaration of [linter.Config] is not
    among the sources.  A task descriptor has an [id] (the name of its
    linter), [aliases], a [presetMembership], and the flags
    [enabledByDefault], [isSlow], [isDeprecated] and
    [mutatesSharedAnalysisState]; the sources call them [AlternativeNames],
    [InPresets], [EnabledByDefault], [IsSlow], [Deprecation] and
    [DoesChangeTypes]. *)
Record Config := {
  Linter_ : Linter;
  EnabledByDefault : bool;
  InPresets : list string;
  AlternativeNames : list string;
  OriginalURL : string;
  IsSlow : bool;
  DoesChangeTypes : bool;
  Deprecation_ : option Deprecation;
}.

Definition Name (lc : Config) : string := Linter_Name (Linter_ lc).

(** Modelled from the spec: [Config.IsSlowLinter] is not among the sources;
    a task is "flagged [isSlow]". *)
Definition IsSlowLinter (lc : Config) : bool := IsSlow lc.

(** [linter.NewConfig(l)]: a descriptor with every other field zero. *)
Definition NewConfig (l : Linter) : Config :=
  {| Linter_ := l; EnabledByDefault := false; InPresets := [];
     AlternativeNames := []; OriginalURL := ""; IsSlow := false;
     DoesChangeTypes := false; Deprecation_ := None |}.

(** The assignments [loadCustomLinterConfig] makes to a fresh descriptor:
    [EnabledByDefault], [IsSlow] and, through [WithURL], [OriginalURL]. *)
Definition withCustomSettings (lc : Config) (enabled slow : bool) (url : string) : Config :=
  {| Linter_ := Linter_ lc; EnabledByDefault := enabled;
     InPresets := InPresets lc; AlternativeNames := AlternativeNames lc;
     OriginalURL := url; IsSlow := slow;
     DoesChangeTypes := DoesChangeTypes lc; Deprecation_ := Deprecation_ lc |}.

End WithContext.
End linter.

(** The constructors of package [goanalysis] and the loader of package
    [plugin], none of which is among the sources. *)
Class GoAnalysis `{!LintContext} := {
  Analyzer : Type;
  (** [goanalysis.NewLinter(name, desc, analyzers, nil)] *)
  goanalysis_NewLinter : string → string → list Analyzer → linter.Linter;
  (** [goanalysis.NewMetaLinter(linters)] *)
  goanalysis_NewMetaLinter : list linter.Linter → linter.Linter;
  (** [Config.WithLoadForGoAnalysis()] *)
  WithLoadForGoAnalysis : linter.Config → linter.Config;
}.

Module plugin.
Section WithGoAnalysis.
Context `{!LintContext, !GoAnalysis}.

(** A value implementing the interface [AnalyzerPlugin]. *)
Record AnalyzerPlugin := {
  GetLinterName : string;
  GetLinterDesc : string;
  GetAnalyzers : list Analyzer;
}.

(** An opened plugin: [Lookup] gives an error or a symbol; the symbol is
    [Some p] when it implements [AnalyzerPlugin]. *)
Record Plugin := {
  Lookup : string → error + option AnalyzerPlugin;
}.

End WithGoAnalysis.
End plugin.

(** [plugin.Open(path)] *)
Class PluginLoader `{!LintContext, !GoAnalysis} := {
  plugin_Open : string → error + plugin.Plugin;
}.

(** ** Package [lintersdb]: the validator and the resolver *)
Module lintersdb.
Import config linter.

Section WithContext.
Context `{!LintContext, !GoAnalysis, !PluginLoader}.

(** The task registry.  [Manager] is not among the sources: it enters as
    the methods the validator and the resolver call on it, together with
    the package-level [AllPresets()]. *)
Record Manager := {
  GetAllSupportedLinterConfigs : list Config;
  GetLinterConfigs : string → list Config;
  GetAllLinterConfigsForPreset : string → list Config;
  GetAllEnabledByDefaultLinters : list Config;
  AllPresets : list string;
}.

(** Modelled from the spec: the registry behind [Manager] is not among the
    sources.  It is a catalogue of task descriptors; [lookup(nameOrAlias)]
    resolves a name through the ids and their aliases, a preset holds
    "every task that declares membership in that preset", and the default
    set is "the default-enabled subset". *)
Definition registryManager (catalogue : list Config) (presets : list string) : Manager :=
  {| GetAllSupportedLinterConfigs := catalogue;
     GetLinterConfigs name :=
       filter (λ lc, name = Name lc ∨ name ∈ AlternativeNames lc) catalogue;
     GetAllLinterConfigsForPreset p := filter (λ lc, p ∈ InPresets lc) catalogue;
     GetAllEnabledByDefaultLinters := filter (λ lc, EnabledByDefault lc) catalogue;
     AllPresets := presets |}.

(** Modelled from the spec: [linterConfigsToMap] is not among the sources.
    The resolver produces "a mapping from task id to Task": every
    descriptor is stored under its name. *)
Definition linterConfigsToMap (lcs : list Config) : gmap string Config :=
  foldl (λ ret lc, <[Name lc := lc]> ret) ∅ lcs.

(** *** validator *)

Record Validator := { Validator_m : Manager }.

Definition validateLintersNames (v : Validator) (cfg : Linters) : option error :=
  let allNames := Enable cfg ++ Disable cfg in
  let unknownNames :=
    filter (λ name, GetLinterConfigs (Validator_m v) name = []) allNames in
  if (0 <? length unknownNames)%nat then
    Some (fmtErrorf
      "unknown linters: '%v', run 'golangci-lint help linters' to see the list of supported linters"
      [gostrings.Join unknownNames ","] None)
  else None.

(** The loop of [validatePresets] over [cfg.Presets]. *)
Fixpoint validatePresetsLoop (presets : list string) (ps : list string) : option error :=
  match ps with
  | [] => None
  | p :: ps' =>
      if bool_decide (p ∈ presets) then validatePresetsLoop presets ps'
      else Some (fmtErrorf "no such preset %q: only next presets exist: (%s)"
                   [p; gostrings.Join presets "|"] None)
  end.

Definition validatePresets (v : Validator) (cfg : Linters) : option error :=
  let presets := AllPresets (Validator_m v) in
  match validatePresetsLoop presets (Presets cfg) with
  | Some err => Some err
  | None =>
      if negb (length (Presets cfg) =? 0)%nat && EnableAll cfg then
        Some (errorsNew "--presets is incompatible with --enable-all")
      else None
  end.

Definition validateAllDisableEnableOptions (v : Validator) (cfg : Linters) : option error :=
  if EnableAll cfg && DisableAll cfg then
    Some (errorsNew "--enable-all and --disable-all options must not be combined")
  else
    let inDisableAll :=
      if DisableAll cfg then
        if (length (Enable cfg) =? 0)%nat && (length (Presets cfg) =? 0)%nat then
          Some (errorsNew
            "all linters were disabled, but no one linter was enabled: must enable at least one")
        else if negb (length (Disable cfg) =? 0)%nat then
          Some (fmtErrorf "can't combine options --disable-all and --disable %s"
                  [default "" (head (Disable cfg))] None)
        else None
      else None in
    match inDisableAll with
    | Some err => Some err
    | None =>
        if EnableAll cfg && negb (length (Enable cfg) =? 0)%nat && negb (Fast cfg) then
          Some (fmtErrorf "can't combine options --enable-all and --enable %s"
                  [default "" (head (Enable cfg))] None)
        else None
    end.

(** The second loop of [validateDisabledAndEnabledAtOneMoment]. *)
Fixpoint disabledAndEnabledLoop (enabledLintersSet : gmap string bool) (names : list string)
  : option error :=
  match names with
  | [] => None
  | name :: names' =>
      if default false (enabledLintersSet !! name) then
        Some (fmtErrorf "linter %q can't be disabled and enabled at one moment" [name] None)
      else disabledAndEnabledLoop enabledLintersSet names'
  end.

Definition validateDisabledAndEnabledAtOneMoment (v : Validator) (cfg : Linters) : option error :=
  let enabledLintersSet : gmap string bool :=
    foldl (λ s name, <[name := true]> s) ∅ (Enable cfg) in
  disabledAndEnabledLoop enabledLintersSet (Disable cfg).

(** [for _, v := range validators]: the first error is returned. *)
Fixpoint runValidators (validators : list (Linters → option error)) (cfg : Linters)
  : option error :=
  match validators with
  | [] => None
  | v :: rest =>
      match v cfg with
      | Some err => Some err
      | None => runValidators rest cfg
      end
  end.

Definition validateEnabledDisabledLintersConfig (v : Validator) (cfg : Linters) : option error :=
  let validators :=
    [ validateLintersNames v;
      validatePresets v;
      validateAllDisableEnableOptions v;
      validateDisabledAndEnabledAtOneMoment v ] in
  runValidators validators cfg.

(** *** enabled_set *)

Record EnabledSet := {
  EnabledSet_m : Manager;
  EnabledSet_v : Validator;
  EnabledSet_cfg : config.Config;
}.

Definition GetAnalyzerPlugin (es : EnabledSet) (path : string) : error + plugin.AnalyzerPlugin :=
  match plugin_Open path with
  | inl err => inl err
  | inr plug =>
      match plugin.Lookup plug "AnalyzerPlugin" with
      | inl err => inl err
      | inr None =>
          inl (fmtErrorf "plugin %s does not abide by 'AnalyzerPlugin' interface" [path] None)
      | inr (Some analyzerPlugin) => inr analyzerPlugin
      end
  end.

Definition loadCustomLinterConfig (es : EnabledSet) (name : string)
    (settings : CustomLinterSettings) : error + Config :=
  match GetAnalyzerPlugin es (Path settings) with
  | inl err => inl err
  | inr analyzer =>
      let customLinter :=
        goanalysis_NewLinter (plugin.GetLinterName analyzer) (plugin.GetLinterDesc analyzer)
          (plugin.GetAnalyzers analyzer) in
      let linterConfig := NewConfig customLinter in
      inr (withCustomSettings linterConfig (Enabled settings) (Slow settings)
             (OriginalUrl settings))
  end.

(** The steps of [build], in the order of the source. *)

(** lines 34-44: the [switch] that seeds the result. *)
Definition seedSet (es : EnabledSet) (lcfg : Linters) (enabledByDefaultLinters : list Config)
  : gmap string Config :=
  if negb (length (Presets lcfg) =? 0)%nat then ∅
  else if EnableAll lcfg then
    linterConfigsToMap (GetAllSupportedLinterConfigs (EnabledSet_m es))
  else if DisableAll lcfg then ∅
  else linterConfigsToMap enabledByDefaultLinters.

(** lines 47-52: every linter of every preset is put into the result. *)
Definition addPresets (es : EnabledSet) (presets : list string) (resultLintersSet : gmap string Config)
  : gmap string Config :=
  foldl (λ acc p,
           foldl (λ acc lc, <[Name lc := lc]> acc) acc
             (GetAllLinterConfigsForPreset (EnabledSet_m es) p))
        resultLintersSet presets.

(** lines 57-63: with [Fast], slow linters are deleted while ranging over
    the map; what remains are the entries that are not slow. *)
Definition removeSlow (fast : bool) (resultLintersSet : gmap string Config)
  : gmap string Config :=
  if fast then filter (λ kv, negb (IsSlowLinter kv.2)) resultLintersSet
  else resultLintersSet.

(** lines 65-70 *)
Definition applyEnable (es : EnabledSet) (names : list string) (resultLintersSet : gmap string Config)
  : gmap string Config :=
  foldl (λ acc name,
           foldl (λ acc lc, <[Name lc := lc]> acc) acc
             (GetLinterConfigs (EnabledSet_m es) name))
        resultLintersSet names.

(** lines 72-77 *)
Definition applyDisable (es : EnabledSet) (names : list string) (resultLintersSet : gmap string Config)
  : gmap string Config :=
  foldl (λ acc name,
           foldl (λ acc lc, delete (Name lc) acc) acc
             (GetLinterConfigs (EnabledSet_m es) name))
        resultLintersSet names.

(** lines 80-91: custom linters that load are put into the result, the
    others are logged and skipped. *)
Definition addCustom (es : EnabledSet) (custom : list (string * CustomLinterSettings))
    (resultLintersSet : gmap string Config) : gmap string Config :=
  foldl (λ acc entry,
           match loadCustomLinterConfig es entry.1 entry.2 with
           | inl err => acc
           | inr linterConfig => <[Name linterConfig := linterConfig]> acc
           end)
        resultLintersSet custom.

Definition build (es : EnabledSet) (lcfg : Linters) (enabledByDefaultLinters : list Config)
  : gmap string Config :=
  let resultLintersSet := seedSet es lcfg enabledByDefaultLinters in
  let resultLintersSet := addPresets es (Presets lcfg) resultLintersSet in
  let resultLintersSet := removeSlow (Fast lcfg) resultLintersSet in
  let resultLintersSet := applyEnable es (Enable lcfg) resultLintersSet in
  let resultLintersSet := applyDisable es (Disable lcfg) resultLintersSet in
  addCustom es (Custom (EnabledSet_cfg es)) resultLintersSet.

(** The two tests of the first loop of [combineGoAnalysisLinters]: the
    linter is a [*goanalysis.Linter] and its load mode is not
    [LoadModeWholeProgram]. *)
Definition combinable (lc : Config) : bool :=
  match goanalysisLoadMode (Linter_ lc) with
  | Some LoadModeWholeProgram => false
  | Some _ => true
  | None => false
  end.

(** [combineGoAnalysisLinters]: the map is ranged over in the order of
    [map_to_list]; Go leaves the order unspecified. *)
Definition combineGoAnalysisLinters (es : EnabledSet) (linters : gmap string Config)
  : gmap string Config :=
  let eligible := filter (λ lc, combinable lc) (map_to_list linters).*2 in
  let goanalysisLinters := Linter_ <$> eligible in
  let goanalysisPresets : gmap string bool :=
    foldl (λ acc lc, foldl (λ acc p, <[p := true]> acc) acc (InPresets lc)) ∅ eligible in
  if (length goanalysisLinters <=? 1)%nat then linters
  else
    let linters := foldl (λ acc lnt, delete (Linter_Name lnt) acc) linters goanalysisLinters in
    let ml := goanalysis_NewMetaLinter goanalysisLinters in
    let presets := (map_to_list goanalysisPresets).*1 in
    let mlConfig :=
      {| Linter_ := ml; EnabledByDefault := false; InPresets := presets;
         AlternativeNames := []; OriginalURL := ""; IsSlow := false;
         DoesChangeTypes := false; Deprecation_ := None |} in
    <[Linter_Name ml := WithLoadForGoAnalysis mlConfig]> linters.

(** [Get]: the validator runs first and its error is returned as it is;
    the resolved map is then listed (in the order of [map_to_list]; Go
    leaves the order unspecified).  [verbosePrintLintersStatus] only logs,
    and sorts the presets of the configuration in place, which no later
    step depends on. *)
Definition Get (es : EnabledSet) (optimize : bool) : list Config * option error :=
  match validateEnabledDisabledLintersConfig (EnabledSet_v es) (Linters_ (EnabledSet_cfg es)) with
  | Some err => ([], Some err)
  | None =>
      let resultLintersSet :=
        build es (Linters_ (EnabledSet_cfg es))
          (GetAllEnabledByDefaultLinters (EnabledSet_m es)) in
      let resultLintersSet :=
        if optimize then combineGoAnalysisLinters es resultLintersSet
        else resultLintersSet in
      ((map_to_list resultLintersSet).*2, None)
  end.

End WithContext.
End lintersdb.

(** ** Package [processors] *)

(** Functions and constants of the repository the processors use and that
    are not among the sources, and [regexp.Compile]. *)
Class Fsutils := {
  NormalizePathInRegex : string → string;
  WithPathPrefix : string → string → string;
  goFileExtension : string;
  regexp_Compile : string → error + Regexp;
}.

Module processors.
Import result.

(** Modelled from the spec: the interface [Processor] is not among the
    sources.  A stage has a [name], "owns whatever internal cache it
    needs", and "yields [(survivingDiagnostics, error)]"; its [finish()]
    hook "performs no filtering".  A value of the interface is a receiver
    with its own state and the methods [Name], [Process] and [Finish];
    [Process] gets the state of the receiver and returns the state it
    leaves behind.  It reads the slice it is given and does not write to
    it. *)
Record Processor := {
  Processor_state : Type;
  Processor_this : Processor_state;
  Processor_Name : string;
  Processor_Process :
    Processor_state → list Issue → (list Issue * option error) * Processor_state;
  Processor_Finish : Processor_state → Processor_state;
}.

(** [p.Process(issues)] together with the processor it leaves behind. *)
Definition Process (p : Processor) (issues : list Issue)
  : (list Issue * option error) * Processor :=
  let '(ret, this) := Processor_Process p (Processor_this p) issues in
  (ret, {| Processor_this := this; Processor_Name := Processor_Name p;
           Processor_Process := Processor_Process p;
           Processor_Finish := Processor_Finish p |}).

(** [p.Finish()] *)
Definition Finish (p : Processor) : Processor :=
  {| Processor_this := Processor_Finish p (Processor_this p);
     Processor_Name := Processor_Name p;
     Processor_Process := Processor_Process p;
     Processor_Finish := Processor_Finish p |}.

(** Modelled from the spec: [filterIssues] is not among the sources.  A
    stage that filters yields the surviving diagnostics: those its filter
    admits, in their order.  The filter runs on the receiver, issue after
    issue. *)
Fixpoint filterIssues {S : Type} (issues : list Issue) (filter : S → Issue → bool * S) (this : S)
  : list Issue * S :=
  match issues with
  | [] => ([], this)
  | i :: rest =>
      let '(ok, this) := filter this i in
      let '(retIssues, this) := filterIssues rest filter this in
      (if ok then i :: retIssues else retIssues, this)
  end.

(** Modelled from the spec: [filterIssuesErr] is not among the sources.  A
    stage that filters "yields [(survivingDiagnostics, error)]": the first
    error of the filter ends the stage and is its error; otherwise the
    stage yields the issues the filter admits. *)
Fixpoint filterIssuesErr {S : Type} (issues : list Issue)
    (filter : S → Issue → (bool * option error) * S) (this : S)
  : (list Issue * option error) * S :=
  match issues with
  | [] => (([], None), this)
  | i :: rest =>
      match filter this i with
      | ((_, Some err), this) => (([], Some err), this)
      | ((ok, None), this) =>
          match filterIssuesErr rest filter this with
          | ((_, Some err), this) => (([], Some err), this)
          | ((retIssues, None), this) =>
              ((if ok then i :: retIssues else retIssues, None), this)
          end
      end
  end.

(** *** autogenerated_exclude *)
Record ageFileSummary := { isGenerated : bool }.

(** The zero value of the struct. *)
#[global] Instance ageFileSummary_inhabited : Inhabited ageFileSummary :=
  populate {| isGenerated := false |}.

Section AutogeneratedExclude.
Context `{!gostrings.Unicode, !Filepath, !FileSystem}.

(** The processor.  The cache holds pointers to summaries: [summaries] is
    the store of the summaries allocated so far and a pointer is an index
    into it. *)
Record AutogeneratedExclude := {
  summaries : list ageFileSummary;
  fileSummaryCache : gmap string nat;
}.

Definition NewAutogeneratedExclude : AutogeneratedExclude :=
  {| summaries := []; fileSummaryCache := ∅ |}.

Definition isSpecialAutogeneratedFile (filePath : string) : bool :=
  let fileName := filepath_Base filePath in
  bool_decide (fileName = "yacctab") || bool_decide (fileName = "yaccpar")
  || bool_decide (fileName = "NONE").

Definition genCodeGenerated : string := "code generated".
Definition genDoNotEdit : string := "do not edit".
Definition genAutoFile : string := "autogenerated file".
Definition markers : list string := [genCodeGenerated; genDoNotEdit; genAutoFile].

Definition isGeneratedFileByComment (doc : string) : bool :=
  let doc := gostrings.ToLower doc in
  existsb (λ marker, gostrings.Contains doc marker) markers.

Definition maxTokenSize : N := 512 * 1024.

(** The scanning loop of [getDoc] over the lines still to be read.  [None]
    is the state in which [scanner.Err()] is [bufio.ErrTooLong]; the file
    is one that is read without error, so this is the only error of the
    scanner. *)
Fixpoint getDocLines (raws : list string) (docLines : list string) : option (list string) :=
  match raws with
  | [] => Some docLines
  | raw :: rest =>
      if bufio.tooLong maxTokenSize raw then None
      else
        let line := gostrings.TrimSpace (bufio.dropCR raw) in
        if gostrings.HasPrefix line "//" then
          let text := gostrings.TrimSpace (gostrings.TrimPrefix line "//") in
          getDocLines rest (docLines ++ [text])
        else if bool_decide (line = "") || gostrings.HasPrefix line "package" then
          getDocLines rest docLines
        else Some docLines
  end.

Definition getDoc (filePath : string) : error + string :=
  match os_Open filePath with
  | inl err => inl (errorsWrapf err "failed to open file" [])
  | inr file =>
      match getDocLines (bufio.rawLines file) [] with
      | None => inl (errorsWrapf bufio.ErrTooLong "failed to scan file" [])
      | Some docLines => inr (gostrings.Join docLines (String bufio.newline ""))
      end
  end.

(** [fs.isGenerated = v] through the pointer [fs]. *)
Definition setIsGenerated (p : AutogeneratedExclude) (fs : nat) (v : bool)
  : AutogeneratedExclude :=
  {| summaries := <[fs := {| isGenerated := v |}]> (summaries p);
     fileSummaryCache := fileSummaryCache p |}.

Definition getOrCreateFileSummary (p : AutogeneratedExclude) (i : Issue)
  : (error + nat) * AutogeneratedExclude :=
  match fileSummaryCache p !! FilePath i with
  | Some fs => (inr fs, p)
  | None =>
      let fs := length (summaries p) in
      let p := {| summaries := summaries p ++ [{| isGenerated := false |}];
                  fileSummaryCache := <[FilePath i := fs]> (fileSummaryCache p) |} in
      if bool_decide (FilePath i = "") then
        (inl (fmtErrorf "no file path for issue" [] None), p)
      else
        match getDoc (FilePath i) with
        | inl err => (inl (errorsWrapf err "failed to get doc of file %s" [FilePath i]), p)
        | inr doc => (inr fs, setIsGenerated p fs (isGeneratedFileByComment doc))
        end
  end.

Definition shouldPassIssue (p : AutogeneratedExclude) (i : Issue)
  : (bool * option error) * AutogeneratedExclude :=
  if bool_decide (FromLinter i = "typecheck") then ((true, None), p)
  else if isSpecialAutogeneratedFile (FilePath i) then ((false, None), p)
  else
    match getOrCreateFileSummary p i with
    | (inl err, p) => ((false, Some err), p)
    | (inr fs, p) => ((negb (isGenerated (summaries p !!! fs)), None), p)
    end.

Definition AutogeneratedExclude_Process (p : AutogeneratedExclude) (issues : list Issue)
  : (list Issue * option error) * AutogeneratedExclude :=
  filterIssuesErr issues shouldPassIssue p.

(** The processor as a value of the interface. *)
Definition AutogeneratedExclude_Processor (p : AutogeneratedExclude) : Processor :=
  {| Processor_this := p;
     Processor_Name := "autogenerated_exclude";
     Processor_Process := AutogeneratedExclude_Process;
     Processor_Finish := λ p : AutogeneratedExclude, p |}.

End AutogeneratedExclude.

(** *** skip_dirs *)
Section SkipDirs.
Context `{!Filepath, !Fsutils}.

Record skipStat := {
  pattern : string;
  count : Z;
}.

(** The processor.  [skippedDirs] maps a directory to a pointer to its
    statistics; no pointer is shared, so the statistics are kept in the map
    itself. *)
Record SkipDirs := {
  patterns : list Regexp;
  skippedDirs : gmap string skipStat;
  absArgsDirs : list string;
  skippedDirsCache : gmap string bool;
  pathPrefix : string;
}.

(** The first loop of [NewSkipDirs]. *)
Fixpoint compilePatterns (patterns : list string) (patternsRe : list Regexp)
  : error + list Regexp :=
  match patterns with
  | [] => inr patternsRe
  | p :: rest =>
      let p := NormalizePathInRegex p in
      match regexp_Compile p with
      | inl err => inl (fmtErrorf "can't compile regexp %q: %w" [p] (Some err))
      | inr patternRe => compilePatterns rest (patternsRe ++ [patternRe])
      end
  end.

(** The directory an analysis argument stands for: the argument itself, or
    its parent when its last element is [...] or ends in [.go]. *)
Definition argDir (arg : string) : string :=
  let base := filepath_Base arg in
  if bool_decide (base = "...") || gostrings.HasSuffix base goFileExtension
  then filepath_Dir arg
  else arg.

(** The second loop of [NewSkipDirs]. *)
Fixpoint absArgs (runArgs : list string) (absArgsDirs : list string) : error + list string :=
  match runArgs with
  | [] => inr absArgsDirs
  | arg :: rest =>
      let arg := argDir arg in
      match filepath_Abs arg with
      | inl err => inl (fmtErrorf "failed to abs-ify arg %q: %w" [arg] (Some err))
      | inr absArg => absArgs rest (absArgsDirs ++ [absArg])
      end
  end.

Definition NewSkipDirs (patterns : list string) (runArgs : list string) (pathPrefix : string)
  : error + SkipDirs :=
  match compilePatterns patterns [] with
  | inl err => inl err
  | inr patternsRe =>
      let runArgs := if (length runArgs =? 0)%nat then runArgs ++ ["./..."] else runArgs in
      match absArgs runArgs [] with
      | inl err => inl err
      | inr absArgsDirs =>
          inr {| patterns := patternsRe;
                 skippedDirs := ∅;
                 absArgsDirs := absArgsDirs;
                 skippedDirsCache := ∅;
                 pathPrefix := pathPrefix |}
      end
  end.

(** [p.skippedDirs[dir].count++].  The entry is dereferenced: it has to be
    there (see [SkipDirs_inv] below). *)
Definition countSkipped (p : SkipDirs) (dir : string) : SkipDirs :=
  {| patterns := patterns p;
     skippedDirs :=
       alter (λ st, {| pattern := pattern st; count := count st + 1 |}) dir (skippedDirs p);
     absArgsDirs := absArgsDirs p;
     skippedDirsCache := skippedDirsCache p;
     pathPrefix := pathPrefix p |}.

(** [if p.skippedDirs[dir] == nil { p.skippedDirs[dir] = &skipStat{pattern: ps} }] *)
Definition initSkipped (p : SkipDirs) (dir ps : string) : SkipDirs :=
  match skippedDirs p !! dir with
  | Some _ => p
  | None =>
      {| patterns := patterns p;
         skippedDirs := <[dir := {| pattern := ps; count := 0 |}]> (skippedDirs p);
         absArgsDirs := absArgsDirs p;
         skippedDirsCache := skippedDirsCache p;
         pathPrefix := pathPrefix p |}
  end.

(** [p.skippedDirsCache[dir] = toPass] *)
Definition cacheDir (p : SkipDirs) (dir : string) (toPass : bool) : SkipDirs :=
  {| patterns := patterns p;
     skippedDirs := skippedDirs p;
     absArgsDirs := absArgsDirs p;
     skippedDirsCache := <[dir := toPass]> (skippedDirsCache p);
     pathPrefix := pathPrefix p |}.

Definition shouldPassIssueDirs (p : SkipDirs) (issueRelDir issueAbsDir : string)
  : bool * SkipDirs :=
  if existsb (λ absArgDir, bool_decide (absArgDir = issueAbsDir)) (absArgsDirs p) then
    (true, p)
  else
    let path := WithPathPrefix (pathPrefix p) issueRelDir in
    match List.find (λ pattern, MatchString pattern path) (patterns p) with
    | Some pattern =>
        let ps := Regexp_String pattern in
        (false, countSkipped (initSkipped p issueRelDir ps) issueRelDir)
    | None => (true, p)
    end.

Definition SkipDirs_shouldPassIssue (p : SkipDirs) (issue : Issue) : bool * SkipDirs :=
  if filepath_IsAbs (FilePath issue) then (true, p)
  else
    let issueRelDir := filepath_Dir (FilePath issue) in
    match skippedDirsCache p !! issueRelDir with
    | Some true => (true, p)
    | Some false => (false, countSkipped p issueRelDir)
    | None =>
        match filepath_Abs issueRelDir with
        | inl err => (true, p)
        | inr issueAbsDir =>
            let '(toPass, p) := shouldPassIssueDirs p issueRelDir issueAbsDir in
            (toPass, cacheDir p issueRelDir toPass)
        end
    end.

Definition SkipDirs_Process (p : SkipDirs) (issues : list Issue)
  : (list Issue * option error) * SkipDirs :=
  if (length (patterns p) =? 0)%nat then ((issues, None), p)
  else
    let '(ret, p) := filterIssues issues SkipDirs_shouldPassIssue p in
    ((ret, None), p).

Definition SkipDirs_Processor (p : SkipDirs) : Processor :=
  {| Processor_this := p;
     Processor_Name := "skip_dirs";
     Processor_Process := SkipDirs_Process;
     Processor_Finish := λ p : SkipDirs, p |}.

End SkipDirs.
End processors.

(** Options of the rule processors (package [processors]).  Their
    declarations are not among the sources; they are given with the fields
    the runner sets. *)
Module rules.

Record ExcludeOptions := {
  ExcludeOptions_Pattern : string;
  ExcludeOptions_CaseSensitive : bool;
}.

Record BaseRule := {
  Text : string;
  Source : string;
  Path : string;
  PathExcept : string;
  Linters : list string;
}.

Record ExcludeRule := { ExcludeRule_BaseRule : BaseRule }.

Record ExcludeRulesOptions := {
  ExcludeRulesOptions_Rules : list ExcludeRule;
  ExcludeRulesOptions_CaseSensitive : bool;
}.

Record SeverityRule := {
  SeverityRule_Severity : string;
  SeverityRule_BaseRule : BaseRule;
}.

Record SeverityOptions := {
  SeverityOptions_Default : string;
  SeverityOptions_Rules : list SeverityRule;
  SeverityOptions_CaseSensitive : bool;
  SeverityOptions_Override : bool;
}.

End rules.

(** The processors, and the other values, the runner takes from code that
    is not among the sources.  Each processor is given by its constructor,
    applied to what the runner passes to it (loggers and caches apart). *)
Class Stages `{!LintContext} := {
  NewCgo : processors.Processor;
  NewFilenameUnadjuster : processors.Processor;
  NewPathPrettifier : processors.Processor;
  NewSkipFiles : list string → string → error + processors.Processor;
  NewIdentifierMarker : processors.Processor;
  NewExclude : rules.ExcludeOptions → processors.Processor;
  NewExcludeRules : rules.ExcludeRulesOptions → processors.Processor;
  NewNolint : gmap string linter.Config → processors.Processor;
  NewUniqByLine : config.Config → processors.Processor;
  NewDiff : config.Issues → processors.Processor;
  NewMaxPerFileFromLinter : config.Config → processors.Processor;
  NewMaxSameIssues : config.Config → processors.Processor;
  NewMaxFromLinter : config.Config → processors.Processor;
  NewSourceCode : processors.Processor;
  NewPathShortener : processors.Processor;
  NewSeverity : rules.SeverityOptions → processors.Processor;
  NewFixer : config.Config → processors.Processor;
  NewPathPrefixer : string → processors.Processor;
  NewSortResults : config.Config → processors.Processor;
  (** [config.GetExcludePatterns(include)] *)
  GetExcludePatterns : list string → list config.ExcludePattern;
  (** [packages.StdExcludeDirRegexps] *)
  StdExcludeDirRegexps : list string;
  (** [dbManager.GetEnabledLintersMap()] *)
  GetEnabledLintersMap : error + gmap string linter.Config;
}.

(** ** Package [lint]: the runner *)
Module lint.
Import result linter processors.

Section Runner.
Context `{!LintContext}.

Record processorStat := {
  inCount : Z;
  outCount : Z;
}.

(** [timeutils.Stopwatch]: the names of the stages it tracked, in order.
    [sw.TrackStage(name, f)] records [name] and calls [f]. *)
Definition Stopwatch := list string.

Definition TrackStage (sw : Stopwatch) (name : string) : Stopwatch := sw ++ [name].

(** The runner.  [Runner_lintCtx] is the context the pointer [r.lintCtx]
    refers to; linters change it in place. *)
Record Runner := {
  Runner_lintCtx : lintCtx;
  Processors : list Processor;
}.

(** The loop at the end of [runLinterSafe]: an issue without [FromLinter]
    gets the name of the linter. *)
Definition stamp (lc : Config) (issues : list Issue) : list Issue :=
  (λ i, if bool_decide (FromLinter i = "") then setFromLinter (Name lc) i else i) <$> issues.

(** [runLinterSafe]: the call of the linter, the deferred [recover] and
    the context the call leaves behind. *)
Definition runLinterSafe (ctx : lintCtx) (lc : Config)
  : (list Issue * option error) * lintCtx :=
  let '(outcome, ctx) := Linter_Run (Linter_ lc) ctx in
  match outcome with
  | PanicsWithPanicError recovered stack =>
      (([], Some (fmtErrorf "%s: %w" [Name lc] (Some (PanicError recovered stack)))), ctx)
  | Panics panicData =>
      (([], Some (fmtErrorf "panic occurred: %s" [panicData] None)), ctx)
  | Returns issues err =>
      let ctx := if DoesChangeTypes lc then ClearTypesInPackages ctx else ctx in
      match err with
      | Some err => (([], Some err), ctx)
      | None => ((stamp lc issues, None), ctx)
      end
  end.

(** The variables the loop of [Run] updates. *)
Record runState := {
  sw : Stopwatch;
  lintErrors : option error;
  issues : list Issue;
  ctx : lintCtx;
}.

(** The body of the loop of [Run]. *)
Definition runStep (st : runState) (lc : Config) : runState :=
  let '((linterIssues, err), ctx') := runLinterSafe (ctx st) lc in
  match err with
  | Some err =>
      {| sw := TrackStage (sw st) (Name lc);
         lintErrors :=
           errorsJoin [lintErrors st;
                       Some (fmtErrorf "can't run linter %s" [Linter_Name (Linter_ lc)] None);
                       Some err];
         issues := issues st;
         ctx := ctx' |}
  | None =>
      {| sw := TrackStage (sw st) (Name lc);
         lintErrors := lintErrors st;
         issues := issues st ++ linterIssues;
         ctx := ctx' |}
  end.

(** [stat := statPerProcessor[name]; stat.inCount += in; stat.outCount += out;
    statPerProcessor[name] = stat] *)
Definition addStat (statPerProcessor : gmap string processorStat) (name : string)
    (n_in n_out : nat) : gmap string processorStat :=
  let stat := default {| inCount := 0; outCount := 0 |} (statPerProcessor !! name) in
  <[name := {| inCount := inCount stat + Z.of_nat n_in;
               outCount := outCount stat + Z.of_nat n_out |}]> statPerProcessor.

(** [processIssues] over the processors still to run.  Besides the issues
    it returns the processors as their calls leave them, the stopwatch and
    the statistics.  The last step of the loop body turns a nil slice into
    an empty one; both are [[]] here. *)
Fixpoint processIssues (ps : list Processor) (issues : list Issue) (sw : Stopwatch)
    (statPerProcessor : gmap string processorStat)
  : list Issue * list Processor * Stopwatch * gmap string processorStat :=
  match ps with
  | [] => (issues, [], sw, statPerProcessor)
  | p :: rest =>
      let '((newIssues, err), p') := Process p issues in
      let sw := TrackStage sw (Processor_Name p) in
      let '(issues, statPerProcessor) :=
        match err with
        | Some _ => (issues, statPerProcessor)
        | None =>
            (newIssues,
             addStat statPerProcessor (Processor_Name p) (length issues) (length newIssues))
        end in
      let '(out, rest', sw, statPerProcessor) :=
        processIssues rest issues sw statPerProcessor in
      (out, p' :: rest', sw, statPerProcessor)
  end.

(** [processLintResults]: the issues returned and the processors left. *)
Definition processLintResults (ps : list Processor) (inIssues : list Issue)
  : list Issue * list Processor :=
  let '(outIssues, ps, sw, statPerProcessor) :=
    if negb (length inIssues =? 0)%nat then processIssues ps inIssues [] ∅
    else ([], ps, [], ∅) in
  (outIssues, Finish <$> ps).

(** [Run]: the issues and the error returned, the runner left behind, and
    the stages the stopwatch of the linters tracked. *)
Definition Run (r : Runner) (linters : list Config)
  : (list Issue * option error) * Runner * Stopwatch :=
  let st :=
    foldl runStep
      {| sw := []; lintErrors := None; issues := []; ctx := Runner_lintCtx r |}
      linters in
  let '(outIssues, ps) := processLintResults (Processors r) (issues st) in
  ((outIssues, lintErrors st), {| Runner_lintCtx := ctx st; Processors := ps |}, sw st).

End Runner.

Section NewRunner.
Context `{!LintContext, !Stages, !gostrings.Unicode, !Filepath, !FileSystem, !Fsutils}.

Definition getExcludeProcessor (cfg : config.Issues) : Processor :=
  let pattern :=
    if negb (length (config.ExcludePatterns cfg) =? 0)%nat
    then "(" +:+ gostrings.Join (config.ExcludePatterns cfg) "|" +:+ ")"
    else "" in
  NewExclude {| rules.ExcludeOptions_Pattern := pattern;
                rules.ExcludeOptions_CaseSensitive := config.ExcludeCaseSensitive cfg |}.

Definition baseRule (r : config.BaseRule) : rules.BaseRule :=
  {| rules.Text := config.Rule_Text r;
     rules.Source := config.Rule_Source r;
     rules.Path := config.Rule_Path r;
     rules.PathExcept := config.Rule_PathExcept r;
     rules.Linters := config.Rule_Linters r |}.

Definition getExcludeRulesProcessor (cfg : config.Issues) : Processor :=
  let excludeRules :=
    (λ r, {| rules.ExcludeRule_BaseRule := baseRule (config.ExcludeRule_BaseRule r) |})
      <$> config.ExcludeRules cfg in
  let excludeRules :=
    if config.UseDefaultExcludes cfg then
      excludeRules ++
      ((λ r, {| rules.ExcludeRule_BaseRule :=
                  {| rules.Text := config.ExcludePattern_Pattern r;
                     rules.Source := ""; rules.Path := ""; rules.PathExcept := "";
                     rules.Linters := [config.ExcludePattern_Linter r] |} |})
         <$> GetExcludePatterns (config.IncludeDefaultExcludes cfg))
    else excludeRules in
  NewExcludeRules {| rules.ExcludeRulesOptions_Rules := excludeRules;
                     rules.ExcludeRulesOptions_CaseSensitive := config.ExcludeCaseSensitive cfg |}.

Definition getSeverityRulesProcessor (cfg : config.Severity) : Processor :=
  let severityRules :=
    (λ r, {| rules.SeverityRule_Severity := config.SeverityRule_Severity r;
             rules.SeverityRule_BaseRule := baseRule (config.SeverityRule_BaseRule r) |})
      <$> config.Rules cfg in
  NewSeverity {| rules.SeverityOptions_Default := config.Default cfg;
                 rules.SeverityOptions_Rules := severityRules;
                 rules.SeverityOptions_CaseSensitive := config.CaseSensitive cfg;
                 rules.SeverityOptions_Override := negb (config.KeepLinterSeverity cfg) |}.

(** The processors before, and after, the one that excludes generated
    files, in the order [NewRunner] lists them. *)
Definition stagesBefore (skipFilesProcessor : Processor) (skipDirsProcessor : SkipDirs)
  : list Processor :=
  [ NewCgo; NewFilenameUnadjuster; NewPathPrettifier; skipFilesProcessor;
    SkipDirs_Processor skipDirsProcessor ].

Definition stagesAfter (cfg : config.Config) (enabledLinters : gmap string linter.Config)
  : list Processor :=
  [ NewIdentifierMarker;
    getExcludeProcessor (config.Issues_ cfg);
    getExcludeRulesProcessor (config.Issues_ cfg);
    NewNolint enabledLinters;
    NewUniqByLine cfg;
    NewDiff (config.Issues_ cfg);
    NewMaxPerFileFromLinter cfg;
    NewMaxSameIssues cfg;
    NewMaxFromLinter cfg;
    NewSourceCode;
    NewPathShortener;
    getSeverityRulesProcessor (config.Severity_ cfg);
    NewFixer cfg;
    NewPathPrefixer (config.PathPrefix (config.Output_ cfg));
    NewSortResults cfg ].

(** [NewRunner]: the error it returns, or the [Processors] of the runner
    it returns (the struct literal sets [Processors] and [Log] only). *)
Definition NewRunner (cfg : config.Config) : error + list Processor :=
  match NewSkipFiles (config.SkipFiles (config.Run_ cfg)) (config.PathPrefix (config.Output_ cfg)) with
  | inl err => inl err
  | inr skipFilesProcessor =>
      let skipDirs := config.SkipDirs (config.Run_ cfg) in
      let skipDirs :=
        if config.UseDefaultSkipDirs (config.Run_ cfg)
        then skipDirs ++ StdExcludeDirRegexps else skipDirs in
      match NewSkipDirs skipDirs (config.Args (config.Run_ cfg))
              (config.PathPrefix (config.Output_ cfg)) with
      | inl err => inl err
      | inr skipDirsProcessor =>
          match GetEnabledLintersMap with
          | inl err => inl (fmtErrorf "failed to get enabled linters: %w" [] (Some err))
          | inr enabledLinters =>
              inr (stagesBefore skipFilesProcessor skipDirsProcessor
                   ++ [AutogeneratedExclude_Processor NewAutogeneratedExclude]
                   ++ stagesAfter cfg enabledLinters)
          end
      end
  end.

End NewRunner.
End lint.

(** ** Package [golinters]: the analyzers of [govet] *)
Module govet.

(** The analyzers [govet.go] imports from
    [golang.org/x/tools/go/analysis/passes]: the package-level variables
    [asmdecl.Analyzer], [assign.Analyzer] and so on.  Each is a pointer to
    an [analysis.Analyzer]; two of them are equal when they are the same
    variable. *)
Inductive analysis_Analyzer :=
| asmdecl_Analyzer | assign_Analyzer | atomic_Analyzer | atomicalign_Analyzer
| bools_Analyzer | buildtag_Analyzer | cgocall_Analyzer | composite_Analyzer
| copylock_Analyzer | errorsas_Analyzer | httpresponse_Analyzer
| loopclosure_Analyzer | lostcancel_Analyzer | nilfunc_Analyzer | printf_Analyzer
| shadow_Analyzer | shift_Analyzer | stdmethods_Analyzer | structtag_Analyzer
| tests_Analyzer | unmarshal_Analyzer | unreachable_Analyzer | unsafeptr_Analyzer
| unusedresult_Analyzer.

#[global] Instance analysis_Analyzer_eq_dec : EqDecision analysis_Analyzer.
Proof. solve_decision. Defined.

(** The field [Name] of the analyzers, which their packages set. *)
Class AnalysisPasses := {
  analysis_Name : analysis_Analyzer → string;
}.

(** The declaration of [config.GovetSettings] is not among the sources; it
    is given with the fields [govet.go] reads, apart from the settings of
    the single analyzers, which [NewGovet] hands on as they are. *)
Record GovetSettings := {
  CheckShadowing : bool;
  Enable : list string;
  EnableAll : bool;
  Disable : list string;
  DisableAll : bool;
}.

Definition getAllAnalyzers : list analysis_Analyzer :=
  [ asmdecl_Analyzer; assign_Analyzer; atomic_Analyzer; atomicalign_Analyzer;
    bools_Analyzer; buildtag_Analyzer; cgocall_Analyzer; composite_Analyzer;
    copylock_Analyzer; errorsas_Analyzer; httpresponse_Analyzer;
    loopclosure_Analyzer; lostcancel_Analyzer; nilfunc_Analyzer; printf_Analyzer;
    shadow_Analyzer; shift_Analyzer; stdmethods_Analyzer; structtag_Analyzer;
    tests_Analyzer; unmarshal_Analyzer; unreachable_Analyzer; unsafeptr_Analyzer;
    unusedresult_Analyzer ].

Definition getDefaultAnalyzers : list analysis_Analyzer :=
  [ asmdecl_Analyzer; assign_Analyzer; atomic_Analyzer;
    bools_Analyzer; buildtag_Analyzer; cgocall_Analyzer; composite_Analyzer;
    copylock_Analyzer; errorsas_Analyzer; httpresponse_Analyzer;
    loopclosure_Analyzer; lostcancel_Analyzer; nilfunc_Analyzer; printf_Analyzer;
    shift_Analyzer; stdmethods_Analyzer; structtag_Analyzer;
    tests_Analyzer; unmarshal_Analyzer; unreachable_Analyzer; unsafeptr_Analyzer;
    unusedresult_Analyzer ].

Section WithPasses.
Context `{!AnalysisPasses}.

(** [isAnalyzerEnabled]: the four tests in the order of the source.  Both
    the loop over [cfg.Enable] and the loop over [cfg.Disable] return
    [true] on a match. *)
Definition isAnalyzerEnabled (name : string) (cfg : GovetSettings)
    (defaultAnalyzers : list analysis_Analyzer) : bool :=
  if EnableAll cfg then true
  else if existsb (λ n, bool_decide (n = name)) (Enable cfg) then true
  else if existsb (λ n, bool_decide (n = name)) (Disable cfg) then true
  else if DisableAll cfg then false
  else existsb (λ a, bool_decide (analysis_Name a = name)) defaultAnalyzers.

(** [cfg.Enable = append(cfg.Enable, shadow.Analyzer.Name)] *)
Definition enableShadow (cfg : GovetSettings) : GovetSettings :=
  {| CheckShadowing := CheckShadowing cfg;
     Enable := Enable cfg ++ [analysis_Name shadow_Analyzer];
     EnableAll := EnableAll cfg;
     Disable := Disable cfg;
     DisableAll := DisableAll cfg |}.

(** [analyzersFromConfig]: the analyzers it returns and the settings it
    leaves behind the pointer [cfg]; a nil pointer is [None]. *)
Definition analyzersFromConfig (cfg : option GovetSettings)
  : list analysis_Analyzer * option GovetSettings :=
  match cfg with
  | None => (getDefaultAnalyzers, None)
  | Some cfg =>
      let cfg := if CheckShadowing cfg then enableShadow cfg else cfg in
      let defaultAnalyzers := getDefaultAnalyzers in
      (filter (λ a, isAnalyzerEnabled (analysis_Name a) cfg defaultAnalyzers) getAllAnalyzers,
       Some cfg)
  end.

End WithPasses.
End govet.

(** ** Package [commands]: the arguments of the root command *)
Module commands.

(** [pflag.Flag], the two fields the code below sets and reads.  A
    [pflag.FlagSet] is given by its flags in the order [VisitAll] visits
    them. *)
Record Flag := {
  Flag_Name : string;
  Shorthand : string;
}.

Definition FlagSet := list Flag.

(** [string(b)] for a byte [b]: the UTF-8 encoding of the code point [b],
    one byte below 128 and two bytes from 128 on. *)
Definition stringOfByte (b : ascii) : string :=
  let n := N_of_ascii b in
  if (n <? 128)%N then String b ""
  else String (ascii_of_N (192 + n / 64)) (String (ascii_of_N (128 + n mod 64)) "").

(** The test of the loop of [safeArgs]:
    [len(arg) > 1 && arg[0] == '-' && arg[1] != '-' &&
     !slices.Contains(shorthands, string(arg[1]))] *)
Definition unsupportedShorthand (shorthands : list string) (arg : string) : bool :=
  match arg with
  | String a0 (String a1 _) =>
      bool_decide (a0 = "-"%char) && negb (bool_decide (a1 = "-"%char))
      && negb (bool_decide (stringOfByte a1 ∈ shorthands))
  | _ => false
  end.

Definition safeArgs (fs : FlagSet) (args : list string) : list string :=
  let shorthands := foldl (λ shorthands flag, shorthands ++ [Shorthand flag]) [] fs in
  foldl (λ cleanArgs arg,
           if unsupportedShorthand shorthands arg then cleanArgs ++ ["--potato"]
           else cleanArgs ++ [arg])
        [] args.

End commands.

(** ** Package [commands/internal]: the configuration of a custom build *)
Module internal.

Definition defaultBinaryName : string := "gcl-custom".

(** [Plugin].  The fields [Module] and [Import] are called [Module_] and
    [Import_] here. *)
Record Plugin := {
  Module_ : string;
  Import_ : string;
  Plugin_Version : string;
  Plugin_Path : string;
}.

(** [Configuration.Plugins] holds pointers to plugins.  A pointer is a
    location, a number, of a heap of plugins, a [gmap nat Plugin]; a
    location the heap does not hold stands for the nil pointer. *)

Record Configuration := {
  Version : string;
  Name : string;
  Destination : string;
  Plugins : list nat;
}.

(** How a call of [Validate] ends: it returns, [log.Fatal] ends the
    process, or the dereference of a nil pointer panics. *)
Inductive outcome :=
| Returns (err : option error)
| Fatal (err : error)
| NilDereference.

Section WithEnvironment.
Context `{!gostrings.Unicode, !Filepath}.

(** [strings.TrimSpace(s) == ""] *)
Definition blank (s : string) : bool := bool_decide (gostrings.TrimSpace s = "").

(** [c.Name = defaultBinaryName] *)
Definition setName (c : Configuration) (name : string) : Configuration :=
  {| Version := Version c; Name := name; Destination := Destination c;
     Plugins := Plugins c |}.

(** [plugin.Import = v] and [plugin.Path = v] *)
Definition setImport (plugin : Plugin) (v : string) : Plugin :=
  {| Module_ := Module_ plugin; Import_ := v;
     Plugin_Version := Plugin_Version plugin; Plugin_Path := Plugin_Path plugin |}.

Definition setPath (plugin : Plugin) (v : string) : Plugin :=
  {| Module_ := Module_ plugin; Import_ := Import_ plugin;
     Plugin_Version := Plugin_Version plugin; Plugin_Path := v |}.

(** The loop of [Validate] over [c.Plugins], with the heap it leaves. *)
Fixpoint validatePlugins (plugins : list nat) (h : gmap nat Plugin)
  : outcome * gmap nat Plugin :=
  match plugins with
  | [] => (Returns None, h)
  | l :: rest =>
      match h !! l with
      | None => (NilDereference, h)
      | Some plugin =>
          if blank (Module_ plugin) then
            (Returns (Some (errorsNew "field 'module' is required")), h)
          else
            let plugin :=
              if blank (Import_ plugin) then setImport plugin (Module_ plugin) else plugin in
            let h := <[l := plugin]> h in
            if blank (Plugin_Path plugin) && blank (Plugin_Version plugin) then
              (Returns (Some (errorsNew
                 "missing information: 'version' or 'path' should be provided")), h)
            else if negb (blank (Plugin_Path plugin)) && negb (blank (Plugin_Version plugin)) then
              (Returns (Some (errorsNew
                 "invalid configuration: 'version' and 'path' should not be provided at the same time")),
               h)
            else if blank (Plugin_Path plugin) then validatePlugins rest h
            else
              match filepath_Abs (Plugin_Path plugin) with
              | inl err => (Fatal err, h)
              | inr abs => validatePlugins rest (<[l := setPath plugin abs]> h)
              end
      end
  end.

(** [Validate]: how the call ends, and the configuration and the heap it
    leaves. *)
Definition Validate (c : Configuration) (h : gmap nat Plugin)
  : outcome * Configuration * gmap nat Plugin :=
  if blank (Version c) then
    (Returns (Some (errorsNew "root field 'version' is required")), c, h)
  else
    let c := if blank (Name c) then setName c defaultBinaryName else c in
    if (length (Plugins c) =? 0)%nat then
      (Returns (Some (errorsNew "no plugins defined")), c, h)
    else
      let '(o, h) := validatePlugins (Plugins c) h in
      (o, c, h).

End WithEnvironment.
End internal.

(** ** Go's standard library: [unicode/utf8] and [bytes] *)
Module utf8.

(** The table [first]: for the first byte of a sequence, the entry [as]
    (ASCII), [xx] (invalid) or the size of the sequence in the low three
    bits and the index of the range of its second byte in the high four. *)
Definition xx : N := 241.
Definition as_ : N := 240.

Definition first (c : N) : N :=
  if (c <? 128)%N then as_
  else if (c <? 194)%N then xx
  else if (c <? 224)%N then 2
  else if (c =? 224)%N then 19
  else if (c <? 237)%N then 3
  else if (c =? 237)%N then 35
  else if (c <? 240)%N then 3
  else if (c =? 240)%N then 52
  else if (c <? 244)%N then 4
  else if (c =? 244)%N then 68
  else xx.

Definition locb : N := 128.
Definition hicb : N := 191.

(** The table [acceptRanges]. *)
Definition acceptRanges (i : N) : N * N :=
  match i with
  | 0 => (locb, hicb)
  | 1 => (160, hicb)
  | 2 => (locb, 159)
  | 3 => (144, hicb)
  | 4 => (locb, 143)
  | _ => (0, 0)
  end%N.

Definition outside (lo hi : N) (c : ascii) : bool :=
  let n := N_of_ascii c in (n <? lo)%N || (hi <? n)%N.

(** One round of the loop of [RuneCount]: the number of bytes the round
    advances by, given the byte [c = p[i]] and the bytes after it. *)
Definition advance (c : ascii) (rest : string) : nat :=
  let n := N_of_ascii c in
  if (n <? 128)%N then 1
  else
    let x := first n in
    if (x =? xx)%N then 1
    else
      let size := N.to_nat (N.land x 7) in
      if (String.length rest + 1 <? size)%nat then 1
      else
        let accept := acceptRanges (N.shiftr x 4) in
        match rest with
        | String c1 rest1 =>
            if outside accept.1 accept.2 c1 then 1
            else if (size =? 2)%nat then 2
            else
              match rest1 with
              | String c2 rest2 =>
                  if outside locb hicb c2 then 1
                  else if (size =? 3)%nat then 3
                  else
                    match rest2 with
                    | String c3 _ => if outside locb hicb c3 then 1 else size
                    | EmptyString => 1
                    end
              | EmptyString => 1
              end
        | EmptyString => 1
        end.

(** The loop of [RuneCount] over the bytes from [p[i]] on, of which the
    first [skip] belong to the rune counted last. *)
Fixpoint countFrom (skip : nat) (p : string) : nat :=
  match p with
  | EmptyString => 0
  | String c rest =>
      match skip with
      | S skip' => countFrom skip' rest
      | O => S (countFrom (advance c rest - 1) rest)
      end
  end.

(** [utf8.RuneCount(p)] *)
Definition RuneCount (p : string) : nat := countFrom 0 p.

End utf8.

Module bytes.

(** [bytes.ReplaceAll(s, []byte{old}, new)] *)
Fixpoint ReplaceAll (s : string) (old : ascii) (new : string) : string :=
  match s with
  | EmptyString => EmptyString
  | String c s' =>
      if bool_decide (c = old) then new +:+ ReplaceAll s' old new
      else String c (ReplaceAll s' old new)
  end.

End bytes.

(** ** Package [lll]: the linter of long lines *)
Module lll.
Import result.

Definition linterName : string := "lll".

Definition goCommentDirectivePrefix : string := "//go:".

(** [bufio.MaxScanTokenSize] *)
Definition MaxScanTokenSize : N := 64 * 1024.

Definition tab : ascii := ascii_of_N 9.

(** [fmt.Sprintf] with the verb [%d] *)
Definition itoa (n : Z) : string := NilZero.string_of_int (Z.to_int n).

Section WithFiles.
Context `{!FileSystem}.

(** The variables the scanning loop of [getLLLIssuesForFile] updates. *)
Record scanState := {
  lineNumber : Z;
  multiImportEnabled : bool;
  res : list Issue;
}.

(** The issue for a line that is too long. *)
Definition longLine (filename : string) (lineNumber lineLen maxLineLen : Z) : Issue :=
  {| FromLinter := linterName;
     Text := "the line is " +:+ itoa lineLen
             +:+ " characters long, which exceeds the maximum of " +:+ itoa maxLineLen
             +:+ " characters.";
     Severity := "";
     Pos := {| Filename := filename; Line := lineNumber; Column := 0 |} |}.

(** The issue for a line the scanner gives up on. *)
Definition overlongLine (filename : string) (lineNumber : Z) : Issue :=
  {| FromLinter := linterName;
     Text := "line is more than " +:+ itoa (Z.of_N MaxScanTokenSize) +:+ " characters";
     Severity := "";
     Pos := {| Filename := filename; Line := lineNumber; Column := 1 |} |}.

(** The body of the loop, with the increment of [lineNumber] that ends
    every round. *)
Definition scanLine (filename : string) (maxLineLen : Z) (tabSpaces : string)
    (st : scanState) (line : string) : scanState :=
  if gostrings.HasPrefix line goCommentDirectivePrefix then
    {| lineNumber := lineNumber st + 1;
       multiImportEnabled := multiImportEnabled st; res := res st |}
  else if gostrings.HasPrefix line "import" then
    {| lineNumber := lineNumber st + 1;
       multiImportEnabled := gostrings.HasSuffix line "("; res := res st |}
  else if multiImportEnabled st then
    {| lineNumber := lineNumber st + 1;
       multiImportEnabled := if bool_decide (line = ")") then false else true;
       res := res st |}
  else
    let line := bytes.ReplaceAll line tab tabSpaces in
    let lineLen := Z.of_nat (utf8.RuneCount line) in
    {| lineNumber := lineNumber st + 1;
       multiImportEnabled := multiImportEnabled st;
       res := if (maxLineLen <? lineLen)%Z
              then res st ++ [longLine filename (lineNumber st) lineLen maxLineLen]
              else res st |}.

(** The loop over the lines still to be scanned, with [scanner.Err()]: a
    scanner with the default buffer gives up on a run of
    [MaxScanTokenSize] bytes or more.  The file is one that is read to its
    end without error, so this is the only error of the scanner. *)
Fixpoint scanLines (filename : string) (maxLineLen : Z) (tabSpaces : string)
    (raws : list string) (st : scanState) : scanState * option error :=
  match raws with
  | [] => (st, None)
  | raw :: rest =>
      if bufio.tooLong MaxScanTokenSize raw then (st, Some bufio.ErrTooLong)
      else scanLines filename maxLineLen tabSpaces rest
             (scanLine filename maxLineLen tabSpaces st (bufio.dropCR raw))
  end.

(** [getLLLIssuesForFile].  Go's [int] is taken as unbounded: a line
    number does not reach 2^63. *)
Definition getLLLIssuesForFile (filename : string) (maxLineLen : Z) (tabSpaces : string)
  : error + list Issue :=
  match os_Open filename with
  | inl err => inl (fmtErrorf "can't open file %s: %w" [filename] (Some err))
  | inr f =>
      let '(st, err) :=
        scanLines filename maxLineLen tabSpaces (bufio.rawLines f)
          {| lineNumber := 1; multiImportEnabled := false; res := [] |} in
      match err with
      | Some err =>
          if errorsIs err bufio.ErrTooLong && (maxLineLen <? Z.of_N MaxScanTokenSize)%Z then
            inr (res st ++ [overlongLine filename (lineNumber st)])
          else inl (fmtErrorf "can't scan file %s: %w" [filename] (Some err))
      | None => inr (res st)
      end
  end.

End WithFiles.
End lll.

(** ** Concrete environments and data

    Instances of the environment classes and small concrete inputs, on
    which the definitions above are evaluated in the examples below. *)
Module examples.
Import result linter.

(** An analysis context without content. *)
Definition unitContext : LintContext :=
  {| lintCtx := unit; ClearTypesInPackages := λ c, c |}.

Section WithUnitContext.
#[local] Existing Instance unitContext.

(** A linter that returns the given issues. *)
Definition returning (name : string) (issues : list Issue) : Linter :=
  {| Linter_Name := name; Linter_Desc := "";
     Linter_Run := λ c, (Returns issues None, c);
     goanalysisLoadMode := None |}.

(** A linter that panics. *)
Definition panicking (name : string) (panicData : string) : Linter :=
  {| Linter_Name := name; Linter_Desc := "";
     Linter_Run := λ c, (Panics panicData, c);
     goanalysisLoadMode := None |}.

Definition noGoAnalysis : GoAnalysis :=
  {| Analyzer := unit;
     goanalysis_NewLinter := λ name desc _, returning name [];
     goanalysis_NewMetaLinter := λ _, returning "goanalysis_metalinter" [];
     WithLoadForGoAnalysis := λ lc, lc |}.

#[local] Existing Instance noGoAnalysis.

(** No plugin can be opened. *)
Definition noPlugins : PluginLoader :=
  {| plugin_Open := λ _, inl (errorsNew "plugin: not implemented") |}.

(** Three tasks: [govet] is fast and enabled by default; [unused] is slow
    and also answers to the name [megacheck]; [gosec] is fast. *)
Definition govet : Config :=
  {| Linter_ := returning "govet" []; EnabledByDefault := true;
     InPresets := ["bugs"]; AlternativeNames := ["vet"]; OriginalURL := "";
     IsSlow := false; DoesChangeTypes := false; Deprecation_ := None |}.

Definition unused : Config :=
  {| Linter_ := returning "unused" []; EnabledByDefault := true;
     InPresets := ["unused"]; AlternativeNames := ["megacheck"]; OriginalURL := "";
     IsSlow := true; DoesChangeTypes := true; Deprecation_ := None |}.

Definition gosec : Config :=
  {| Linter_ := returning "gosec" []; EnabledByDefault := false;
     InPresets := ["bugs"]; AlternativeNames := []; OriginalURL := "";
     IsSlow := false; DoesChangeTypes := false; Deprecation_ := None |}.

#[local] Existing Instance noPlugins.
Import config lintersdb.

(** The registry of the three tasks, with the presets [bugs] and [unused]. *)
Definition registry : Manager := registryManager [govet; unused; gosec] ["bugs"; "unused"].

(** A configuration that only has a linters section. *)
Definition configOf (l : Linters) : config.Config :=
  {| Run_ := {| SkipFiles := []; SkipDirs := []; UseDefaultSkipDirs := false; Args := [] |};
     Output_ := {| PathPrefix := "" |};
     Linters_ := l;
     Custom := [];
     Issues_ := {| IncludeDefaultExcludes := []; ExcludeCaseSensitive := false;
                   ExcludePatterns := []; ExcludeRules := []; UseDefaultExcludes := false |};
     Severity_ := {| Default := ""; CaseSensitive := false; Rules := [];
                     KeepLinterSeverity := false |} |}.

Definition enabledSetOf (l : Linters) : EnabledSet :=
  {| EnabledSet_m := registry; EnabledSet_v := {| Validator_m := registry |};
     EnabledSet_cfg := configOf l |}.

(** [--fast --enable unused --disable megacheck] *)
Definition fastEnableDisable : Linters :=
  {| Enable := ["unused"]; Disable := ["megacheck"]; Anduril := false;
     EnableAll := false; DisableAll := false; Fast := true; Presets := [] |}.

(** [--fast --enable unused] *)
Definition fastEnable : Linters :=
  {| Enable := ["unused"]; Disable := []; Anduril := false;
     EnableAll := false; DisableAll := false; Fast := true; Presets := [] |}.



End WithUnitContext.

(** Text without non-ASCII bytes never reaches the Unicode tables.  To
    evaluate the string functions on such text, an instance that trims
    nothing and lowers the ASCII letters serves. *)
Definition asciiOnly : gostrings.Unicode.
Proof.
  refine {| gostrings.TrimFunc_IsSpace := λ s, s;
            gostrings.TrimRightFunc_IsSpace := λ s, s;
            gostrings.Map_ToLower := gostrings.mapLower |}.
  - intros s. exists "", "". split; [|done]. change (s = s +:+ "").
    induction s as [|c s IH]; [done|].
    change (String c s = String c (s +:+ "")). by rewrite <- IH.
  - intros s. exists "". split; [|done].
    induction s as [|c s IH]; [done|].
    change (String c s = String c (s +:+ "")). by rewrite <- IH.
  - done.
Defined.

Definition asciiOnlyRunes : @gostrings.UnicodeRunes asciiOnly.
Proof.
  assert (∀ s, s = s +:+ "") as Hnil.
  { intros s. induction s as [|c s IH]; [done|].
    change (String c s = String c (s +:+ "")). by rewrite <- IH. }
  split; simpl.
  - done.
  - intros s c s' _. induction s as [|d s IH]; [done|].
    change (gostrings.mapLower (String d (s +:+ String c s'))
            = String (gostrings.lowerASCII d)
                (gostrings.mapLower s
                 +:+ String (gostrings.lowerASCII c) (gostrings.mapLower s'))).
    simpl. by rewrite IH.
  - intros s. exists "", "". apply Hnil.
  - intros s. exists "". apply Hnil.
Qed.

(** The last element of a slash-separated relative path without [.] and
    [..] elements, its directory, and its absolute form below [/work]. *)
Fixpoint lastElem (p : string) : string :=
  match p with
  | "" => ""
  | String c p' =>
      if gostrings.Contains p' "/" then lastElem p'
      else if bool_decide (c = "/"%char) then p' else p
  end.

Fixpoint dirOf (p : string) : string :=
  match p with
  | "" => ""
  | String c p' => if gostrings.Contains p "/" then
                     if gostrings.Contains p' "/" then String c (dirOf p') else ""
                   else ""
  end.

Definition simplePaths : Filepath :=
  {| filepath_Base := λ p, if bool_decide (p = "") then "." else lastElem p;
     filepath_Dir := λ p, if gostrings.Contains p "/" then dirOf p else ".";
     filepath_IsAbs := λ p, gostrings.HasPrefix p "/";
     filepath_Abs := λ p,
       if gostrings.HasPrefix p "/" then inr p
       else if bool_decide (p = ".") then inr "/work"
       else inr ("/work/" +:+ p) |}.

(** Every pattern is a literal: it matches the paths that contain it. *)
Definition literalPatterns : Fsutils :=
  {| NormalizePathInRegex := λ p, p;
     WithPathPrefix := λ prefix p, if bool_decide (prefix = "") then p else prefix +:+ "/" +:+ p;
     goFileExtension := ".go";
     regexp_Compile := λ p,
       inr {| Regexp_String := p; MatchString := λ s, gostrings.Contains s p |} |}.

(** Lines joined into the bytes of a file, each ended by a newline. *)
Definition fileOf (lines : list string) : string :=
  foldr (λ l acc, l +:+ String bufio.newline acc) "" lines.

(** A project of four files.  [zz_generated.go] starts with a marker
    comment; [late.go] has the marker after its first declaration;
    [pkgline.go] has it on the line of the package clause; [cased.go] has
    it in mixed case. *)
Definition projectFiles : FileSystem :=
  {| os_Open := λ path,
       if bool_decide (path = "zz_generated.go") then
         inr (fileOf ["// Code generated by tool; DO NOT EDIT."; "package zz"; "";
                      "func F() {}"; "var x = 1"])
       else if bool_decide (path = "late.go") then
         inr (fileOf ["// Package late."; "package late"; ""; "func G() {}";
                      "// DO NOT EDIT"])
       else if bool_decide (path = "pkgline.go") then
         inr (fileOf ["package main // Code generated by tool; DO NOT EDIT.";
                      "func main() {}"])
       else if bool_decide (path = "cased.go") then
         inr (fileOf ["  // dO nOt EdIt  "; "package cased"])
       else inl (errorsNew "open: no such file or directory") |}.

Definition issueAt (linter path : string) (line : Z) : Issue :=
  {| FromLinter := linter; Text := "finding"; Severity := "";
     Pos := {| Filename := path; Line := line; Column := 1 |} |}.

Section Runs.
Import config.
#[local] Existing Instance unitContext.

(** Three tasks: [A] faults, [B] returns an issue without source, [C]
    returns an issue that names its source. *)
Definition taskA : linter.Config := NewConfig (panicking "A" "boom").
Definition taskB : linter.Config := NewConfig (returning "B" [issueAt "" "b.go" 3]).
Definition taskC : linter.Config := NewConfig (returning "C" [issueAt "custom" "c.go" 7]).

(** A task whose name is empty. *)
Definition nameless : linter.Config := NewConfig (returning "" [issueAt "" "n.go" 1]).

(** A runner without stages. *)
Definition bareRunner : lint.Runner :=
  {| lint.Runner_lintCtx := tt; lint.Processors := [] |}.

(** A stage that returns the issues it gets. *)
Definition identityStage (name : string) : processors.Processor :=
  {| processors.Processor_state := unit;
     processors.Processor_this := tt;
     processors.Processor_Name := name;
     processors.Processor_Process := λ this issues, ((issues, None), this);
     processors.Processor_Finish := λ this, this |}.

(** Every stage that is not among the sources returns the issues it gets. *)
Definition passThrough : Stages :=
  {| NewCgo := identityStage "cgo";
     NewFilenameUnadjuster := identityStage "filename_unadjuster";
     NewPathPrettifier := identityStage "path_prettifier";
     NewSkipFiles := λ _ _, inr (identityStage "skip_files");
     NewIdentifierMarker := identityStage "identifier_marker";
     NewExclude := λ _, identityStage "exclude";
     NewExcludeRules := λ _, identityStage "exclude-rules";
     NewNolint := λ _, identityStage "nolint";
     NewUniqByLine := λ _, identityStage "uniq_by_line";
     NewDiff := λ _, identityStage "diff";
     NewMaxPerFileFromLinter := λ _, identityStage "max_per_file_from_linter";
     NewMaxSameIssues := λ _, identityStage "max_same_issues";
     NewMaxFromLinter := λ _, identityStage "max_from_linter";
     NewSourceCode := identityStage "source_code";
     NewPathShortener := identityStage "path_shortener";
     NewSeverity := λ _, identityStage "severity-rules";
     NewFixer := λ _, identityStage "fixer";
     NewPathPrefixer := λ _, identityStage "path_prefixer";
     NewSortResults := λ _, identityStage "sort_results";
     GetExcludePatterns := λ _, [];
     StdExcludeDirRegexps := [];
     GetEnabledLintersMap := inr ∅ |}.

(** A configuration whose rules ask for the issues of [zz_generated.go]:
    the default exclusion [EXC0001] is included again, and the one exclude
    rule spares the path. *)
Definition includingConfig : config.Config :=
  {| Run_ := {| SkipFiles := []; SkipDirs := []; UseDefaultSkipDirs := false; Args := [] |};
     Output_ := {| PathPrefix := "" |};
     Linters_ := fastEnable;
     Custom := [];
     Issues_ :=
       {| IncludeDefaultExcludes := ["EXC0001"]; ExcludeCaseSensitive := false;
          ExcludePatterns := [];
          ExcludeRules :=
            [{| ExcludeRule_BaseRule :=
                  {| Rule_Linters := ["golint"]; Rule_Path := "";
                     Rule_PathExcept := "zz_generated"; Rule_Text := "";
                     Rule_Source := "" |} |}];
          UseDefaultExcludes := true |};
     Severity_ := {| Default := ""; CaseSensitive := false; Rules := [];
                     KeepLinterSeverity := false |} |}.

End Runs.

Section Pipelines.
#[local] Existing Instance unitContext.
#[local] Existing Instance passThrough.
#[local] Existing Instance asciiOnly.
#[local] Existing Instance simplePaths.
#[local] Existing Instance projectFiles.
#[local] Existing Instance literalPatterns.

(** The processors [NewRunner] installs for [includingConfig]. *)
Definition includingPipeline : list processors.Processor :=
  match lint.NewRunner includingConfig with
  | inr ps => ps
  | inl _ => []
  end.

(** The processor for the pattern [vendor] and the analysis argument
    [vendor/lib/...]. *)
Definition vendorSkipDirs : processors.SkipDirs :=
  match processors.NewSkipDirs ["vendor"] ["vendor/lib/..."] "" with
  | inr p => p
  | inl _ =>
      {| processors.patterns := []; processors.skippedDirs := ∅;
         processors.absArgsDirs := []; processors.skippedDirsCache := ∅;
         processors.pathPrefix := "" |}
  end.

End Pipelines.

(** *** Further data for the resolver *)
Section CustomLinters.
Import config lintersdb.
#[local] Existing Instance unitContext.
#[local] Existing Instance noGoAnalysis.

(** One plugin can be opened, [plugins/mine.so]; it provides the linter
    [mine]. *)
Definition onePlugin : PluginLoader :=
  {| plugin_Open := λ path,
       if bool_decide (path = "plugins/mine.so") then
         inr {| plugin.Lookup := λ symbol,
                  if bool_decide (symbol = "AnalyzerPlugin") then
                    inr (Some {| plugin.GetLinterName := "mine";
                                 plugin.GetLinterDesc := "a linter of our own";
                                 plugin.GetAnalyzers := [] |})
                  else inl (errorsNew "plugin: symbol not found") |}
       else inl (errorsNew "plugin.Open: no such file") |}.

#[local] Existing Instance onePlugin.

(** [--fast --disable mine], with two custom linters in the settings: one
    is slow and its plugin loads, the plugin of the other is missing. *)
Definition customSet : EnabledSet :=
  {| EnabledSet_m := registry;
     EnabledSet_v := {| Validator_m := registry |};
     EnabledSet_cfg :=
       {| Run_ := {| SkipFiles := []; SkipDirs := []; UseDefaultSkipDirs := false;
                     Args := [] |};
          Output_ := {| PathPrefix := "" |};
          Linters_ := {| Enable := []; Disable := ["mine"]; Anduril := false;
                         EnableAll := false; DisableAll := false; Fast := true;
                         Presets := [] |};
          Custom :=
            [("ours", {| Path := "plugins/mine.so"; Enabled := true; Slow := true;
                         OriginalUrl := "https://example.org/mine" |});
             ("theirs", {| Path := "plugins/gone.so"; Enabled := true; Slow := false;
                           OriginalUrl := "" |})];
          Issues_ := {| IncludeDefaultExcludes := []; ExcludeCaseSensitive := false;
                        ExcludePatterns := []; ExcludeRules := [];
                        UseDefaultExcludes := false |};
          Severity_ := {| Default := ""; CaseSensitive := false; Rules := [];
                          KeepLinterSeverity := false |} |} |}.

End CustomLinters.

Section MoreLinters.
Import config lintersdb.
#[local] Existing Instance unitContext.
#[local] Existing Instance noGoAnalysis.
#[local] Existing Instance noPlugins.

(** [--enable nope --enable govet --disable missing] *)
Definition twoUnknown : Linters :=
  {| Enable := ["nope"; "govet"]; Disable := ["missing"]; Anduril := false;
     EnableAll := false; DisableAll := false; Fast := false; Presets := [] |}.

(** A linter of package [goanalysis] with the given load mode. *)
Definition analysing (name : string) (mode : LoadMode) (presets : list string) : linter.Config :=
  {| Linter_ := {| Linter_Name := name; Linter_Desc := "";
                   Linter_Run := λ c, (Returns [] None, c);
                   goanalysisLoadMode := Some mode |};
     EnabledByDefault := true; InPresets := presets; AlternativeNames := [];
     OriginalURL := ""; IsSlow := false; DoesChangeTypes := false;
     Deprecation_ := None |}.

(** A resolved map of four linters: two that can be combined, one that
    loads the whole program, and one that is not of package
    [goanalysis]. *)
Definition fourLinters : gmap string linter.Config :=
  {[ "errcheck" := analysing "errcheck" LoadModeTypesInfo ["bugs"];
     "gofmt" := analysing "gofmt" LoadModeSyntax ["format"];
     "unparam" := analysing "unparam" LoadModeWholeProgram ["unused"];
     "gosec" := gosec ]}.

(** A runner with one stage. *)
Definition oneStageRunner : lint.Runner :=
  {| lint.Runner_lintCtx := tt; lint.Processors := [identityStage "only"] |}.

End MoreLinters.

(** No file can be opened. *)
Definition noFiles : FileSystem :=
  {| os_Open := λ _, inl (errorsNew "open: no such file or directory") |}.

(** The flags [setupRootPersistentFlags] defines, [--verbose] with the
    shorthand [-v] and [--color] without one, as [VisitAll] visits
    them. *)
Definition rootPersistentFlags : commands.FlagSet :=
  [ {| commands.Flag_Name := "color"; commands.Shorthand := "" |};
    {| commands.Flag_Name := "verbose"; commands.Shorthand := "v" |} ].

(** The names of the analyzers of [govet]: the names of their packages,
    but [composites] and [copylocks]. *)
Definition passNames : govet.AnalysisPasses :=
  {| govet.analysis_Name := λ a,
       match a with
       | govet.asmdecl_Analyzer => "asmdecl"
       | govet.assign_Analyzer => "assign"
       | govet.atomic_Analyzer => "atomic"
       | govet.atomicalign_Analyzer => "atomicalign"
       | govet.bools_Analyzer => "bools"
       | govet.buildtag_Analyzer => "buildtag"
       | govet.cgocall_Analyzer => "cgocall"
       | govet.composite_Analyzer => "composites"
       | govet.copylock_Analyzer => "copylocks"
       | govet.errorsas_Analyzer => "errorsas"
       | govet.httpresponse_Analyzer => "httpresponse"
       | govet.loopclosure_Analyzer => "loopclosure"
       | govet.lostcancel_Analyzer => "lostcancel"
       | govet.nilfunc_Analyzer => "nilfunc"
       | govet.printf_Analyzer => "printf"
       | govet.shadow_Analyzer => "shadow"
       | govet.shift_Analyzer => "shift"
       | govet.stdmethods_Analyzer => "stdmethods"
       | govet.structtag_Analyzer => "structtag"
       | govet.tests_Analyzer => "tests"
       | govet.unmarshal_Analyzer => "unmarshal"
       | govet.unreachable_Analyzer => "unreachable"
       | govet.unsafeptr_Analyzer => "unsafeptr"
       | govet.unusedresult_Analyzer => "unusedresult"
       end |}.

(** Settings that ask for nothing but the analyzers [shadow], by
    [CheckShadowing], and [printf], through the disable list. *)
Definition shadowOnly : govet.GovetSettings :=
  {| govet.CheckShadowing := true; govet.Enable := []; govet.EnableAll := false;
     govet.Disable := ["printf"]; govet.DisableAll := true |}.

(** The configuration of a custom build with two plugins, one from a proxy
    and one from a local path, and without a name. *)
Definition twoPlugins : gmap nat internal.Plugin :=
  {[ 0 := {| internal.Module_ := "example.org/proxied"; internal.Import_ := "";
             internal.Plugin_Version := "v1.2.0"; internal.Plugin_Path := "" |};
     1 := {| internal.Module_ := "example.org/local"; internal.Import_ := "example.org/local/lint";
             internal.Plugin_Version := ""; internal.Plugin_Path := "plugins/local" |} ]}.

Definition customBuild : internal.Configuration :=
  {| internal.Version := "v1.59.0"; internal.Name := "  ";
     internal.Destination := ""; internal.Plugins := [0; 1] |}.

(** The same with a third plugin that is nil. *)
Definition customBuildNil : internal.Configuration :=
  {| internal.Version := "v1.59.0"; internal.Name := "gcl";
     internal.Destination := ""; internal.Plugins := [0; 1; 2] |}.

Section MorePipelines.
#[local] Existing Instance simplePaths.
#[local] Existing Instance literalPatterns.


(** The processor without patterns. *)
Definition noSkipDirs : processors.SkipDirs :=
  match processors.NewSkipDirs [] [] "" with
  | inr p => p
  | inl _ =>
      {| processors.patterns := []; processors.skippedDirs := ∅;
         processors.absArgsDirs := []; processors.skippedDirsCache := ∅;
         processors.pathPrefix := "" |}
  end.

End MorePipelines.

End examples.

(** * Properties

    ** Vocabulary

    The notions the statements below are written in.  Those that follow
    the words of the specification rather than the code say so. *)

Section ResolverVocabulary.
Import config linter lintersdb.
Context `{!LintContext, !GoAnalysis, !PluginLoader}.

(** Putting descriptors into a map under their names, and taking them out:
    the inner loops of [build]. *)
Definition putAll (lcs : list Config) (m : gmap string Config) : gmap string Config :=
  foldl (λ acc lc, <[Name lc := lc]> acc) m lcs.

Definition dropAll (lcs : list Config) (m : gmap string Config) : gmap string Config :=
  foldl (λ acc lc, delete (Name lc) acc) m lcs.

(** The ids of a list of tasks. *)
Definition names (lcs : list Config) : gset string := list_to_set (Name <$> lcs).

(** Every entry of the map is stored under the name of its descriptor. *)
Definition keyed (m : gmap string Config) : Prop :=
  ∀ name lc, m !! name = Some lc → Name lc = name.

(** The ids the registry resolves a list of user-given names to. *)
Definition resolved (es : EnabledSet) (ns : list string) : gset string :=
  ⋃ ((λ n, names (GetLinterConfigs (EnabledSet_m es) n)) <$> ns).

(** The seed in the words of the specification, as a set of task ids: "if
    presets are non-empty, seed is empty; else if enable-all seed = every
    known task; else if disable-all seed = empty; else seed = the
    default-enabled subset". *)
Definition seedSpec (known defaults : gset string) (lcfg : Linters) : gset string :=
  match Presets lcfg with
  | _ :: _ => ∅
  | [] =>
      if EnableAll lcfg then known
      else if DisableAll lcfg then ∅
      else defaults
  end.

(** The two kinds of error of the specification. *)
Inductive ErrorKind := UnknownTaskError | ConfigConflictError.

(** A name of the enable or disable list that the registry does not
    resolve. *)
Definition unknownName (m : Manager) (cfg : Linters) : Prop :=
  ∃ name, name ∈ Enable cfg ++ Disable cfg ∧ GetLinterConfigs m name = [].

(** The constraints of the resolver's contract, each with the kind of
    error of the specification and the error value of the code that
    reports its violation. *)
Inductive violation (m : Manager) (cfg : Linters) : ErrorKind → error → Prop :=
| unknown_name names :
    unknownName m cfg →
    violation m cfg UnknownTaskError
      (fmtErrorf
         "unknown linters: '%v', run 'golangci-lint help linters' to see the list of supported linters"
         [names] None)
| enable_all_with_disable_all :
    EnableAll cfg = true → DisableAll cfg = true →
    violation m cfg ConfigConflictError
      (errorsNew "--enable-all and --disable-all options must not be combined")
| unknown_preset p :
    p ∈ Presets cfg → p ∉ AllPresets m →
    violation m cfg ConfigConflictError
      (fmtErrorf "no such preset %q: only next presets exist: (%s)"
         [p; gostrings.Join (AllPresets m) "|"] None)
| presets_with_enable_all :
    Presets cfg ≠ [] → EnableAll cfg = true →
    violation m cfg ConfigConflictError
      (errorsNew "--presets is incompatible with --enable-all")
| disable_all_alone :
    DisableAll cfg = true → Enable cfg = [] → Presets cfg = [] →
    violation m cfg ConfigConflictError
      (errorsNew
         "all linters were disabled, but no one linter was enabled: must enable at least one")
| disable_all_with_disable name :
    DisableAll cfg = true → head (Disable cfg) = Some name →
    violation m cfg ConfigConflictError
      (fmtErrorf "can't combine options --disable-all and --disable %s" [name] None)
| enable_all_with_enable name :
    EnableAll cfg = true → head (Enable cfg) = Some name → Fast cfg = false →
    violation m cfg ConfigConflictError
      (fmtErrorf "can't combine options --enable-all and --enable %s" [name] None)
| enabled_and_disabled name :
    name ∈ Enable cfg → name ∈ Disable cfg →
    violation m cfg ConfigConflictError
      (fmtErrorf "linter %q can't be disabled and enabled at one moment" [name] None).

(** "A configuration that violates a constraint of the contract", in the
    words of the specification: an enable or disable name that does not
    resolve; enable-all with disable-all; a preset outside the known
    presets; presets with enable-all; disable-all with neither an enable
    list nor presets; disable-all with a disable list; enable-all with an
    enable list unless fast is set; and, as the code compares the two
    lists, a name that is written in both. *)
Definition violates (m : Manager) (cfg : Linters) : Prop :=
  unknownName m cfg
  ∨ (EnableAll cfg = true ∧ DisableAll cfg = true)
  ∨ (∃ p, p ∈ Presets cfg ∧ p ∉ AllPresets m)
  ∨ (Presets cfg ≠ [] ∧ EnableAll cfg = true)
  ∨ (DisableAll cfg = true ∧ Enable cfg = [] ∧ Presets cfg = [])
  ∨ (DisableAll cfg = true ∧ Disable cfg ≠ [])
  ∨ (EnableAll cfg = true ∧ Enable cfg ≠ [] ∧ Fast cfg = false)
  ∨ (∃ name, name ∈ Enable cfg ∧ name ∈ Disable cfg).


End ResolverVocabulary.

Section RunnerVocabulary.
Import result linter processors lint.
Context `{!LintContext}.

(** The calls of [runLinterSafe] a run makes: for each linter, in order,
    the context it received and what the call returned. *)
Fixpoint trace (c : lintCtx) (linters : list Config)
  : list (Config * lintCtx * (list Issue * option error)) :=
  match linters with
  | [] => []
  | lc :: rest =>
      let '(ret, c') := runLinterSafe c lc in
      (lc, c, ret) :: trace c' rest
  end.

(** The context the calls leave behind. *)
Fixpoint contextAfter (c : lintCtx) (linters : list Config) : lintCtx :=
  match linters with
  | [] => c
  | lc :: rest => contextAfter (runLinterSafe c lc).2 rest
  end.

(** The issues of the calls that returned no error, in order: what the
    orchestrator hands to the pipeline. *)
Fixpoint succeeded (t : list (Config * lintCtx * (list Issue * option error))) : list Issue :=
  match t with
  | [] => []
  | (_, _, (ret, None)) :: t' => ret ++ succeeded t'
  | (_, _, (_, Some _)) :: t' => succeeded t'
  end.

Definition pipelineInput (r : Runner) (linters : list Config) : list Issue :=
  succeeded (trace (Runner_lintCtx r) linters).

(** The error that reports that a linter could not be run. *)
Definition cantRun (lc : Config) : error :=
  fmtErrorf "can't run linter %s" [Linter_Name (Linter_ lc)] None.

(** The errors of the calls that returned one, joined call after call. *)
Fixpoint aggregate (acc : option error)
    (t : list (Config * lintCtx * (list Issue * option error))) : option error :=
  match t with
  | [] => acc
  | (lc, _, (_, Some err)) :: t' => aggregate (errorsJoin [acc; Some (cantRun lc); Some err]) t'
  | (_, _, (_, None)) :: t' => aggregate acc t'
  end.

(** The linter raises a fault on the context, and the error the fault is
    converted into. *)
Definition faultOf (lc : Config) (c : lintCtx) : option error :=
  match (Linter_Run (Linter_ lc) c).1 with
  | Returns _ _ => None
  | PanicsWithPanicError recovered stack =>
      Some (fmtErrorf "%s: %w" [Name lc] (Some (PanicError recovered stack)))
  | Panics panicData => Some (fmtErrorf "panic occurred: %s" [panicData] None)
  end.

(** The issues that reach the stage after the given ones. *)
Definition issuesAfter (ps : list Processor) (issues : list Issue) : list Issue :=
  (processIssues ps issues [] ∅).1.1.1.

End RunnerVocabulary.

Section GeneratedVocabulary.
Import result processors.
Context `{!gostrings.Unicode, !Filepath, !FileSystem}.

(** What [getOrCreateFileSummary] computes for a file it reads: an error,
    or whether the file is generated. *)
Definition classify (filePath : string) : error + bool :=
  match getDoc filePath with
  | inl err => inl err
  | inr doc => inr (isGeneratedFileByComment doc)
  end.

(** The processor at a later moment: after any number of further calls of
    [shouldPassIssue]. *)
Inductive later : AutogeneratedExclude → AutogeneratedExclude → Prop :=
| later_now p : later p p
| later_call p p' i : later p p' → later p (shouldPassIssue p' i).2.

(** The cache holds, for the path, a pointer to a summary that is the zero
    value. *)
Definition memoizedZero (p : AutogeneratedExclude) (filePath : string) : Prop :=
  ∃ fs, fileSummaryCache p !! filePath = Some fs
        ∧ summaries p !! fs = Some {| isGenerated := false |}.

(** Every summary in the cache is the one the file gives: the
    classification of the file or, when the file has no classification,
    the zero value. *)
Definition consistent (p : AutogeneratedExclude) : Prop :=
  ∀ filePath fs, fileSummaryCache p !! filePath = Some fs →
    ∃ s, summaries p !! fs = Some s
         ∧ (filePath ≠ "" → ∀ g, classify filePath = inr g → isGenerated s = g).

(** The stage takes the file of the issue to be generated: its name is one
    of the special names, or its leading comments classify it so. *)
Definition inGeneratedFile (i : Issue) : Prop :=
  isSpecialAutogeneratedFile (FilePath i) = true
  ∨ (FilePath i ≠ "" ∧ classify (FilePath i) = inr true).

End GeneratedVocabulary.

Section SkipDirsVocabulary.
Import result processors.
Context `{!Filepath, !Fsutils}.


(** The processor at a later moment: after any number of further calls of
    [shouldPassIssue]. *)
Inductive SkipDirs_later : SkipDirs → SkipDirs → Prop :=
| SkipDirs_later_now p : SkipDirs_later p p
| SkipDirs_later_call p p' issue :
    SkipDirs_later p p' → SkipDirs_later p (SkipDirs_shouldPassIssue p' issue).2.

End SkipDirsVocabulary.

Section ClassifierVocabulary.
Import processors.
Context `{!gostrings.Unicode}.

(** A line as [getDoc] looks at it: the bytes of the line without the
    carriage return and the white space around them. *)
Definition lineOf (raw : string) : string := gostrings.TrimSpace (bufio.dropCR raw).

(** The line is a comment: it starts with [//]. *)
Definition isComment (raw : string) : bool := gostrings.HasPrefix (lineOf raw) "//".

(** The line is blank, a comment or a package declaration (it starts with
    [package]). *)
Definition inLeadingBlock (raw : string) : bool :=
  isComment raw || bool_decide (lineOf raw = "") || gostrings.HasPrefix (lineOf raw) "package".

(** The leading block of a file: its lines before the first other content. *)
Fixpoint leadingBlock (raws : list string) : list string :=
  match raws with
  | [] => []
  | raw :: rest => if inLeadingBlock raw then raw :: leadingBlock rest else []
  end.

(** The lines the scanner is asked for: the leading block and the line of
    other content that ends it. *)
Fixpoint linesRead (raws : list string) : list string :=
  match raws with
  | [] => []
  | raw :: rest => if inLeadingBlock raw then raw :: linesRead rest else [raw]
  end.

(** The text of a comment line: what follows [//], without the white space
    around it. *)
Definition commentText (raw : string) : string :=
  gostrings.TrimSpace (gostrings.TrimPrefix (lineOf raw) "//").

(** The texts of the comment lines of a block, joined by newlines. *)
Definition docOf (block : list string) : string :=
  gostrings.Join (commentText <$> filter (λ raw, isComment raw) block)
    (String bufio.newline "").

(** The block contains a marker phrase, whatever the case of its letters,
    on one of its lines: the reading of the specification, which counts
    every line of the block. *)
Definition blockContainsMarker (block : list string) : Prop :=
  ∃ raw marker, raw ∈ block ∧ marker ∈ markers
                ∧ gostrings.Contains (gostrings.ToLower raw) marker = true.

End ClassifierVocabulary.

(** The first and the last byte of a string. *)
Definition firstByte (s : string) : option ascii :=
  match s with
  | EmptyString => None
  | String c _ => Some c
  end.

Fixpoint lastByte (s : string) : option ascii :=
  match s with
  | EmptyString => None
  | String c EmptyString => Some c
  | String _ s' => lastByte s'
  end.

(** A phrase that trimming cannot cut into: it starts with an ASCII byte
    that is neither white space nor a slash, and ends with an ASCII byte
    that is not white space. *)
Definition solid (m : string) : bool :=
  match firstByte m, lastByte m with
  | Some a, Some z =>
      gostrings.isASCII a && negb (gostrings.asciiSpace a)
      && negb (bool_decide (a = "/"%char))
      && gostrings.isASCII z && negb (gostrings.asciiSpace z)
  | _, _ => false
  end.
(** ** Further vocabulary

    Notions for the properties of the code that the specification does not
    state. *)

Section SkipDirsDecisions.
Import result processors.
Context `{!Filepath, !Fsutils}.

(** The decision on a directory, without the caches: it is skipped when no
    analysis argument stands for it and a pattern matches its path. *)
Definition skipsDir (p : SkipDirs) (issueRelDir issueAbsDir : string) : bool :=
  negb (bool_decide (issueAbsDir ∈ absArgsDirs p))
  && existsb (λ pattern, MatchString pattern (WithPathPrefix (pathPrefix p) issueRelDir))
       (patterns p).

(** The number of skipped issues the statistics hold for a directory. *)
Definition skipCount (p : SkipDirs) (dir : string) : Z :=
  default 0%Z (count <$> skippedDirs p !! dir).

(** The analysis arguments [NewSkipDirs] works with. *)
Definition argsOrDefault (runArgs : list string) : list string :=
  match runArgs with [] => ["./..."] | _ => runArgs end.

(** The caches of the processor [p] agree with the decisions of the
    processor [p0] it started as: the settings are the same; a cached
    directory has an absolute form and is cached with its decision; a
    directory cached as skipped has its statistics; and the statistics of
    a directory name the first pattern that matches it. *)
Definition SkipDirs_exact (p0 p : SkipDirs) : Prop :=
  patterns p = patterns p0
  ∧ absArgsDirs p = absArgsDirs p0
  ∧ pathPrefix p = pathPrefix p0
  ∧ (∀ dir toPass, skippedDirsCache p !! dir = Some toPass →
       ∃ abs, filepath_Abs dir = inr abs
              ∧ toPass = negb (skipsDir p0 dir abs)
              ∧ (toPass = false → is_Some (skippedDirs p !! dir)))
  ∧ (∀ dir st, skippedDirs p !! dir = Some st →
       ∃ r, List.find (λ pattern, MatchString pattern (WithPathPrefix (pathPrefix p0) dir))
              (patterns p0) = Some r
            ∧ pattern st = Regexp_String r).

(** The decision on an issue, without the caches: an issue with an
    absolute path passes, and so does an issue whose directory cannot be
    made absolute; any other issue passes unless its directory is
    skipped. *)
Definition passesDirs (p : SkipDirs) (issue : Issue) : bool :=
  if filepath_IsAbs (FilePath issue) then true
  else
    let dir := filepath_Dir (FilePath issue) in
    match filepath_Abs dir with
    | inl _ => true
    | inr abs => negb (skipsDir p dir abs)
    end.

(** The processor after [shouldPassIssue] was called on the issues, one
    after the other. *)
Definition SkipDirs_calls (p : SkipDirs) (issues : list Issue) : SkipDirs :=
  foldl (λ p issue, (SkipDirs_shouldPassIssue p issue).2) p issues.

End SkipDirsDecisions.

Section ConfigurationVocabulary.
Import internal.
Context `{!gostrings.Unicode, !Filepath}.

(** What [Validate] leaves a plugin it accepted as: the module and the
    import are not blank; with a version the path is blank; without one
    the path is a result of [filepath.Abs]. *)
Definition validPlugin (plugin : Plugin) : Prop :=
  blank (Module_ plugin) = false
  ∧ blank (Import_ plugin) = false
  ∧ (blank (Plugin_Version plugin) = false → blank (Plugin_Path plugin) = true)
  ∧ (blank (Plugin_Version plugin) = true →
     ∃ path, filepath_Abs path = inr (Plugin_Path plugin)).

(** What [Validate] may change of a plugin: it sets a blank import to the
    module and makes the path absolute; the module and the version stay. *)
Definition touched (plugin plugin' : Plugin) : Prop :=
  Module_ plugin' = Module_ plugin
  ∧ Plugin_Version plugin' = Plugin_Version plugin
  ∧ (Import_ plugin' = Import_ plugin
     ∨ (blank (Import_ plugin) = true ∧ Import_ plugin' = Module_ plugin)).

End ConfigurationVocabulary.

Section LllVocabulary.
Import result lll.

(** The length [lll] measures a line by: the number of runes of the line,
    without its carriage return and with every tab replaced. *)
Definition lineLenOf (tabSpaces raw : string) : Z :=
  Z.of_nat (utf8.RuneCount (bytes.ReplaceAll (bufio.dropCR raw) tab tabSpaces)).

(** The line is measured and is longer than the maximum: it is not a
    [//go:] directive, does not start with [import], and its length
    exceeds [maxLineLen]. *)
Definition reportable (maxLineLen : Z) (tabSpaces raw : string) : bool :=
  negb (gostrings.HasPrefix (bufio.dropCR raw) goCommentDirectivePrefix)
  && negb (gostrings.HasPrefix (bufio.dropCR raw) "import")
  && (maxLineLen <? lineLenOf tabSpaces raw)%Z.

(** The issues come in the order of their lines. *)
Definition byLine (i j : Issue) : Prop := (Line (Pos i) < Line (Pos j))%Z.

End LllVocabulary.


(** ** The resolver and the validator *)

Section Resolver.
Import config linter lintersdb.
Context `{!LintContext, !GoAnalysis, !PluginLoader}.
Implicit Types (es : EnabledSet) (v : Validator) (cfg lcfg : Linters) (lcs : list Config).

Lemma putAll_lookup lcs m name lc :
  putAll lcs m !! name = Some lc →
  (lc ∈ lcs ∧ Name lc = name) ∨ m !! name = Some lc.
Proof.
  revert m. induction lcs as [|x lcs IH]; intros m; simpl; [by right|].
  intros E. apply IH in E as [[Hin Hn]|E].
  - left. split; [by right|done].
  - destruct (decide (Name x = name)) as [<-|Hne].
    + rewrite lookup_insert_eq in E. injection E as <-. left. split; [by left|done].
    + rewrite lookup_insert_ne in E by done. by right.
Qed.

Lemma dom_putAll lcs m : dom (putAll lcs m) = dom m ∪ names lcs.
Proof.
  revert m. induction lcs as [|x lcs IH]; intros m; simpl.
  - unfold names. simpl. set_solver.
  - rewrite IH, dom_insert_L. unfold names. simpl. set_solver.
Qed.

Lemma keyed_putAll lcs m : keyed m → keyed (putAll lcs m).
Proof.
  intros Hm name lc E. apply putAll_lookup in E as [[_ ?]|?]; [done|by apply Hm].
Qed.

Lemma keyed_empty : keyed ∅.
Proof. intros name lc E. by rewrite lookup_empty in E. Qed.

Lemma linterConfigsToMap_putAll lcs : linterConfigsToMap lcs = putAll lcs ∅.
Proof. reflexivity. Qed.


Lemma dropAll_lookup lcs m name :
  dropAll lcs m !! name = if decide (name ∈ names lcs) then None else m !! name.
Proof.
  revert m. induction lcs as [|x lcs IH]; intros m; simpl.
  - by rewrite decide_False by set_solver.
  - rewrite IH. unfold names; simpl. fold (names lcs).
    destruct (decide (name ∈ names lcs)) as [Hin|Hin].
    + by rewrite decide_True by set_solver.
    + destruct (decide (Name x = name)) as [<-|Hne].
      * rewrite lookup_delete_eq. by rewrite decide_True by set_solver.
      * rewrite lookup_delete_ne by done. by rewrite decide_False by set_solver.
Qed.

Lemma keyed_dropAll lcs m : keyed m → keyed (dropAll lcs m).
Proof.
  intros Hm name lc. rewrite dropAll_lookup. case_decide; [done|apply Hm].
Qed.

Lemma elem_of_resolved es ns x :
  x ∈ resolved es ns ↔
  ∃ n lc, n ∈ ns ∧ lc ∈ GetLinterConfigs (EnabledSet_m es) n ∧ Name lc = x.
Proof.
  unfold resolved. rewrite elem_of_union_list. split.
  - intros (X & HX & Hx). apply list_elem_of_fmap in HX as (n & -> & Hn).
    unfold names in Hx. apply elem_of_list_to_set, list_elem_of_fmap in Hx as (lc & -> & Hlc).
    by exists n, lc.
  - intros (n & lc & Hn & Hlc & <-). exists (names (GetLinterConfigs (EnabledSet_m es) n)).
    split; [apply list_elem_of_fmap; by exists n|].
    unfold names. apply elem_of_list_to_set, list_elem_of_fmap. by exists lc.
Qed.

Lemma applyEnable_dom es ns m : dom (applyEnable es ns m) = dom m ∪ resolved es ns.
Proof.
  unfold applyEnable, resolved. revert m. induction ns as [|n ns IH]; intros m; simpl.
  - set_solver.
  - rewrite IH. fold (putAll (GetLinterConfigs (EnabledSet_m es) n) m).
    rewrite dom_putAll. set_solver.
Qed.

Lemma applyEnable_keyed es ns m : keyed m → keyed (applyEnable es ns m).
Proof.
  unfold applyEnable. revert m. induction ns as [|n ns IH]; intros m Hm; simpl; [done|].
  apply IH. by apply keyed_putAll.
Qed.

Lemma addPresets_keyed es ps m : keyed m → keyed (addPresets es ps m).
Proof.
  unfold addPresets. revert m. induction ps as [|n ns IH]; intros m Hm; simpl; [done|].
  apply IH. by apply keyed_putAll.
Qed.

Lemma applyDisable_lookup es ns m name :
  applyDisable es ns m !! name = if decide (name ∈ resolved es ns) then None else m !! name.
Proof.
  unfold applyDisable, resolved. revert m. induction ns as [|n ns IH]; intros m; simpl.
  - by rewrite decide_False by set_solver.
  - rewrite IH. fold (dropAll (GetLinterConfigs (EnabledSet_m es) n) m).
    rewrite dropAll_lookup.
    repeat case_decide; try done; set_solver.
Qed.

Lemma applyDisable_keyed es ns m : keyed m → keyed (applyDisable es ns m).
Proof.
  intros Hm name lc. rewrite applyDisable_lookup. case_decide; [done|apply Hm].
Qed.

Lemma addCustom_dom es custom m : dom m ⊆ dom (addCustom es custom m).
Proof.
  unfold addCustom. revert m. induction custom as [|x custom IH]; intros m; simpl; [done|].
  etrans; [|apply IH]. destruct (loadCustomLinterConfig _ _ _); [done|].
  rewrite dom_insert_L. set_solver.
Qed.

Lemma addCustom_keyed es custom m : keyed m → keyed (addCustom es custom m).
Proof.
  unfold addCustom. revert m. induction custom as [|x custom IH]; intros m Hm; simpl; [done|].
  apply IH. destruct (loadCustomLinterConfig _ _ _); [done|].
  intros name lc. rewrite lookup_insert. case_decide as E; [|apply Hm].
  intros [= <-]. done.
Qed.

Lemma removeSlow_lookup fast m name lc :
  removeSlow fast m !! name = Some lc ↔
  m !! name = Some lc ∧ (fast = true → IsSlowLinter lc = false).
Proof.
  unfold removeSlow. destruct fast.
  - rewrite map_lookup_filter_Some. simpl. split; intros [? Hs]; split; try done.
    + intros _. by destruct (IsSlowLinter lc).
    + rewrite Hs; done.
  - naive_solver.
Qed.

Lemma removeSlow_keyed fast m : keyed m → keyed (removeSlow fast m).
Proof. intros Hm name lc E. apply removeSlow_lookup in E as [E _]. by apply Hm. Qed.

Lemma seedSet_keyed es lcfg d : keyed (seedSet es lcfg d).
Proof.
  unfold seedSet. repeat case_match; try apply keyed_empty;
    rewrite linterConfigsToMap_putAll; apply keyed_putAll, keyed_empty.
Qed.

Lemma build_keyed es lcfg d : keyed (build es lcfg d).
Proof.
  unfold build. apply addCustom_keyed, applyDisable_keyed, applyEnable_keyed,
    removeSlow_keyed, addPresets_keyed, seedSet_keyed.
Qed.



Lemma length_eqb_0 {A} (l : list A) : (length l =? 0)%nat = bool_decide (l = []).
Proof. by destruct l. Qed.

Lemma validateLintersNames_Some v cfg e :
  validateLintersNames v cfg = Some e →
  violation (Validator_m v) cfg UnknownTaskError e.
Proof.
  unfold validateLintersNames.
  destruct (filter _ _) as [|name l] eqn:E; simpl; [done|].
  intros [= <-]. constructor.
  assert (name ∈ filter (λ name, GetLinterConfigs (Validator_m v) name = [])
                   (Enable cfg ++ Disable cfg)) as Hin by (rewrite E; left).
  apply list_elem_of_filter in Hin as [? ?]. by exists name.
Qed.

Lemma validateLintersNames_None v cfg :
  validateLintersNames v cfg = None → ¬ unknownName (Validator_m v) cfg.
Proof.
  unfold validateLintersNames.
  destruct (filter _ _) as [|name l] eqn:E; simpl; [|done].
  intros _ (name & Hin & Hnil).
  assert (name ∈ filter (λ name, GetLinterConfigs (Validator_m v) name = [])
                   (Enable cfg ++ Disable cfg)) as Hf by (by apply list_elem_of_filter).
  rewrite E in Hf. by apply not_elem_of_nil in Hf.
Qed.

Lemma validateLintersNames_unknown v cfg :
  unknownName (Validator_m v) cfg → is_Some (validateLintersNames v cfg).
Proof.
  intros Hu. destruct (validateLintersNames v cfg) eqn:E; [done|].
  by apply validateLintersNames_None in E.
Qed.

Lemma validatePresetsLoop_Some presets ps e :
  validatePresetsLoop presets ps = Some e →
  ∃ p, p ∈ ps ∧ (p ∉ presets) ∧
       e = fmtErrorf "no such preset %q: only next presets exist: (%s)"
             [p; gostrings.Join presets "|"] None.
Proof.
  induction ps as [|p ps IH]; simpl; [done|].
  case_bool_decide as Hp.
  - intros E. destruct (IH E) as (q & ? & ? & ?). exists q. split; [by right|done].
  - intros [= <-]. exists p. split; [by left|done].
Qed.

Lemma validatePresetsLoop_None presets ps :
  validatePresetsLoop presets ps = None → ∀ p, p ∈ ps → p ∈ presets.
Proof.
  induction ps as [|p ps IH]; simpl; [intros _ q Hq; by apply not_elem_of_nil in Hq|].
  case_bool_decide as Hp; [|done].
  intros E q [->|Hq]%elem_of_cons; [done|by apply IH].
Qed.

Lemma validatePresets_Some v cfg e :
  validatePresets v cfg = Some e → violation (Validator_m v) cfg ConfigConflictError e.
Proof.
  unfold validatePresets.
  destruct (validatePresetsLoop _ _) eqn:E.
  - intros [= <-]. apply validatePresetsLoop_Some in E as (p & ? & ? & ->).
    by constructor.
  - rewrite length_eqb_0. case_bool_decide as Hp; simpl; [done|].
    destruct (EnableAll cfg) eqn:Ea; [|done]. intros [= <-]. by constructor.
Qed.

Lemma validatePresets_None v cfg :
  validatePresets v cfg = None →
  (∀ p, p ∈ Presets cfg → p ∈ AllPresets (Validator_m v)) ∧
  (Presets cfg ≠ [] → EnableAll cfg = false).
Proof.
  unfold validatePresets.
  destruct (validatePresetsLoop _ _) eqn:E; [done|].
  rewrite length_eqb_0. intros E2. split; [by apply validatePresetsLoop_None|].
  intros Hp. rewrite bool_decide_eq_false_2 in E2 by done. simpl in E2.
  by destruct (EnableAll cfg).
Qed.

Lemma head_nonempty {A} (l : list A) : l ≠ [] → ∃ x, head l = Some x.
Proof. destruct l; [done|]. eauto. Qed.

Lemma validateAllDisableEnableOptions_Some v cfg e :
  validateAllDisableEnableOptions v cfg = Some e →
  violation (Validator_m v) cfg ConfigConflictError e.
Proof.
  unfold validateAllDisableEnableOptions. rewrite !length_eqb_0.
  destruct (EnableAll cfg) eqn:Ea, (DisableAll cfg) eqn:Ed; simpl.
  - intros [= <-]. by constructor.
  - case_bool_decide as He; simpl; [done|].
    destruct (Fast cfg) eqn:Ef; simpl; [done|].
    intros [= <-]. destruct (head_nonempty _ He) as [x Hx]. rewrite Hx. simpl.
    by constructor.
  - case_bool_decide as He; case_bool_decide as Hp; simpl.
    + intros [= <-]. by constructor.
    + case_bool_decide as Hd; simpl; [done|]. intros [= <-].
      destruct (head_nonempty _ Hd) as [x Hx]. rewrite Hx. by constructor.
    + case_bool_decide as Hd; simpl; [done|]. intros [= <-].
      destruct (head_nonempty _ Hd) as [x Hx]. rewrite Hx. by constructor.
    + case_bool_decide as Hd; simpl; [done|]. intros [= <-].
      destruct (head_nonempty _ Hd) as [x Hx]. rewrite Hx. by constructor.
  - done.
Qed.

Lemma validateAllDisableEnableOptions_None v cfg :
  validateAllDisableEnableOptions v cfg = None →
  ¬ (EnableAll cfg = true ∧ DisableAll cfg = true) ∧
  ¬ (DisableAll cfg = true ∧ Enable cfg = [] ∧ Presets cfg = []) ∧
  ¬ (DisableAll cfg = true ∧ Disable cfg ≠ []) ∧
  ¬ (EnableAll cfg = true ∧ Enable cfg ≠ [] ∧ Fast cfg = false).
Proof.
  unfold validateAllDisableEnableOptions. rewrite !length_eqb_0.
  destruct (EnableAll cfg) eqn:Ea, (DisableAll cfg) eqn:Ed; simpl; [done| | |naive_solver].
  - case_bool_decide as He; simpl; [naive_solver|].
    destruct (Fast cfg) eqn:Ef; simpl; [naive_solver|done].
  - case_bool_decide as He; case_bool_decide as Hp; simpl; [done|..];
      (case_bool_decide as Hd; simpl; [naive_solver|done]).
Qed.

Lemma enabledLintersSet_lookup (names : list string) (s : gmap string bool) name :
  default false (foldl (λ s name, <[name := true]> s) s names !! name) =
  bool_decide (name ∈ names) || default false (s !! name).
Proof.
  revert s. induction names as [|n names IH]; intros s; simpl; [done|].
  rewrite IH. destruct (decide (n = name)) as [->|Hne].
  - rewrite lookup_insert_eq. simpl. rewrite orb_true_r.
    by rewrite bool_decide_eq_true_2 by left.
  - rewrite lookup_insert_ne by done. f_equal. apply bool_decide_ext.
    rewrite elem_of_cons. naive_solver.
Qed.

Lemma disabledAndEnabledLoop_Some s names e :
  disabledAndEnabledLoop s names = Some e →
  ∃ name, name ∈ names ∧ default false (s !! name) = true ∧
          e = fmtErrorf "linter %q can't be disabled and enabled at one moment" [name] None.
Proof.
  induction names as [|n names IH]; simpl; [done|].
  destruct (default false (s !! n)) eqn:E.
  - intros [= <-]. exists n. split; [by left|done].
  - intros E2. destruct (IH E2) as (x & ? & ? & ?). exists x. split; [by right|done].
Qed.

Lemma disabledAndEnabledLoop_None s names :
  disabledAndEnabledLoop s names = None →
  ∀ name, name ∈ names → default false (s !! name) = false.
Proof.
  induction names as [|n names IH]; simpl; [intros _ x Hx; by apply not_elem_of_nil in Hx|].
  destruct (default false (s !! n)) eqn:E; [done|].
  intros E2 x [->|Hx]%elem_of_cons; [done|by apply IH].
Qed.

Lemma validateDisabledAndEnabledAtOneMoment_Some v cfg e :
  validateDisabledAndEnabledAtOneMoment v cfg = Some e →
  violation (Validator_m v) cfg ConfigConflictError e.
Proof.
  unfold validateDisabledAndEnabledAtOneMoment. intros E.
  apply disabledAndEnabledLoop_Some in E as (name & Hd & He & ->).
  rewrite enabledLintersSet_lookup, lookup_empty in He. simpl in He.
  rewrite orb_false_r in He. apply bool_decide_eq_true_1 in He. by constructor.
Qed.

Lemma validateDisabledAndEnabledAtOneMoment_None v cfg :
  validateDisabledAndEnabledAtOneMoment v cfg = None →
  ∀ name, name ∈ Enable cfg → name ∈ Disable cfg → False.
Proof.
  unfold validateDisabledAndEnabledAtOneMoment. intros E name He Hd.
  pose proof (disabledAndEnabledLoop_None _ _ E name Hd) as Hf.
  rewrite enabledLintersSet_lookup in Hf. by rewrite bool_decide_eq_true_2 in Hf.
Qed.



Lemma validate_Some v cfg e :
  validateEnabledDisabledLintersConfig v cfg = Some e →
  ∃ k, violation (Validator_m v) cfg k e ∧
       (k = UnknownTaskError ↔ unknownName (Validator_m v) cfg).
Proof.
  unfold validateEnabledDisabledLintersConfig. simpl.
  destruct (validateLintersNames v cfg) eqn:E1.
  { intros [= <-]. exists UnknownTaskError. split; [by apply validateLintersNames_Some|].
    split; [|done]. intros _.
    apply validateLintersNames_Some in E1. by inversion E1. }
  apply validateLintersNames_None in E1.
  assert (∀ e, violation (Validator_m v) cfg ConfigConflictError e →
    ∃ k, violation (Validator_m v) cfg k e ∧
         (k = UnknownTaskError ↔ unknownName (Validator_m v) cfg)) as Hc.
  { intros e' He'. exists ConfigConflictError. split; [done|]. split; [done|]. done. }
  destruct (validatePresets v cfg) eqn:E2.
  { intros [= <-]. by apply Hc, validatePresets_Some. }
  destruct (validateAllDisableEnableOptions v cfg) eqn:E3.
  { intros [= <-]. by apply Hc, validateAllDisableEnableOptions_Some. }
  destruct (validateDisabledAndEnabledAtOneMoment v cfg) eqn:E4; [|done].
  intros [= <-]. by apply Hc, validateDisabledAndEnabledAtOneMoment_Some.
Qed.

Lemma validate_None v cfg k e :
  validateEnabledDisabledLintersConfig v cfg = None →
  ¬ violation (Validator_m v) cfg k e.
Proof.
  unfold validateEnabledDisabledLintersConfig. simpl.
  destruct (validateLintersNames v cfg) eqn:E1; [done|].
  destruct (validatePresets v cfg) eqn:E2; [done|].
  destruct (validateAllDisableEnableOptions v cfg) eqn:E3; [done|].
  destruct (validateDisabledAndEnabledAtOneMoment v cfg) eqn:E4; [done|].
  intros _ Hv.
  apply validateLintersNames_None in E1.
  apply validatePresets_None in E2 as [P1 P2].
  apply validateAllDisableEnableOptions_None in E3 as (A1 & A2 & A3 & A4).
  pose proof (validateDisabledAndEnabledAtOneMoment_None _ _ E4) as D.
  destruct Hv as [names Hu|Ha Hd|p Hp Hnp|Hp Ha|Hd He Hp|name Hd Hh|name Ha Hh Hf|name He Hd].
  - by apply E1.
  - by apply A1.
  - by apply Hnp, P1.
  - apply P2 in Hp. congruence.
  - by apply A2.
  - apply A3. split; [done|]. by destruct (Disable cfg).
  - apply A4. split; [done|]. split; [|done]. by destruct (Enable cfg).
  - by apply (D name).
Qed.

Lemma dom_linterConfigsToMap lcs : dom (linterConfigsToMap lcs) = names lcs.
Proof. rewrite linterConfigsToMap_putAll, dom_putAll. set_solver. Qed.

Lemma linterConfigsToMap_lookup lcs name lc :
  linterConfigsToMap lcs !! name = Some lc → Name lc = name ∧ lc ∈ lcs.
Proof.
  rewrite linterConfigsToMap_putAll. intros E.
  apply putAll_lookup in E as [[? ?]|E]; [done|]. by rewrite lookup_empty in E.
Qed.

(** C1.  The seed of [build] is the seed of the specification: its ids are
    none when presets are given, else those of every known task under
    enable-all, else none under disable-all, else those of the
    default-enabled tasks; every id of the seed stands for a task of the
    list it was taken from; and [build] starts from this seed. *)
Theorem C1_seed_set es lcfg (enabledByDefaultLinters : list Config) :
  let known := GetAllSupportedLinterConfigs (EnabledSet_m es) in
  let seed := seedSet es lcfg enabledByDefaultLinters in
  dom seed = seedSpec (names known) (names enabledByDefaultLinters) lcfg
  ∧ (∀ name lc, seed !! name = Some lc →
       Name lc = name ∧ lc ∈ (if EnableAll lcfg then known else enabledByDefaultLinters))
  ∧ build es lcfg enabledByDefaultLinters =
      addCustom es (Custom (EnabledSet_cfg es))
        (applyDisable es (Disable lcfg)
          (applyEnable es (Enable lcfg)
            (removeSlow (Fast lcfg)
              (addPresets es (Presets lcfg) seed)))).
Proof.
  intros known seed. split; [|split; [|reflexivity]]; subst seed;
    unfold seedSet, seedSpec; destruct (Presets lcfg) as [|p ps]; simpl.
  - destruct (EnableAll lcfg); [|destruct (DisableAll lcfg)];
      [apply dom_linterConfigsToMap|apply dom_empty_L|apply dom_linterConfigsToMap].
  - apply dom_empty_L.
  - intros name lc.
    destruct (EnableAll lcfg); [|destruct (DisableAll lcfg)];
      [apply linterConfigsToMap_lookup| |apply linterConfigsToMap_lookup].
    intros E. by rewrite lookup_empty in E.
  - intros name lc E. by rewrite lookup_empty in E.
Qed.

Lemma violates_violation (m : Manager) cfg :
  violates m cfg → ∃ kind e, violation m cfg kind e.
Proof.
  intros [Hu|[[? ?]|[(p & ? & ?)|[[? ?]|[(? & ? & ?)|[[? Hd]|[(? & He & ?)|(n & ? & ?)]]]]]]].
  - exists UnknownTaskError. eexists. by apply (unknown_name _ _ "").
  - exists ConfigConflictError. eexists. by apply enable_all_with_disable_all.
  - exists ConfigConflictError. eexists. by apply (unknown_preset _ _ p).
  - exists ConfigConflictError. eexists. by apply presets_with_enable_all.
  - exists ConfigConflictError. eexists. by apply disable_all_alone.
  - destruct (head_nonempty _ Hd) as [x Hx]. exists ConfigConflictError. eexists.
    by apply (disable_all_with_disable _ _ x).
  - destruct (head_nonempty _ He) as [x Hx]. exists ConfigConflictError. eexists.
    by apply (enable_all_with_enable _ _ x).
  - exists ConfigConflictError. eexists. by apply (enabled_and_disabled _ _ n).
Qed.


(** C5, as the code has it.  With [Fast], [build] removes the slow tasks
    from the set that the seed and the presets gave, and only then applies
    the enable list and the disable list: no slow task is left after the
    removal, the tasks that are not slow stay, and a task named in the
    enable list (a slow one too) is in the resolved set unless a name of
    the disable list resolves to it. *)
Theorem C5_fast_before_enable es lcfg (enabledByDefaultLinters : list Config) :
  Fast lcfg = true →
  let afterPresets :=
    addPresets es (Presets lcfg) (seedSet es lcfg enabledByDefaultLinters) in
  let afterFast := removeSlow true afterPresets in
  build es lcfg enabledByDefaultLinters =
    addCustom es (Custom (EnabledSet_cfg es))
      (applyDisable es (Disable lcfg) (applyEnable es (Enable lcfg) afterFast))
  ∧ (∀ name lc, afterFast !! name = Some lc ↔
                afterPresets !! name = Some lc ∧ IsSlowLinter lc = false)
  ∧ (∀ name lc,
       name ∈ Enable lcfg →
       lc ∈ GetLinterConfigs (EnabledSet_m es) name →
       Name lc ∉ resolved es (Disable lcfg) →
       Name lc ∈ dom (build es lcfg enabledByDefaultLinters)).
Proof.
  intros Hfast afterPresets afterFast. split; [|split].
  - unfold build. by rewrite Hfast.
  - intros name lc. subst afterFast. rewrite removeSlow_lookup. naive_solver.
  - intros name lc Hn Hlc Hd. unfold build.
    apply addCustom_dom, elem_of_dom.
    destruct (applyDisable es (Disable lcfg) _ !! Name lc) eqn:E; [done|].
    rewrite applyDisable_lookup, decide_False in E by done.
    apply not_elem_of_dom in E. exfalso. apply E.
    rewrite applyEnable_dom. apply elem_of_union_r, elem_of_resolved. by exists name, lc.
Qed.

End Resolver.

Section ResolverExamples.
Import config linter lintersdb examples.
#[local] Existing Instance unitContext.
#[local] Existing Instance noGoAnalysis.
#[local] Existing Instance noPlugins.

Lemma C1_seed_set_witness :
  dom (lintersdb.seedSet (enabledSetOf fastEnable) fastEnable
         (lintersdb.GetAllEnabledByDefaultLinters registry))
  = {["govet"; "unused"]}.
Proof.
  rewrite (proj1 (C1_seed_set (enabledSetOf fastEnable) fastEnable
                    (lintersdb.GetAllEnabledByDefaultLinters registry))).
  vm_compute. set_solver.
Defined.



Lemma C5_fast_before_enable_witness :
  Fast fastEnable = true
  ∧ "unused" ∈ Enable fastEnable
  ∧ unused ∈ GetLinterConfigs registry "unused"
  ∧ IsSlowLinter unused = true
  ∧ "unused" ∈ dom (build (enabledSetOf fastEnable) fastEnable
                      (GetAllEnabledByDefaultLinters registry)).
Proof.
  assert (unused ∈ GetLinterConfigs registry "unused") as Hin.
  { vm_compute. left. }
  assert (Name unused ∉ resolved (enabledSetOf fastEnable) (Disable fastEnable)) as Hd.
  { vm_compute. set_solver. }
  split; [reflexivity|]. split; [left|]. split; [exact Hin|]. split; [reflexivity|].
  refine (proj2 (proj2 (C5_fast_before_enable (enabledSetOf fastEnable) fastEnable
            (GetAllEnabledByDefaultLinters registry) eq_refl)) "unused" unused _ Hin Hd).
  left.
Defined.

(** The claim C5 as stated fails when the disable list names the task
    under another of its names: the configuration passes validation, the
    slow task [unused] is named in the enable list, and the resolved set
    does not hold it. *)
Lemma C5_counterexample :
  Fast fastEnableDisable = true
  ∧ "unused" ∈ Enable fastEnableDisable
  ∧ unused ∈ GetLinterConfigs registry "unused"
  ∧ IsSlowLinter unused = true
  ∧ validateEnabledDisabledLintersConfig {| Validator_m := registry |} fastEnableDisable = None
  ∧ build (enabledSetOf fastEnableDisable) fastEnableDisable
      (GetAllEnabledByDefaultLinters registry) !! "unused" = None
  ∧ Name <$> (Get (enabledSetOf fastEnableDisable) false).1 = ["govet"].
Proof.
  split; [reflexivity|]. split; [left|]. split; [vm_compute; left|].
  split; [reflexivity|]. split; [by vm_compute|]. split; by vm_compute.
Qed.

End ResolverExamples.

(** ** The runner *)

Section Runner.
Import result linter processors lint.
Context `{!LintContext}.
Implicit Types (r : Runner) (lc : Config) (c : lintCtx) (linters : list Config)
  (ps : list Processor).

Lemma errorTree_joinError errs :
  errorTree (joinError errs) = joinError errs :: mjoin (errorTree <$> errs).
Proof.
  simpl. f_equal. induction errs as [|x errs IH]; [done|]. simpl. by rewrite IH.
Qed.

Lemma errorTree_self e : e ∈ errorTree e.
Proof. destruct e; simpl; left. Qed.

Lemma elem_of_errorTree_join x e errs :
  e ∈ errs → x ∈ errorTree e → x ∈ errorTree (joinError errs).
Proof.
  intros He Hx. rewrite errorTree_joinError. right.
  apply list_elem_of_join. exists (errorTree e). split; [done|].
  apply list_elem_of_fmap. by exists e.
Qed.

(** An error stays in the aggregate when later errors are joined to it. *)
Lemma aggregate_keeps t x e :
  x ∈ errorTree e → ∃ e', aggregate (Some e) t = Some e' ∧ x ∈ errorTree e'.
Proof.
  revert e. induction t as [|[[lc c] [ret [err|]]] t IH]; intros e Hx; simpl.
  - by exists e.
  - unfold errorsJoin. simpl. apply IH.
    apply elem_of_errorTree_join with e; [left|done].
  - by apply IH.
Qed.

Lemma foldl_runStep st linters :
  foldl runStep st linters =
    {| sw := sw st ++ (Name <$> linters);
       lintErrors := aggregate (lintErrors st) (trace (ctx st) linters);
       issues := issues st ++ succeeded (trace (ctx st) linters);
       ctx := contextAfter (ctx st) linters |}.
Proof.
  revert st. induction linters as [|lc linters IH]; intros st; simpl.
  - rewrite !app_nil_r. by destruct st.
  - rewrite IH. unfold runStep.
    destruct (runLinterSafe (ctx st) lc) as [[ret [err|]] c'] eqn:E; simpl.
    + unfold TrackStage. by rewrite <- !app_assoc.
    + unfold TrackStage. by rewrite <- !app_assoc.
Qed.

Lemma Run_unfold r linters :
  Run r linters =
    (((processLintResults (Processors r) (pipelineInput r linters)).1,
      aggregate None (trace (Runner_lintCtx r) linters)),
     {| Runner_lintCtx := contextAfter (Runner_lintCtx r) linters;
        Processors := (processLintResults (Processors r) (pipelineInput r linters)).2 |},
     Name <$> linters).
Proof.
  unfold Run. rewrite foldl_runStep. simpl. unfold pipelineInput.
  by destruct (processLintResults _ _).
Qed.

Lemma trace_linters c linters : (trace c linters).*1.*1 = linters.
Proof.
  revert c. induction linters as [|lc linters IH]; intros c; simpl; [done|].
  destruct (runLinterSafe c lc) as [ret c']. simpl. by rewrite IH.
Qed.

Lemma runLinterSafe_fault lc c perTask :
  faultOf lc c = Some perTask → (runLinterSafe c lc).1 = ([], Some perTask).
Proof.
  unfold faultOf, runLinterSafe.
  destruct (Linter_Run (Linter_ lc) c) as [[issues err| |] c']; simpl; [done|..];
    by intros [= <-].
Qed.

Lemma trace_result c linters lc c0 ret :
  (lc, c0, ret) ∈ trace c linters → ret = (runLinterSafe c0 lc).1.
Proof.
  revert c. induction linters as [|x linters IH]; intros c; simpl.
  - intros E. by apply not_elem_of_nil in E.
  - destruct (runLinterSafe c x) as [ret' c'] eqn:E.
    intros [[= <- <- <-]|Hin]%elem_of_cons; [by rewrite E|by eapply IH].
Qed.

Lemma aggregate_failed acc t lc c ret err :
  (lc, c, (ret, Some err)) ∈ t →
  ∃ e, aggregate acc t = Some e ∧ cantRun lc ∈ errorTree e ∧ err ∈ errorTree e.
Proof.
  revert acc. induction t as [|[[lc' c'] [ret' [err'|]]] t IH]; intros acc; simpl.
  - intros E. by apply not_elem_of_nil in E.
  - intros [[= <- <- <- <-]|Hin]%elem_of_cons; [|by apply IH].
    unfold errorsJoin.
    assert (∃ l, omap id [acc; Some (cantRun lc); Some err] = l
                 ∧ cantRun lc ∈ l ∧ err ∈ l ∧ l ≠ []) as (l & -> & H1 & H2 & Hl).
    { destruct acc; simpl; eexists; (split; [done|]); set_solver. }
    destruct l as [|x l]; [done|].
    destruct (aggregate_keeps t (cantRun lc) (joinError (x :: l))) as (e1 & E1 & T1).
    { eapply elem_of_errorTree_join; [exact H1|apply errorTree_self]. }
    destruct (aggregate_keeps t err (joinError (x :: l))) as (e2 & E2 & T2).
    { eapply elem_of_errorTree_join; [exact H2|apply errorTree_self]. }
    exists e1. split; [done|]. split; [done|]. congruence.
  - intros [[=]|Hin]%elem_of_cons. by apply IH.
Qed.

Lemma succeeded_In t lc c ret i :
  (lc, c, (ret, None)) ∈ t → i ∈ ret → i ∈ succeeded t.
Proof.
  induction t as [|[[lc' c'] [ret' [err'|]]] t IH]; simpl.
  - intros E. by apply not_elem_of_nil in E.
  - intros [[=]|Hin]%elem_of_cons Hi. by apply IH.
  - intros [[= <- <- <-]|Hin]%elem_of_cons Hi; apply elem_of_app; [by left|right; by apply IH].
Qed.

Lemma succeeded_inv t i :
  i ∈ succeeded t → ∃ lc c ret, (lc, c, (ret, None)) ∈ t ∧ i ∈ ret.
Proof.
  induction t as [|[[lc' c'] [ret' [err'|]]] t IH]; simpl.
  - intros E. by apply not_elem_of_nil in E.
  - intros Hi. destruct (IH Hi) as (lc & c & ret & Hin & ?).
    exists lc, c, ret. split; [by right|done].
  - intros [Hi|Hi]%elem_of_app.
    + exists lc', c', ret'. split; [left|done].
    + destruct (IH Hi) as (lc & c & ret & Hin & ?).
      exists lc, c, ret. split; [by right|done].
Qed.

Lemma processIssues_issues ps issues sw stat :
  (processIssues ps issues sw stat).1.1.1 = issuesAfter ps issues.
Proof.
  unfold issuesAfter. generalize (@nil string) (∅ : gmap string processorStat).
  revert issues sw stat. induction ps as [|p ps IH]; intros issues sw stat sw0 stat0; [done|].
  simpl. destruct (Process p issues) as [[newIssues [err|]] p']; simpl.
  - specialize (IH issues (TrackStage sw (Processor_Name p)) stat
                  (TrackStage sw0 (Processor_Name p)) stat0).
    destruct (processIssues ps issues (TrackStage sw _) stat) as [[[? ?] ?] ?].
    destruct (processIssues ps issues (TrackStage sw0 _) stat0) as [[[? ?] ?] ?]. done.
  - specialize (IH newIssues (TrackStage sw (Processor_Name p))
                  (addStat stat (Processor_Name p) (length issues) (length newIssues))
                  (TrackStage sw0 (Processor_Name p))
                  (addStat stat0 (Processor_Name p) (length issues) (length newIssues))).
    destruct (processIssues ps newIssues (TrackStage sw _) _) as [[[? ?] ?] ?].
    destruct (processIssues ps newIssues (TrackStage sw0 _) _) as [[[? ?] ?] ?]. done.
Qed.

Lemma processIssues_app pre post issues sw stat :
  processIssues (pre ++ post) issues sw stat =
    let '(mid, pre', sw1, stat1) := processIssues pre issues sw stat in
    let '(out, post', sw2, stat2) := processIssues post mid sw1 stat1 in
    (out, pre' ++ post', sw2, stat2).
Proof.
  revert issues sw stat. induction pre as [|p pre IH]; intros issues sw stat; simpl.
  - by destruct (processIssues post issues sw stat) as [[[? ?] ?] ?].
  - destruct (Process p issues) as [[newIssues [err|]] p']; simpl; rewrite IH.
    + destruct (processIssues pre issues _ stat) as [[[mid pre'] sw1] stat1].
      by destruct (processIssues post mid sw1 stat1) as [[[? ?] ?] ?].
    + destruct (processIssues pre newIssues _ _) as [[[mid pre'] sw1] stat1].
      by destruct (processIssues post mid sw1 stat1) as [[[? ?] ?] ?].
Qed.

Lemma processLintResults_issues ps inIssues :
  (processLintResults ps inIssues).1 =
    if bool_decide (inIssues = []) then [] else issuesAfter ps inIssues.
Proof.
  unfold processLintResults, issuesAfter. rewrite length_eqb_0.
  case_bool_decide; simpl; [done|].
  by destruct (processIssues ps inIssues [] ∅) as [[[? ?] ?] ?].
Qed.

(** What a call of the run gives to the pipeline: when the linter returns
    issues and no error, the call returns these issues, every one of them,
    stamped. *)
Lemma trace_returned c0 linters lc c issues c' :
  (lc, c) ∈ (trace c0 linters).*1 →
  Linter_Run (Linter_ lc) c = (Returns issues None, c') →
  (lc, c, (stamp lc issues, None)) ∈ trace c0 linters.
Proof.
  intros ([[lc0 c1] ret] & [= <- <-] & Hin)%list_elem_of_fmap E.
  pose proof (trace_result _ _ _ _ _ Hin) as Hret.
  unfold runLinterSafe in Hret. rewrite E in Hret. simpl in Hret. by subst ret.
Qed.

Lemma stamp_elem lc issues i :
  i ∈ issues →
  (if bool_decide (FromLinter i = "") then setFromLinter (Name lc) i else i) ∈ stamp lc issues.
Proof.
  intros Hi. unfold stamp. apply list_elem_of_fmap. by exists i.
Qed.

(** C3.  A run calls every linter, in order, whatever the earlier ones
    did.  A linter that raises a fault yields no issues and the error the
    fault is converted into; that error, and the error that names the
    linter, are part of the error the run returns.  Every issue that a
    linter of the run returned without error is handed to the pipeline,
    with the name of the linter as its source when it had none; the result
    of the pipeline is the result of the run (the issues handed to it are
    the result itself when the pipeline has no stage). *)
Theorem C3_fault_isolation r linters :
  let t := trace (Runner_lintCtx r) linters in
  (Run r linters).2 = Name <$> linters
  ∧ t.*1.*1 = linters
  ∧ (Run r linters).1.1 =
      (if bool_decide (pipelineInput r linters = []) then []
       else issuesAfter (Processors r) (pipelineInput r linters),
       aggregate None t)
  ∧ (∀ lc c ret perTask,
       (lc, c, ret) ∈ t → faultOf lc c = Some perTask →
       ret = ([], Some perTask)
       ∧ ∃ e, (Run r linters).1.1.2 = Some e
              ∧ perTask ∈ errorTree e ∧ cantRun lc ∈ errorTree e)
  ∧ (∀ lc c issues c' i,
       (lc, c) ∈ t.*1 →
       Linter_Run (Linter_ lc) c = (Returns issues None, c') →
       i ∈ issues →
       (if bool_decide (FromLinter i = "") then setFromLinter (Name lc) i else i)
         ∈ pipelineInput r linters)
  ∧ (Processors r = [] → (Run r linters).1.1.1 = pipelineInput r linters).
Proof.
  intros t. rewrite Run_unfold. simpl. rewrite processLintResults_issues.
  split; [done|]. split; [apply trace_linters|]. split; [done|]. split; [|split].
  - intros lc c ret perTask Hin Hf.
    pose proof (trace_result _ _ _ _ _ Hin) as ->.
    rewrite (runLinterSafe_fault _ _ _ Hf). split; [done|].
    rewrite (runLinterSafe_fault _ _ _ Hf) in Hin.
    destruct (aggregate_failed None _ _ _ _ _ Hin) as (e & ? & ? & ?). by exists e.
  - intros lc c issues c' i Hin E Hi.
    eapply succeeded_In; [by eapply trace_returned|by apply stamp_elem].
  - intros ->. case_bool_decide as E; [by rewrite E|done].
Qed.

(** C4.  When the call of a stage returns an error, the stage after it
    receives the issues the failing stage received, the statistics are
    left as they were, and the pipeline goes on: the stage acts as the
    identity. *)
Theorem C4_stage_error_is_identity (pre post : list Processor) (p p' : Processor)
    (issues newIssues : list Issue) (err : error) sw stat :
  Process p (issuesAfter pre issues) = ((newIssues, Some err), p') →
  issuesAfter (pre ++ [p]) issues = issuesAfter pre issues
  ∧ issuesAfter (pre ++ p :: post) issues = issuesAfter post (issuesAfter pre issues)
  ∧ processIssues (pre ++ p :: post) issues sw stat =
      let '(mid, pre', sw1, stat1) := processIssues pre issues sw stat in
      let '(out, post', sw2, stat2) :=
        processIssues post mid (TrackStage sw1 (Processor_Name p)) stat1 in
      (out, pre' ++ p' :: post', sw2, stat2).
Proof.
  intros E.
  assert (∀ post sw stat,
    processIssues (pre ++ p :: post) issues sw stat =
      let '(mid, pre', sw1, stat1) := processIssues pre issues sw stat in
      let '(out, post', sw2, stat2) :=
        processIssues post mid (TrackStage sw1 (Processor_Name p)) stat1 in
      (out, pre' ++ p' :: post', sw2, stat2)) as Hstep.
  { intros post0 sw0 stat0. rewrite processIssues_app.
    pose proof (processIssues_issues pre issues sw0 stat0) as Hmid.
    destruct (processIssues pre issues sw0 stat0) as [[[mid pre'] sw1] stat1].
    simpl in Hmid. subst mid. simpl. rewrite E.
    by destruct (processIssues post0 _ _ stat1) as [[[? ?] ?] ?]. }
  split; [|split; [|apply Hstep]].
  - unfold issuesAfter at 1. rewrite Hstep.
    pose proof (processIssues_issues pre issues [] ∅) as Hmid.
    destruct (processIssues pre issues [] ∅) as [[[mid pre'] sw1] stat1]. done.
  - unfold issuesAfter at 1. rewrite Hstep.
    pose proof (processIssues_issues pre issues [] ∅) as Hmid.
    destruct (processIssues pre issues [] ∅) as [[[mid pre'] sw1] stat1].
    simpl in Hmid. subst mid.
    pose proof (processIssues_issues post (issuesAfter pre issues)
                  (TrackStage sw1 (Processor_Name p)) stat1) as Hout.
    by destruct (processIssues post _ _ stat1) as [[[? ?] ?] ?].
Qed.

Lemma trace_Config c linters lc c0 ret :
  (lc, c0, ret) ∈ trace c linters → lc ∈ linters.
Proof.
  intros Hin. rewrite <- (trace_linters c linters).
  apply list_elem_of_fmap. exists (lc, c0). split; [done|].
  apply list_elem_of_fmap. by exists (lc, c0, ret).
Qed.

(** C6, as the code has it.  Every issue a linter of the run returned
    without fault and without error is handed to the pipeline: with the
    name of the linter as its source when the linter left the source
    empty, and as it is otherwise.  Nothing else is handed to the
    pipeline: every issue the pipeline gets is such an issue, so its source
    is not empty whenever the name of the linter is not. *)
Theorem C6_source_stamped r linters :
  (Run r linters).1.1.1 = (processLintResults (Processors r) (pipelineInput r linters)).1
  ∧ (∀ lc c returned c' i,
       (lc, c) ∈ (trace (Runner_lintCtx r) linters).*1 →
       Linter_Run (Linter_ lc) c = (Returns returned None, c') →
       i ∈ returned →
       (FromLinter i = "" → setFromLinter (Name lc) i ∈ pipelineInput r linters)
       ∧ (FromLinter i ≠ "" → i ∈ pipelineInput r linters))
  ∧ (∀ i', i' ∈ pipelineInput r linters →
       ∃ lc c returned c' i,
         lc ∈ linters
         ∧ (lc, c) ∈ (trace (Runner_lintCtx r) linters).*1
         ∧ Linter_Run (Linter_ lc) c = (Returns returned None, c')
         ∧ i ∈ returned
         ∧ i' = (if bool_decide (FromLinter i = "") then setFromLinter (Name lc) i else i)
         ∧ FromLinter i' = (if bool_decide (FromLinter i = "") then Name lc else FromLinter i)
         ∧ (Name lc ≠ "" → FromLinter i' ≠ "")).
Proof.
  split; [by rewrite Run_unfold|]. split.
  - intros lc c returned c' i Hin E Hi.
    assert ((if bool_decide (FromLinter i = "") then setFromLinter (Name lc) i else i)
              ∈ pipelineInput r linters) as Hst.
    { eapply succeeded_In; [by eapply trace_returned|by apply stamp_elem]. }
    split; intros Hsrc.
    + by rewrite bool_decide_eq_true_2 in Hst.
    + by rewrite bool_decide_eq_false_2 in Hst.
  - intros i' Hi.
    apply succeeded_inv in Hi as (lc & c & ret & Hin & Hi).
    pose proof (trace_Config _ _ _ _ _ Hin) as Hlc.
    assert ((lc, c) ∈ (trace (Runner_lintCtx r) linters).*1) as Hcall.
    { apply list_elem_of_fmap. by exists (lc, c, (ret, None)). }
    apply trace_result in Hin. unfold runLinterSafe in Hin.
    destruct (Linter_Run (Linter_ lc) c) as [[returned [err|]| |] c'] eqn:E;
      simpl in Hin; try (by inversion Hin).
    injection Hin as ->. unfold stamp in Hi.
    apply list_elem_of_fmap in Hi as (i & -> & Hi).
    exists lc, c, returned, c', i. repeat split; try done.
    + by case_bool_decide.
    + intros Hn. by case_bool_decide.
Qed.

End Runner.

Section RunnerExamples.
Import result linter processors lint examples.
#[local] Existing Instance unitContext.
#[local] Existing Instance asciiOnly.
#[local] Existing Instance simplePaths.
#[local] Existing Instance projectFiles.

(** The run of [A], [B] and [C]: [A] faults, the issues [B] and [C]
    returned are handed to the pipeline and are the result, and the error
    of the run holds the errors about [A]. *)
Lemma C3_fault_isolation_witness :
  (taskA, tt, ([], Some (fmtErrorf "panic occurred: %s" ["boom"] None)))
    ∈ trace tt [taskA; taskB; taskC]
  ∧ faultOf taskA tt = Some (fmtErrorf "panic occurred: %s" ["boom"] None)
  ∧ (∃ e, (Run bareRunner [taskA; taskB; taskC]).1.1.2 = Some e
          ∧ fmtErrorf "panic occurred: %s" ["boom"] None ∈ errorTree e
          ∧ cantRun taskA ∈ errorTree e)
  ∧ Linter_Run (Linter_ taskB) tt = (Returns [issueAt "" "b.go" 3] None, tt)
  ∧ issueAt "B" "b.go" 3 ∈ pipelineInput bareRunner [taskA; taskB; taskC]
  ∧ (Run bareRunner [taskA; taskB; taskC]).1.1.1
    = [issueAt "B" "b.go" 3; issueAt "custom" "c.go" 7]
  ∧ (Run bareRunner [taskA; taskB; taskC]).2 = ["A"; "B"; "C"].
Proof.
  assert ((taskA, tt, ([], Some (fmtErrorf "panic occurred: %s" ["boom"] None)))
            ∈ trace tt [taskA; taskB; taskC]) as Hin by (vm_compute; left).
  assert ((taskB, tt) ∈ (trace tt [taskA; taskB; taskC]).*1) as HB
    by (vm_compute; right; left).
  split; [exact Hin|]. split; [reflexivity|].
  destruct (C3_fault_isolation bareRunner [taskA; taskB; taskC])
    as (Hsw & _ & _ & Hfault & Hfed & Hout).
  split; [exact (proj2 (Hfault _ _ _ _ Hin eq_refl))|].
  split; [reflexivity|].
  split; [exact (Hfed taskB tt [issueAt "" "b.go" 3] tt (issueAt "" "b.go" 3) HB eq_refl
                   ltac:(left))|].
  split; [rewrite (Hout eq_refl); reflexivity|exact Hsw].
Defined.

(** The stage that excludes generated files fails on an issue without a
    file path; the issues go on as they came. *)
Lemma C4_stage_error_is_identity_witness :
  let age := AutogeneratedExclude_Processor NewAutogeneratedExclude in
  let issues := [issueAt "govet" "" 1; issueAt "govet" "zz_generated.go" 5] in
  (∃ p', Process age (issuesAfter [] issues)
         = (([], Some (fmtErrorf "no file path for issue" [] None)), p'))
  ∧ issuesAfter ([] ++ [age]) issues = issues.
Proof.
  intros age issues.
  assert ((Process age (issuesAfter [] issues)).1
          = ([], Some (fmtErrorf "no file path for issue" [] None))) as E1
    by (vm_compute; reflexivity).
  assert (Process age (issuesAfter [] issues)
          = (([], Some (fmtErrorf "no file path for issue" [] None)),
             (Process age (issuesAfter [] issues)).2)) as E.
  { rewrite <- E1. by destruct (Process age (issuesAfter [] issues)). }
  split; [by eexists|].
  exact (proj1 (C4_stage_error_is_identity [] [] age _ issues [] _ [] ∅ E)).
Defined.

(** The issue [B] returns without source is handed to the pipeline with
    the source [B]. *)
Lemma C6_source_stamped_witness :
  Linter_Run (Linter_ taskB) tt = (Returns [issueAt "" "b.go" 3] None, tt)
  ∧ setFromLinter (Name taskB) (issueAt "" "b.go" 3)
      ∈ pipelineInput bareRunner [taskA; taskB; taskC]
  ∧ ∃ lc c returned c' i,
      lc ∈ [taskA; taskB; taskC]
      ∧ (lc, c) ∈ (trace tt [taskA; taskB; taskC]).*1
      ∧ Linter_Run (Linter_ lc) c = (Returns returned None, c')
      ∧ i ∈ returned
      ∧ issueAt "B" "b.go" 3
        = (if bool_decide (FromLinter i = "") then setFromLinter (Name lc) i else i)
      ∧ FromLinter (issueAt "B" "b.go" 3)
        = (if bool_decide (FromLinter i = "") then Name lc else FromLinter i)
      ∧ (Name lc ≠ "" → FromLinter (issueAt "B" "b.go" 3) ≠ "").
Proof.
  assert (issueAt "B" "b.go" 3 ∈ pipelineInput bareRunner [taskA; taskB; taskC]) as Hin
    by (vm_compute; left).
  assert ((taskB, tt) ∈ (trace tt [taskA; taskB; taskC]).*1) as HB
    by (vm_compute; right; left).
  destruct (C6_source_stamped bareRunner [taskA; taskB; taskC]) as (_ & Hfwd & Hback).
  split; [reflexivity|].
  split; [exact (proj1 (Hfwd taskB tt [issueAt "" "b.go" 3] tt (issueAt "" "b.go" 3) HB
                          eq_refl ltac:(left)) eq_refl)|].
  exact (Hback _ Hin).
Defined.

(** The claim C6 as stated fails for a task whose name is empty: the issue
    it returns without source reaches the pipeline, and the result of the
    run, without source. *)
Lemma C6_counterexample :
  Linter_Run (Linter_ nameless) tt = (Returns [issueAt "" "n.go" 1] None, tt)
  ∧ pipelineInput bareRunner [nameless] = [issueAt "" "n.go" 1]
  ∧ FromLinter (issueAt "" "n.go" 1) = ""
  ∧ Run bareRunner [nameless] = (([issueAt "" "n.go" 1], None), bareRunner, [""]).
Proof. repeat split. Qed.

End RunnerExamples.

(** ** The stage that excludes generated files *)

Section Generated.
Import result processors.
Context `{!gostrings.Unicode, !Filepath, !FileSystem}.
Implicit Types (p : AutogeneratedExclude) (i : Issue).

Lemma getOrCreateFileSummary_cached p i fs :
  fileSummaryCache p !! FilePath i = Some fs →
  getOrCreateFileSummary p i = (inr fs, p).
Proof. intros E. unfold getOrCreateFileSummary. by rewrite E. Qed.

(** A call never changes a summary that is already in the store, and never
    drops an entry of the cache. *)
Lemma getOrCreateFileSummary_keeps p i filePath fs s :
  fileSummaryCache p !! filePath = Some fs →
  summaries p !! fs = Some s →
  let p' := (getOrCreateFileSummary p i).2 in
  fileSummaryCache p' !! filePath = Some fs ∧ summaries p' !! fs = Some s.
Proof.
  intros Hc Hs. unfold getOrCreateFileSummary.
  destruct (fileSummaryCache p !! FilePath i) as [fs'|] eqn:E; [done|].
  assert (FilePath i ≠ filePath) as Hne by congruence.
  assert (fs < length (summaries p)) as Hlt by (by eapply lookup_lt_Some).
  case_bool_decide; simpl.
  { rewrite lookup_insert_ne by done. split; [done|]. by rewrite lookup_app_l. }
  destruct (getDoc (FilePath i)); simpl.
  - rewrite lookup_insert_ne by done. split; [done|]. by rewrite lookup_app_l.
  - rewrite lookup_insert_ne by done. split; [done|].
    rewrite list_lookup_insert_ne by lia. by rewrite lookup_app_l.
Qed.

Lemma shouldPassIssue_keeps p i filePath fs s :
  fileSummaryCache p !! filePath = Some fs →
  summaries p !! fs = Some s →
  let p' := (shouldPassIssue p i).2 in
  fileSummaryCache p' !! filePath = Some fs ∧ summaries p' !! fs = Some s.
Proof.
  intros Hc Hs. unfold shouldPassIssue.
  case_bool_decide; [done|]. destruct (isSpecialAutogeneratedFile _); [done|].
  pose proof (getOrCreateFileSummary_keeps p i filePath fs s Hc Hs) as Hk.
  by destruct (getOrCreateFileSummary p i) as [[err|fs'] p'].
Qed.

Lemma later_keeps p p' filePath fs s :
  later p p' →
  fileSummaryCache p !! filePath = Some fs →
  summaries p !! fs = Some s →
  fileSummaryCache p' !! filePath = Some fs ∧ summaries p' !! fs = Some s.
Proof.
  induction 1 as [p|p p' i _ IH]; [done|].
  intros Hc Hs. destruct (IH Hc Hs). by apply shouldPassIssue_keeps.
Qed.

(** A call that returns an error leaves the zero summary in the cache. *)
Lemma shouldPassIssue_error p i b err p' :
  shouldPassIssue p i = ((b, Some err), p') →
  b = false
  ∧ FromLinter i ≠ "typecheck"
  ∧ isSpecialAutogeneratedFile (FilePath i) = false
  ∧ fileSummaryCache p !! FilePath i = None
  ∧ (FilePath i = "" ∨ ∃ e, getDoc (FilePath i) = inl e)
  ∧ fileSummaryCache p' !! FilePath i = Some (length (summaries p))
  ∧ summaries p' = summaries p ++ [{| isGenerated := false |}].
Proof.
  unfold shouldPassIssue, getOrCreateFileSummary.
  case_bool_decide as Ht; [done|].
  destruct (isSpecialAutogeneratedFile _) eqn:Es; [done|].
  destruct (fileSummaryCache p !! FilePath i) as [fs|] eqn:E; [done|].
  case_bool_decide as Hp; simpl.
  - intros [= <- <- <-]. simpl. rewrite lookup_insert_eq. naive_solver.
  - destruct (getDoc (FilePath i)) as [e|doc] eqn:Ed; simpl; [|done].
    intros [= <- <- <-]. simpl. rewrite lookup_insert_eq.
    repeat split; try done. right. by exists e.
Qed.

Lemma memoizedZero_pass p i :
  memoizedZero p (FilePath i) →
  isSpecialAutogeneratedFile (FilePath i) = false →
  shouldPassIssue p i = ((true, None), p).
Proof.
  intros (fs & Hc & Hs) Hsp. unfold shouldPassIssue. rewrite Hsp.
  case_bool_decide; [done|].
  rewrite (getOrCreateFileSummary_cached _ _ _ Hc).
  by rewrite (list_lookup_total_correct _ _ _ Hs).
Qed.

Lemma filterIssuesErr_all_pass {S} (f : S → Issue → (bool * option error) * S)
    (this : S) (issues : list Issue) :
  Forall (λ i, f this i = ((true, None), this)) issues →
  filterIssuesErr issues f this = ((issues, None), this).
Proof.
  induction 1 as [|i issues Hi _ IH]; simpl; [done|]. by rewrite Hi, IH.
Qed.

(** C10.  When [shouldPassIssue] returns an error for an issue, the path
    of the issue was not in the cache before the call and is in the cache
    after it, with a summary that is the zero value (the entry is made
    before the file is read).  At any later moment an issue with the same
    path passes, without error and without a change to the processor: it
    finds that summary, which says the file is not generated; and a batch
    of such issues passes the stage whole. *)
Theorem C10_failed_file_passes p i b err p1 p2 (i' : Issue) :
  shouldPassIssue p i = ((b, Some err), p1) →
  later p1 p2 →
  FilePath i' = FilePath i →
  fileSummaryCache p !! FilePath i = None
  ∧ memoizedZero p1 (FilePath i)
  ∧ memoizedZero p2 (FilePath i)
  ∧ shouldPassIssue p2 i' = ((true, None), p2)
  ∧ (FromLinter i' ≠ "typecheck" →
     ∃ fs, getOrCreateFileSummary p2 i' = (inr fs, p2)
           ∧ summaries p2 !!! fs = {| isGenerated := false |})
  ∧ (∀ issues, Forall (λ j, FilePath j = FilePath i) issues →
       AutogeneratedExclude_Process p2 issues = ((issues, None), p2)).
Proof.
  intros E Hl Hp.
  destruct (shouldPassIssue_error _ _ _ _ _ E) as (_ & _ & Hsp & Hnone & _ & Hc & Hs).
  assert (memoizedZero p1 (FilePath i)) as Hm1.
  { exists (length (summaries p)). split; [done|].
    rewrite Hs. by rewrite lookup_app_r, Nat.sub_diag by lia. }
  assert (memoizedZero p2 (FilePath i)) as Hm2.
  { destruct Hm1 as (fs & Hc1 & Hs1). exists fs. by eapply later_keeps. }
  split; [done|]. split; [done|]. split; [done|]. split; [|split].
  - apply memoizedZero_pass; by rewrite Hp.
  - intros _. destruct Hm2 as (fs & Hc2 & Hs2). exists fs. split.
    + apply getOrCreateFileSummary_cached. by rewrite Hp.
    + by apply list_lookup_total_correct.
  - intros issues Hall. apply filterIssuesErr_all_pass.
    eapply Forall_impl; [exact Hall|]. intros j Hj. simpl in Hj.
    apply memoizedZero_pass; by rewrite Hj.
Qed.

Lemma consistent_new : consistent NewAutogeneratedExclude.
Proof. intros filePath fs E. simpl in E. by rewrite lookup_empty in E. Qed.

Lemma getOrCreateFileSummary_consistent p i :
  consistent p → consistent (getOrCreateFileSummary p i).2.
Proof.
  intros Hp. unfold getOrCreateFileSummary.
  destruct (fileSummaryCache p !! FilePath i) as [fs'|] eqn:E; [done|].
  assert (∀ filePath fs, fileSummaryCache p !! filePath = Some fs →
            fs < length (summaries p)) as Hlt.
  { intros filePath fs Hc. destruct (Hp _ _ Hc) as (s & Hs & _). by eapply lookup_lt_Some. }
  case_bool_decide as Hempty; simpl; [|destruct (getDoc (FilePath i)) as [e|doc] eqn:Ed; simpl].
  - intros filePath fs. simpl. rewrite lookup_insert. case_decide as Hpath.
    + intros [= <-]. eexists. split; [by rewrite lookup_app_r, Nat.sub_diag by lia|].
      intros Hne. exfalso. congruence.
    + intros Hc. destruct (Hp _ _ Hc) as (s & Hs & Hg). exists s.
      split; [|done]. rewrite lookup_app_l; [done|by eapply Hlt].
  - intros filePath fs. simpl. rewrite lookup_insert. case_decide as Hpath.
    + intros [= <-]. eexists. split; [by rewrite lookup_app_r, Nat.sub_diag by lia|].
      intros _ g. subst filePath. unfold classify. by rewrite Ed.
    + intros Hc. destruct (Hp _ _ Hc) as (s & Hs & Hg). exists s.
      split; [|done]. rewrite lookup_app_l; [done|by eapply Hlt].
  - intros filePath fs. simpl. rewrite lookup_insert. case_decide as Hpath.
    + intros [= <-]. eexists. split.
      * apply list_lookup_insert_eq. rewrite length_app. simpl. lia.
      * intros _ g. subst filePath. unfold classify. rewrite Ed. by intros [= <-].
    + intros Hc. destruct (Hp _ _ Hc) as (s & Hs & Hg). exists s.
      split; [|done]. pose proof (Hlt _ _ Hc).
      rewrite list_lookup_insert_ne by lia. by rewrite lookup_app_l.
Qed.

Lemma shouldPassIssue_consistent p i :
  consistent p → consistent (shouldPassIssue p i).2.
Proof.
  intros Hp. unfold shouldPassIssue.
  case_bool_decide; [done|]. destruct (isSpecialAutogeneratedFile _); [done|].
  pose proof (getOrCreateFileSummary_consistent p i Hp) as Hk.
  by destruct (getOrCreateFileSummary p i) as [[err|fs'] p'].
Qed.

Lemma shouldPassIssue_typecheck p i :
  FromLinter i = "typecheck" → shouldPassIssue p i = ((true, None), p).
Proof. intros E. unfold shouldPassIssue. by rewrite bool_decide_eq_true_2. Qed.

Lemma shouldPassIssue_generated p i :
  consistent p → FromLinter i ≠ "typecheck" → inGeneratedFile i →
  (shouldPassIssue p i).1 = (false, None).
Proof.
  intros Hp Ht Hg. unfold shouldPassIssue. rewrite bool_decide_eq_false_2 by done.
  destruct (isSpecialAutogeneratedFile (FilePath i)) eqn:Es; [done|].
  destruct Hg as [Hg|[Hne Hg]]; [congruence|].
  pose proof (getOrCreateFileSummary_consistent p i Hp) as Hk.
  unfold getOrCreateFileSummary in *.
  destruct (fileSummaryCache p !! FilePath i) as [fs|] eqn:E.
  - simpl. destruct (Hp _ _ E) as (s & Hs & Hc).
    rewrite (list_lookup_total_correct _ _ _ Hs). by rewrite (Hc Hne _ Hg).
  - rewrite bool_decide_eq_false_2 in * by done.
    unfold classify in Hg. destruct (getDoc (FilePath i)) as [e|doc]; [done|].
    injection Hg as Hg. simpl. rewrite Hg.
    rewrite list_lookup_total_insert_eq; [done|]. rewrite length_app. simpl. lia.
Qed.

(** What a filtering stage keeps, given a property of the receiver that
    the filter maintains. *)
Lemma filterIssuesErr_kept {S} (f : S → Issue → (bool * option error) * S)
    (I : S → Prop) (this this' : S) (issues kept : list Issue) :
  (∀ s i, I s → I (f s i).2) →
  I this →
  filterIssuesErr issues f this = ((kept, None), this') →
  (∀ i, i ∈ kept → i ∈ issues)
  ∧ (∀ i, i ∈ issues → (∀ s, I s → (f s i).1 = (true, None)) → i ∈ kept)
  ∧ (∀ i, (∀ s, I s → (f s i).1 = (false, None)) → i ∉ kept).
Proof.
  intros Hstep. revert this kept.
  induction issues as [|x issues IH]; intros this kept Hthis; simpl.
  - intros [= <- <-]. split; [done|]. split; [done|]. intros i _ E.
    by apply not_elem_of_nil in E.
  - pose proof (Hstep this x Hthis) as Hnext.
    destruct (f this x) as [[ok [err|]] s1] eqn:E1; [done|].
    destruct (filterIssuesErr issues f s1) as [[ret [err|]] s2] eqn:E2; [done|].
    intros [= <- <-]. destruct (IH s1 ret Hnext E2) as (IH1 & IH2 & IH3).
    split; [|split].
    + intros i Hi. destruct ok.
      * apply elem_of_cons in Hi as [->|Hi]; [left|right; by apply IH1].
      * right. by apply IH1.
    + intros i [->|Hi]%elem_of_cons Hpass.
      * specialize (Hpass this Hthis). rewrite E1 in Hpass. injection Hpass as ->. left.
      * specialize (IH2 i Hi Hpass). destruct ok; [by right|done].
    + intros i Hdrop Hi. destruct ok.
      * apply elem_of_cons in Hi as [->|Hi]; [|by apply (IH3 i)].
        specialize (Hdrop this Hthis). by rewrite E1 in Hdrop.
      * by apply (IH3 i).
Qed.

(** The stage on a consistent cache: what it keeps when it returns no
    error. *)
Lemma AutogeneratedExclude_Process_kept p issues kept p' :
  consistent p →
  AutogeneratedExclude_Process p issues = ((kept, None), p') →
  (∀ i, i ∈ kept → i ∈ issues)
  ∧ (∀ i, i ∈ issues → FromLinter i = "typecheck" → i ∈ kept)
  ∧ (∀ i, inGeneratedFile i → FromLinter i ≠ "typecheck" → i ∉ kept).
Proof.
  intros Hp E.
  destruct (filterIssuesErr_kept shouldPassIssue consistent p p' issues kept
              shouldPassIssue_consistent Hp E) as (K1 & K2 & K3).
  split; [done|]. split.
  - intros i Hi Ht. apply K2; [done|]. intros s _. by rewrite shouldPassIssue_typecheck.
  - intros i Hg Ht. apply K3. intros s Hs. by apply shouldPassIssue_generated.
Qed.

End Generated.

Section Pipeline.
Import result processors lint.
Context `{!LintContext}.

Lemma issuesAfter_app (pre post : list Processor) (issues : list Issue) :
  issuesAfter (pre ++ post) issues = issuesAfter post (issuesAfter pre issues).
Proof.
  unfold issuesAfter at 1. rewrite processIssues_app.
  pose proof (processIssues_issues pre issues [] ∅) as Hmid.
  destruct (processIssues pre issues [] ∅) as [[[mid pre'] sw1] stat1].
  simpl in Hmid. subst mid.
  pose proof (processIssues_issues post (issuesAfter pre issues) sw1 stat1) as Hout.
  by destruct (processIssues post _ sw1 stat1) as [[[? ?] ?] ?].
Qed.

Lemma issuesAfter_stage (p : Processor) (issues : list Issue) :
  issuesAfter [p] issues =
    match (Process p issues).1 with
    | (_, Some _) => issues
    | (newIssues, None) => newIssues
    end.
Proof.
  unfold issuesAfter. simpl. by destruct (Process p issues) as [[newIssues [err|]] p'].
Qed.

End Pipeline.

Section GeneratedInPipeline.
Import result processors lint.
Context `{!LintContext, !Stages, !gostrings.Unicode, !Filepath, !FileSystem, !Fsutils}.

(** The processors [NewRunner] installs: the stage that excludes generated
    files starts with an empty cache, and the stages built from the rules
    of the user come after it. *)
Lemma NewRunner_stages cfg ps :
  NewRunner cfg = inr ps →
  ∃ skipFilesProcessor skipDirsProcessor enabledLinters,
    ps = stagesBefore skipFilesProcessor skipDirsProcessor
         ++ [AutogeneratedExclude_Processor NewAutogeneratedExclude]
         ++ stagesAfter cfg enabledLinters.
Proof.
  unfold NewRunner.
  destruct (NewSkipFiles _ _) as [e|skipFilesProcessor]; [done|].
  destruct (NewSkipDirs _ _ _) as [e|skipDirsProcessor]; [done|].
  destruct GetEnabledLintersMap as [e|enabledLinters]; [done|].
  intros [= <-]. by exists skipFilesProcessor, skipDirsProcessor, enabledLinters.
Qed.

(** C8, as the code has it.  In the pipeline of [NewRunner] the stage that
    excludes generated files runs before the stages built from the
    exclude and include rules of the user.  When it returns no error, the
    later stages receive what it keeps: it keeps no issue of a generated
    file, whatever the rules are, except the issues of the linter
    [typecheck], which it keeps all. *)
Theorem C8_generated_dropped_before_rules cfg ps (issues : list Issue) :
  NewRunner cfg = inr ps →
  ∃ before after,
    ps = before ++ [AutogeneratedExclude_Processor NewAutogeneratedExclude] ++ after
    ∧ getExcludeProcessor (config.Issues_ cfg) ∈ after
    ∧ getExcludeRulesProcessor (config.Issues_ cfg) ∈ after
    ∧ ∀ kept p',
        AutogeneratedExclude_Process NewAutogeneratedExclude (issuesAfter before issues)
          = ((kept, None), p') →
        issuesAfter ps issues = issuesAfter after kept
        ∧ (∀ i, i ∈ kept → i ∈ issuesAfter before issues)
        ∧ (∀ i, i ∈ issuesAfter before issues → FromLinter i = "typecheck" → i ∈ kept)
        ∧ (∀ i, inGeneratedFile i → FromLinter i ≠ "typecheck" → i ∉ kept).
Proof.
  intros (skipFilesProcessor & skipDirsProcessor & enabledLinters & ->)%NewRunner_stages.
  exists (stagesBefore skipFilesProcessor skipDirsProcessor), (stagesAfter cfg enabledLinters).
  split; [done|]. split; [unfold stagesAfter; set_solver|].
  split; [unfold stagesAfter; set_solver|].
  intros kept p' E. split.
  - rewrite !issuesAfter_app, issuesAfter_stage. unfold Process. simpl. by rewrite E.
  - by apply (AutogeneratedExclude_Process_kept _ _ _ _ consistent_new E).
Qed.

End GeneratedInPipeline.

Section GeneratedExamples.
Import result processors lint examples.
#[local] Existing Instance unitContext.
#[local] Existing Instance passThrough.
#[local] Existing Instance asciiOnly.
#[local] Existing Instance simplePaths.
#[local] Existing Instance projectFiles.
#[local] Existing Instance literalPatterns.

Lemma C8_generated_dropped_before_rules_witness :
  NewRunner includingConfig = inr includingPipeline
  ∧ ∃ before after,
      includingPipeline
        = before ++ [AutogeneratedExclude_Processor NewAutogeneratedExclude] ++ after
      ∧ getExcludeProcessor (config.Issues_ includingConfig) ∈ after
      ∧ getExcludeRulesProcessor (config.Issues_ includingConfig) ∈ after
      ∧ ∀ kept p',
          AutogeneratedExclude_Process NewAutogeneratedExclude
            (issuesAfter before [issueAt "golint" "zz_generated.go" 5])
            = ((kept, None), p') →
          issuesAfter includingPipeline [issueAt "golint" "zz_generated.go" 5]
            = issuesAfter after kept
          ∧ (∀ i, i ∈ kept →
                  i ∈ issuesAfter before [issueAt "golint" "zz_generated.go" 5])
          ∧ (∀ i, i ∈ issuesAfter before [issueAt "golint" "zz_generated.go" 5] →
                  FromLinter i = "typecheck" → i ∈ kept)
          ∧ (∀ i, inGeneratedFile i → FromLinter i ≠ "typecheck" → i ∉ kept).
Proof.
  assert (NewRunner includingConfig = inr includingPipeline) as E by reflexivity.
  split; [exact E|].
  exact (C8_generated_dropped_before_rules includingConfig includingPipeline
           [issueAt "golint" "zz_generated.go" 5] E).
Defined.

(** The claim C8 as stated fails.  [zz_generated.go] starts with the
    comment [// Code generated by tool; DO NOT EDIT.] and is classified as
    generated; the configuration carries include and path rules for it;
    the issue a linter reports on its line 5 is dropped by the stage that
    excludes generated files, so that, whatever the configuration and the
    later stages are, they start from no issue at all; the pipeline
    returns nothing. *)
Lemma C8_counterexample :
  classify "zz_generated.go" = inr true
  ∧ (AutogeneratedExclude_Process NewAutogeneratedExclude
       [issueAt "golint" "zz_generated.go" 5]).1 = ([], None)
  ∧ (∀ (S : Stages) (cfg : config.Config) enabledLinters,
       issuesAfter
         ([AutogeneratedExclude_Processor NewAutogeneratedExclude]
          ++ @stagesAfter unitContext S cfg enabledLinters)
         [issueAt "golint" "zz_generated.go" 5]
       = issuesAfter (@stagesAfter unitContext S cfg enabledLinters) [])
  ∧ issuesAfter includingPipeline [issueAt "golint" "zz_generated.go" 5] = [].
Proof.
  assert ((Process (AutogeneratedExclude_Processor NewAutogeneratedExclude)
             [issueAt "golint" "zz_generated.go" 5]).1 = ([], None)) as E
    by (vm_compute; reflexivity).
  split; [vm_compute; reflexivity|]. split; [vm_compute; reflexivity|]. split.
  - intros S cfg enabledLinters. rewrite issuesAfter_app, issuesAfter_stage. by rewrite E.
  - vm_compute. reflexivity.
Qed.

Lemma C10_failed_file_passes_witness :
  let i := issueAt "golint" "missing.go" 1 in
  let i' := issueAt "govet" "missing.go" 9 in
  let p1 := (shouldPassIssue NewAutogeneratedExclude i).2 in
  (∃ err, shouldPassIssue NewAutogeneratedExclude i = ((false, Some err), p1))
  ∧ later p1 p1
  ∧ FilePath i' = FilePath i
  ∧ shouldPassIssue p1 i' = ((true, None), p1).
Proof.
  intros i i' p1.
  assert (∃ err, shouldPassIssue NewAutogeneratedExclude i = ((false, Some err), p1))
    as [err E] by (eexists; vm_compute; reflexivity).
  split; [by exists err|]. split; [constructor|]. split; [reflexivity|].
  exact (proj1 (proj2 (proj2 (proj2
    (C10_failed_file_passes NewAutogeneratedExclude i false err p1 p1 i' E
       (later_now p1) eq_refl))))).
Defined.

End GeneratedExamples.

(** ** The stage that skips directories *)

Section SkipDirsProofs.
Import result processors.
Context `{!Filepath, !Fsutils}.
Implicit Types (p : SkipDirs) (issue : Issue).

Lemma absArgs_elem runArgs acc l :
  absArgs runArgs acc = inr l →
  (∀ a, a ∈ acc → a ∈ l)
  ∧ (∀ arg abs, arg ∈ runArgs → filepath_Abs (argDir arg) = inr abs → abs ∈ l).
Proof.
  revert acc. induction runArgs as [|x runArgs IH]; intros acc; simpl.
  - intros [= <-]. split; [done|]. intros arg abs E. by apply not_elem_of_nil in E.
  - destruct (filepath_Abs (argDir x)) as [e|absArg] eqn:Ea; [done|].
    intros E. destruct (IH _ E) as [IH1 IH2]. split.
    + intros a Ha. apply IH1, elem_of_app. by left.
    + intros arg abs [->|Hin]%elem_of_cons Habs; [|by eapply IH2].
      apply IH1, elem_of_app. right. rewrite Ea in Habs. injection Habs as <-. left.
Qed.

Lemma NewSkipDirs_new patterns runArgs prefix p :
  NewSkipDirs patterns runArgs prefix = inr p →
  skippedDirsCache p = ∅
  ∧ skippedDirs p = ∅
  ∧ ∀ arg abs, arg ∈ runArgs → filepath_Abs (argDir arg) = inr abs → abs ∈ absArgsDirs p.
Proof.
  unfold NewSkipDirs.
  destruct (compilePatterns patterns []) as [e|patternsRe]; [done|].
  destruct (absArgs _ []) as [e|absArgsDirs] eqn:Ea; [done|].
  intros [= <-]. simpl. split; [done|]. split; [done|].
  intros arg abs Hin Habs. destruct runArgs as [|x runArgs].
  - by apply not_elem_of_nil in Hin.
  - change (absArgs (x :: runArgs) [] = inr absArgsDirs) in Ea.
    by eapply (proj2 (absArgs_elem _ _ _ Ea)).
Qed.








End SkipDirsProofs.

Section SkipDirsExamples.
Import result processors examples.
#[local] Existing Instance simplePaths.
#[local] Existing Instance literalPatterns.



End SkipDirsExamples.

(** ** Strings *)

Section Strings.
Import gostrings.
Implicit Types (s t m : string) (c : ascii).

Lemma HasPrefix_empty s : HasPrefix s "" = true.
Proof. by destruct s. Qed.

Lemma HasPrefix_of_empty m : HasPrefix "" m = true → m = "".
Proof. by destruct m. Qed.

Lemma HasPrefix_app s t m : HasPrefix s m = true → HasPrefix (s +:+ t) m = true.
Proof.
  revert m. induction s as [|c s IH]; intros [|b m]; simpl; try done.
  - by destruct t.
  - intros [? ?]%andb_prop. apply andb_true_intro. split; [done|by apply IH].
Qed.

Lemma Contains_app_l s t m : Contains s m = true → Contains (s +:+ t) m = true.
Proof.
  induction s as [|c s IH]; simpl.
  - rewrite orb_false_r. intros ->%HasPrefix_of_empty. destruct t; simpl; done.
  - intros [Hp|Hc]%orb_prop; apply orb_true_intro.
    + left. by apply (HasPrefix_app (String c s)).
    + right. by apply IH.
Qed.

Lemma Contains_app_r s t m : Contains t m = true → Contains (s +:+ t) m = true.
Proof.
  intros Ht. induction s as [|c s IH]; simpl; [done|].
  apply orb_true_intro. by right.
Qed.

Lemma mapLower_app s t : mapLower (s +:+ t) = mapLower s +:+ mapLower t.
Proof. induction s as [|c s IH]; simpl; [done|]. by rewrite IH. Qed.

Lemma allASCII_app s t : allASCII (s +:+ t) = allASCII s && allASCII t.
Proof. induction s as [|c s IH]; simpl; [done|]. by rewrite IH, andb_assoc. Qed.

(** Lower-casing leaves white space and the slash alone, and makes neither. *)
Lemma asciiSpace_lowerASCII c : asciiSpace (lowerASCII c) = asciiSpace c.
Proof.
  destruct c as [[] [] [] [] [] [] [] []]; reflexivity.
Qed.

Lemma lowerASCII_slash c : lowerASCII c = "/"%char → c = "/"%char.
Proof.
  destruct c as [[] [] [] [] [] [] [] []]; vm_compute; congruence.
Qed.

(** A phrase that is found in a string, and does not start with its first
    byte, is found in the rest. *)
Lemma Contains_tail c s m :
  Contains (String c s) m = true → firstByte m ≠ Some c → m ≠ "" →
  Contains s m = true.
Proof.
  simpl. intros [Hp|Hc]%orb_prop Hf Hm; [|done].
  destruct m as [|b m]; [done|]. simpl in *.
  apply andb_prop in Hp as [Hb _]. apply bool_decide_eq_true_1 in Hb. congruence.
Qed.

Lemma HasPrefix_Contains s m : HasPrefix s m = true → Contains s m = true.
Proof. intros E. destruct s; simpl in *; by rewrite E. Qed.

Lemma Contains_of_empty m : Contains "" m = true → m = "".
Proof. simpl. rewrite orb_false_r. apply HasPrefix_of_empty. Qed.

Lemma append_cons c s t : String c s +:+ t = String c (s +:+ t).
Proof. reflexivity. Qed.

Lemma append_empty_l s : "" +:+ s = s.
Proof. reflexivity. Qed.

Lemma append_assoc s t u : (s +:+ t) +:+ u = s +:+ (t +:+ u).
Proof. induction s as [|c s IH]; [done|]. by rewrite !append_cons, IH. Qed.

Lemma append_empty_r s : s +:+ "" = s.
Proof. induction s as [|c s IH]; [done|]. by rewrite append_cons, IH. Qed.

(** A phrase that starts a string extended by one byte, and does not end
    with that byte, starts the string. *)
Lemma HasPrefix_snoc s c m :
  HasPrefix (s +:+ String c "") m = true → lastByte m ≠ Some c →
  HasPrefix s m = true.
Proof.
  revert m. induction s as [|a s IH]; intros [|b m]; simpl; try done.
  - intros [Hb Hm]%andb_prop. apply HasPrefix_of_empty in Hm as ->.
    apply bool_decide_eq_true_1 in Hb as ->. done.
  - intros [Hb Hm]%andb_prop Hl. apply andb_true_intro. split; [done|].
    destruct m as [|d m]; [apply HasPrefix_empty|]. by apply IH.
Qed.

Lemma Contains_snoc s c m :
  Contains (s +:+ String c "") m = true → lastByte m ≠ Some c → m ≠ "" →
  Contains s m = true.
Proof.
  intros Hc Hl Hm. induction s as [|a s IH].
  - rewrite append_empty_l in Hc.
    change (HasPrefix (String c "") m || Contains "" m = true) in Hc.
    apply orb_prop in Hc as [Hc|Hc]; [|done].
    apply HasPrefix_Contains, (HasPrefix_snoc "" c m); done.
  - rewrite append_cons in Hc.
    change (HasPrefix (String a (s +:+ String c "")) m
            || Contains (s +:+ String c "") m = true) in Hc.
    change (HasPrefix (String a s) m || Contains s m = true).
    apply orb_prop in Hc as [Hc|Hc]; apply orb_true_intro.
    + left. by apply (HasPrefix_snoc (String a s) c m).
    + right. by apply IH.
Qed.

Lemma lastByte_Some_nonempty m z : lastByte m = Some z → m ≠ "".
Proof. by destruct m. Qed.

(** The bytes trimming cuts off stay what they are under lower-casing. *)
Lemma spaceByte_lowerASCII c :
  asciiSpace (lowerASCII c) || negb (isASCII (lowerASCII c))
  = asciiSpace c || negb (isASCII c).
Proof.
  destruct c as [[] [] [] [] [] [] [] []]; reflexivity.
Qed.

Lemma spaceBytes_mapLower sp : spaceBytes (mapLower sp) = spaceBytes sp.
Proof. induction sp as [|c sp IH]; simpl; [done|]. by rewrite spaceByte_lowerASCII, IH. Qed.

Lemma spaceBytes_app s t : spaceBytes (s +:+ t) = spaceBytes s && spaceBytes t.
Proof.
  induction s as [|c s IH]; [done|]. rewrite append_cons. simpl.
  by rewrite IH, andb_assoc.
Qed.

(** A byte that trimming cuts off is not an ASCII byte other than white
    space. *)
Lemma spaceByte_differs c z :
  asciiSpace c || negb (isASCII c) = true →
  isASCII z = true → asciiSpace z = false → z ≠ c.
Proof.
  intros Hc Hz Hnz ->. rewrite Hz, Hnz in Hc. done.
Qed.

(** A phrase that ends with an ASCII byte other than white space, found in
    a string followed by bytes that trimming cuts off, is found in the
    string. *)
Lemma Contains_spaces_r s sp m z :
  spaceBytes sp = true → lastByte m = Some z →
  isASCII z = true → asciiSpace z = false →
  Contains (s +:+ sp) m = true → Contains s m = true.
Proof.
  intros Hsp Hz Haz Hnz. revert s. induction sp as [|c sp IH]; intros s.
  - by rewrite append_empty_r.
  - simpl in Hsp. apply andb_prop in Hsp as [Hc Hsp].
    change (String c sp) with (String c "" +:+ sp). rewrite <- append_assoc.
    intros E. apply IH in E; [|done].
    apply Contains_snoc with c; [done| |by eapply lastByte_Some_nonempty].
    rewrite Hz. intros [= ->]. by eapply spaceByte_differs.
Qed.

(** The same at the other end. *)
Lemma Contains_spaces_l sp s m a :
  spaceBytes sp = true → firstByte m = Some a →
  isASCII a = true → asciiSpace a = false →
  Contains (sp +:+ s) m = true → Contains s m = true.
Proof.
  intros Hsp Ha Haa Hna. induction sp as [|c sp IH]; [done|].
  simpl in Hsp. apply andb_prop in Hsp as [Hc Hsp]. rewrite append_cons.
  intros E. apply IH; [done|].
  apply Contains_tail with c; [done| |by destruct m].
  rewrite Ha. intros [= ->]. by eapply spaceByte_differs.
Qed.

(** The loops of [TrimSpace] cut off ASCII white space, and nothing else. *)
Lemma trimStart_cut s :
  ∃ sp, s = sp +:+ (trimStart s).2 ∧ spaceBytes sp = true.
Proof.
  induction s as [|c s IH]; [by exists ""|]. simpl.
  destruct (isASCII c) eqn:Hc; simpl; [|by exists ""].
  destruct (asciiSpace c) eqn:Ec; [|by exists ""].
  destruct IH as (sp & E & Hsp). exists (String c sp).
  rewrite append_cons, <- E. simpl. by rewrite Ec, Hsp.
Qed.

Lemma trimStop_cut s :
  ∃ sp, s = (trimStop s).2 +:+ sp ∧ spaceBytes sp = true.
Proof.
  induction s as [|c s IH]; [by exists ""|].
  destruct IH as (sp & E & Hsp). simpl.
  destruct (trimStop s) as [[|] [|d r]] eqn:Et; simpl in *.
  - exists sp. by rewrite append_cons, <- E.
  - exists sp. by rewrite append_cons, <- E.
  - destruct (isASCII c) eqn:Hc; simpl.
    + destruct (asciiSpace c) eqn:Ec; simpl.
      * exists (String c sp). rewrite append_empty_l in *. subst s.
        simpl. by rewrite Ec, Hsp.
      * exists sp. by rewrite append_cons, <- E.
    + exists sp. by rewrite append_cons, <- E.
  - exists sp. by rewrite append_cons, <- E.
Qed.

Lemma dropCR_cut s : ∃ sp, s = bufio.dropCR s +:+ sp ∧ spaceBytes sp = true.
Proof.
  induction s as [|c s IH]; [by exists ""|].
  destruct s as [|d s].
  - simpl. case_bool_decide as Hc.
    + subst. by exists (String bufio.cr "").
    + by exists "".
  - destruct IH as (sp & E & Hsp). exists sp. split; [|done].
    change (bufio.dropCR (String c (String d s)))
      with (String c (bufio.dropCR (String d s))).
    rewrite append_cons. by rewrite <- E.
Qed.

End Strings.


(** ** The classifier of generated files *)

Section Classifier.
Import gostrings processors.
Context `{!gostrings.Unicode, !Filepath, !FileSystem}.
Implicit Types (s t m raw : string) (raws block : list string).

Lemma HasPrefix_cut s p : HasPrefix s p = true → s = p +:+ drop (String.length p) s.
Proof.
  revert s. induction p as [|b p IH]; intros [|c s]; simpl; try done.
  intros [Hb Hp]%andb_prop. apply bool_decide_eq_true_1 in Hb as ->.
  rewrite append_cons. f_equal. by apply IH.
Qed.

(** [TrimSpace] returns its argument without some bytes at its two ends,
    all of them bytes that trimming cuts off. *)
Lemma TrimSpace_cut s :
  ∃ sp1 sp2, s = sp1 +:+ TrimSpace s +:+ sp2
             ∧ spaceBytes sp1 = true ∧ spaceBytes sp2 = true.
Proof.
  unfold TrimSpace. destruct (trimStart_cut s) as (sp & E & Hsp).
  destruct (trimStart s) as [[|] rest]; simpl in E.
  - destruct (TrimFunc_IsSpace_cut rest) as (u1 & u2 & Eu & Hu1 & Hu2).
    exists (sp +:+ u1), u2. split; [|by rewrite spaceBytes_app, Hsp, Hu1].
    rewrite append_assoc. by rewrite <- Eu.
  - destruct (trimStop_cut rest) as (sp2 & E2 & Hsp2).
    destruct (trimStop rest) as [[|] r]; simpl in E2.
    + destruct (TrimRightFunc_IsSpace_cut r) as (u & Eu & Hu).
      exists sp, (u +:+ sp2). split; [|by rewrite spaceBytes_app, Hu, Hsp2].
      rewrite <- (append_assoc (TrimRightFunc_IsSpace r)). by rewrite <- Eu, <- E2.
    + exists sp, sp2. by rewrite <- E2.
Qed.

(** Cutting such bytes off a text loses no solid phrase. *)
Lemma Contains_trimmed s t sp1 sp2 m :
  s = sp1 +:+ t +:+ sp2 → spaceBytes sp1 = true → spaceBytes sp2 = true →
  solid m = true →
  Contains (mapLower s) m = true → Contains (mapLower t) m = true.
Proof.
  intros -> Hsp1 Hsp2 Hm. unfold solid in Hm.
  destruct (firstByte m) as [a|] eqn:Ea; [|done].
  destruct (lastByte m) as [z|] eqn:Ez; [|done].
  apply andb_prop in Hm as [[[[Haa Ha]%andb_prop _]%andb_prop Hzz]%andb_prop Hz].
  apply negb_true_iff in Ha, Hz.
  rewrite !mapLower_app. intros E.
  apply Contains_spaces_l with (a := a) in E; [|by rewrite spaceBytes_mapLower|done..].
  apply Contains_spaces_r with (z := z) in E; [done|by rewrite spaceBytes_mapLower|done..].
Qed.

Lemma lineOf_cut raw :
  ∃ sp1 sp2, raw = sp1 +:+ lineOf raw +:+ sp2
             ∧ spaceBytes sp1 = true ∧ spaceBytes sp2 = true.
Proof.
  destruct (dropCR_cut raw) as (sp & E & Hsp).
  destruct (TrimSpace_cut (bufio.dropCR raw)) as (sp1 & sp2 & E2 & Hsp1 & Hsp2).
  exists sp1, (sp2 +:+ sp). split; [|by rewrite spaceBytes_app, Hsp2, Hsp].
  transitivity ((sp1 +:+ lineOf raw +:+ sp2) +:+ sp).
  - unfold lineOf. by rewrite <- E2.
  - by rewrite !append_assoc.
Qed.

(** A solid phrase found, without regard to the case of ASCII letters, on a
    comment line is found in the text of the comment. *)
Lemma Contains_commentText raw m :
  isComment raw = true → solid m = true →
  Contains (mapLower raw) m = true →
  Contains (mapLower (commentText raw)) m = true.
Proof.
  intros Hc Hm E.
  destruct (lineOf_cut raw) as (sp1 & sp2 & E1 & Hsp1 & Hsp2).
  apply (Contains_trimmed _ _ _ _ _ E1 Hsp1 Hsp2 Hm) in E.
  unfold isComment in Hc. unfold commentText, TrimPrefix. rewrite Hc.
  apply HasPrefix_cut in Hc. simpl in Hc.
  set (rest := drop 2 (lineOf raw)) in *.
  assert (Contains (mapLower rest) m = true) as Er.
  { rewrite Hc in E. unfold solid in Hm.
    destruct (firstByte m) as [a|] eqn:Ea; [|done].
    destruct (lastByte m) as [z|] eqn:Ez; [|done].
    apply andb_prop in Hm as [[[_ Ha]%andb_prop _]%andb_prop _].
    apply negb_true_iff, bool_decide_eq_false_1 in Ha.
    assert (m ≠ "") as Hne by (by destruct m).
    assert (firstByte m ≠ Some "/"%char) as Hf by (rewrite Ea; congruence).
    change (mapLower ("//" +:+ rest)) with (String "/" (String "/" (mapLower rest))) in E.
    apply Contains_tail in E; [|done..]. by apply Contains_tail in E. }
  destruct (TrimSpace_cut rest) as (sp3 & sp4 & E3 & Hsp3 & Hsp4).
  by apply (Contains_trimmed _ _ _ _ _ E3 Hsp3 Hsp4 Hm).
Qed.

(** An ASCII phrase found in a text whose ASCII letters were lowered is
    found in the lower-cased text. *)
Lemma Contains_ToLower s m :
  allASCII m = true → Contains (mapLower s) m = true →
  Contains (ToLower s) m = true.
Proof.
  intros Hm E. unfold ToLower. destruct (allASCII s); [done|].
  by apply Map_ToLower_ascii.
Qed.

Lemma Join_cons e rest sep :
  Join (e :: rest) sep = match rest with [] => e | _ => e +:+ sep +:+ Join rest sep end.
Proof. by destruct rest. Qed.

Lemma Contains_Join (l : list string) sep text m :
  text ∈ l → Contains (mapLower text) m = true →
  Contains (mapLower (Join l sep)) m = true.
Proof.
  intros Hin E. induction l as [|e rest IH]; [by apply not_elem_of_nil in Hin|].
  rewrite Join_cons. apply elem_of_cons in Hin as [<-|Hin].
  - destruct rest; [done|]. rewrite mapLower_app. by apply Contains_app_l.
  - destruct rest as [|e' rest']; [by apply not_elem_of_nil in Hin|].
    rewrite !mapLower_app. apply Contains_app_r, Contains_app_r. by apply IH.
Qed.

(** The loop of [getDoc]: it fails when one of the lines it reads is too
    long, and otherwise collects the texts of the comment lines of the
    leading block. *)
Lemma getDocLines_spec raws (docLines : list string) :
  getDocLines raws docLines =
    if existsb (bufio.tooLong maxTokenSize) (linesRead raws) then None
    else Some (docLines
               ++ (commentText <$> filter (λ raw, isComment raw) (leadingBlock raws))).
Proof.
  revert docLines. induction raws as [|raw rest IH]; intros docLines; simpl.
  - by rewrite app_nil_r.
  - unfold inLeadingBlock, isComment. fold (lineOf raw).
    destruct (bufio.tooLong maxTokenSize raw) eqn:Et.
    { by destruct (_ || _ || _); simpl; rewrite Et. }
    destruct (HasPrefix (lineOf raw) "//") eqn:Ec; simpl.
    + rewrite Et, IH. simpl. destruct (existsb _ _); [done|].
      rewrite filter_cons_True by (unfold isComment; by rewrite Ec).
      simpl. by rewrite <- app_assoc.
    + destruct (bool_decide (lineOf raw = "") || HasPrefix (lineOf raw) "package") eqn:Eb;
        simpl; rewrite Et; simpl.
      * rewrite IH. destruct (existsb _ _); [done|].
        rewrite filter_cons_False; [done|]. unfold isComment. rewrite Ec. simpl. tauto.
      * by rewrite app_nil_r.
Qed.

Lemma leadingBlock_linesRead raws : leadingBlock (linesRead raws) = leadingBlock raws.
Proof.
  induction raws as [|raw rest IH]; simpl; [done|].
  destruct (inLeadingBlock raw) eqn:E; simpl; rewrite E; [by rewrite IH|done].
Qed.

Lemma linesRead_idem raws : linesRead (linesRead raws) = linesRead raws.
Proof.
  induction raws as [|raw rest IH]; simpl; [done|].
  destruct (inLeadingBlock raw) eqn:E; simpl; rewrite E; [by rewrite IH|done].
Qed.

Lemma getDoc_spec path content :
  os_Open path = inr content →
  getDoc path =
    if existsb (bufio.tooLong maxTokenSize) (linesRead (bufio.rawLines content))
    then inl (errorsWrapf bufio.ErrTooLong "failed to scan file" [])
    else inr (docOf (leadingBlock (bufio.rawLines content))).
Proof.
  intros E. unfold getDoc. rewrite E, getDocLines_spec.
  by destruct (existsb _ _).
Qed.

Lemma markers_solid :
  Forall (λ marker, solid marker = true ∧ allASCII marker = true) markers.
Proof. repeat constructor. Qed.

End Classifier.

(** ** The classifier and the characters of the text *)

Section ClassifierRunes.
Import gostrings processors.
Context `{!gostrings.Unicode, !gostrings.UnicodeRunes, !Filepath, !FileSystem}.
Implicit Types (s t m raw : string) (c : ascii) (raws block : list string).

(** On ASCII text [strings.Map] does what the fast path of [ToLower]
    does, so [ToLower] is [Map_ToLower] on every text. *)
Lemma Map_ToLower_cons c s :
  isASCII c = true → Map_ToLower (String c s) = String (lowerASCII c) (Map_ToLower s).
Proof.
  intros Hc. pose proof (Map_ToLower_byte "" c s Hc) as E.
  rewrite Map_ToLower_nil in E. exact E.
Qed.

Lemma Map_ToLower_allASCII s : allASCII s = true → Map_ToLower s = mapLower s.
Proof.
  induction s as [|c s IH]; simpl; [intros _; apply Map_ToLower_nil|].
  intros [Hc Hs]%andb_prop. by rewrite (Map_ToLower_cons _ _ Hc), IH.
Qed.

Lemma ToLower_Map s : ToLower s = Map_ToLower s.
Proof.
  unfold ToLower. destruct (allASCII s) eqn:E; [|done]. by rewrite Map_ToLower_allASCII.
Qed.

Lemma Map_ToLower_ascii_l sp s :
  allASCII sp = true → Map_ToLower (sp +:+ s) = mapLower sp +:+ Map_ToLower s.
Proof.
  induction sp as [|c sp IH]; [done|]. simpl allASCII. intros [Hc Hs]%andb_prop.
  rewrite append_cons, (Map_ToLower_cons _ _ Hc), IH by done. done.
Qed.

Lemma Map_ToLower_ascii_r s sp :
  allASCII sp = true → Map_ToLower (s +:+ sp) = Map_ToLower s +:+ mapLower sp.
Proof.
  destruct sp as [|c sp]; simpl.
  - intros _. by rewrite !append_empty_r.
  - intros [Hc Hs]%andb_prop. by rewrite (Map_ToLower_byte s c sp Hc), (Map_ToLower_allASCII sp Hs).
Qed.

(** What the two loops of [TrimSpace] step over is ASCII. *)
Lemma trimStart_ascii s : ∃ sp, s = sp +:+ (trimStart s).2 ∧ allASCII sp = true.
Proof.
  induction s as [|c s IH]; [by exists ""|]. simpl.
  destruct (isASCII c) eqn:Hc; simpl; [|by exists ""].
  destruct (asciiSpace c) eqn:Ec; [|by exists ""].
  destruct IH as (sp & E & Hsp). exists (String c sp).
  rewrite append_cons, <- E. simpl. by rewrite Hc, Hsp.
Qed.

Lemma trimStop_ascii s : ∃ sp, s = (trimStop s).2 +:+ sp ∧ allASCII sp = true.
Proof.
  induction s as [|c s IH]; [by exists ""|].
  destruct IH as (sp & E & Hsp). simpl.
  destruct (trimStop s) as [[|] [|d r]] eqn:Et; simpl in *.
  - exists sp. by rewrite append_cons, <- E.
  - exists sp. by rewrite append_cons, <- E.
  - destruct (isASCII c) eqn:Hc; simpl.
    + destruct (asciiSpace c) eqn:Ec; simpl.
      * exists (String c sp). rewrite append_empty_l in *. subst s.
        simpl. by rewrite Hc, Hsp.
      * exists sp. by rewrite append_cons, <- E.
    + exists sp. by rewrite append_cons, <- E.
  - exists sp. by rewrite append_cons, <- E.
Qed.

Lemma dropCR_ascii s : ∃ sp, s = bufio.dropCR s +:+ sp ∧ allASCII sp = true.
Proof.
  induction s as [|c s IH]; [by exists ""|].
  destruct s as [|d s].
  - simpl. case_bool_decide as Hc.
    + subst. by exists (String bufio.cr "").
    + by exists "".
  - destruct IH as (sp & E & Hsp). exists sp. split; [|done].
    change (bufio.dropCR (String c (String d s)))
      with (String c (bufio.dropCR (String d s))).
    rewrite append_cons. by rewrite <- E.
Qed.

(** The lowered text [t] is a part of the lowered text [s]. *)
Lemma Contains_part s l1 t l2 m :
  s = l1 +:+ t +:+ l2 → Contains t m = true → Contains s m = true.
Proof. intros -> E. by apply Contains_app_r, Contains_app_l. Qed.

Lemma Contains_lower_TrimSpace s m :
  Contains (Map_ToLower (TrimSpace s)) m = true → Contains (Map_ToLower s) m = true.
Proof.
  unfold TrimSpace. destruct (trimStart_ascii s) as (sp & E & Hsp).
  destruct (trimStart s) as [[|] rest]; simpl in E.
  - intros Hc. rewrite E, (Map_ToLower_ascii_l _ _ Hsp). apply Contains_app_r.
    destruct (Map_ToLower_TrimFunc rest) as (l1 & l2 & El). by eapply Contains_part.
  - destruct (trimStop_ascii rest) as (sp' & E' & Hsp').
    destruct (trimStop rest) as [[|] r]; simpl in E'; intros Hc;
      rewrite E, (Map_ToLower_ascii_l _ _ Hsp); apply Contains_app_r;
      rewrite E', (Map_ToLower_ascii_r _ _ Hsp'); apply Contains_app_l.
    + destruct (Map_ToLower_TrimRightFunc r) as (l & El). rewrite El.
      by apply Contains_app_l.
    + done.
Qed.

Lemma Contains_lower_dropCR s m :
  Contains (Map_ToLower (bufio.dropCR s)) m = true → Contains (Map_ToLower s) m = true.
Proof.
  intros Hc. destruct (dropCR_ascii s) as (sp & E & Hsp).
  rewrite E, (Map_ToLower_ascii_r _ _ Hsp). by apply Contains_app_l.
Qed.

Lemma Contains_lower_commentText raw m :
  isComment raw = true →
  Contains (Map_ToLower (commentText raw)) m = true →
  Contains (Map_ToLower raw) m = true.
Proof.
  intros Hc E. apply Contains_lower_dropCR. fold (lineOf raw) in *.
  apply Contains_lower_TrimSpace. fold (lineOf raw).
  unfold commentText in E. apply Contains_lower_TrimSpace in E.
  unfold isComment in Hc. unfold TrimPrefix in E. rewrite Hc in E.
  rewrite (HasPrefix_cut _ _ Hc). simpl String.length.
  rewrite (Map_ToLower_ascii_l "//" _ eq_refl). by apply Contains_app_r.
Qed.

(** A phrase without the byte [c] that is found in a text around [c] is
    found before or after it. *)
Lemma HasPrefix_sep s c t m :
  Contains m (String c "") = false →
  HasPrefix (s +:+ String c t) m = true → HasPrefix s m = true.
Proof.
  revert m. induction s as [|a s IH]; intros [|b m]; simpl; try done.
  - rewrite HasPrefix_empty, andb_true_r. intros [Hb _]%orb_false_elim [Hc _]%andb_prop.
    apply bool_decide_eq_true in Hc. subst. by rewrite bool_decide_eq_true_2 in Hb.
  - intros [_ Hm]%orb_false_elim [Ha Hp]%andb_prop. rewrite Ha. simpl. by apply IH.
Qed.

Lemma Contains_sep s c t m :
  Contains m (String c "") = false →
  Contains (s +:+ String c t) m = true →
  Contains s m = true ∨ Contains t m = true.
Proof.
  intros Hm. induction s as [|a s IH].
  - rewrite append_empty_l. intros [Hp|Hc]%orb_prop; [|by right].
    left. by apply HasPrefix_Contains, (HasPrefix_sep "" c t m Hm).
  - rewrite append_cons. intros [Hp|Hc]%orb_prop.
    + left. by apply HasPrefix_Contains, (HasPrefix_sep (String a s) c t m Hm).
    + destruct (IH Hc) as [Hs|Ht]; [left|by right].
      exact (Contains_app_r (String a "") s m Hs).
Qed.

Lemma Contains_lower_Join (texts : list string) m :
  m ≠ "" → Contains m (String bufio.newline "") = false →
  Contains (Map_ToLower (Join texts (String bufio.newline ""))) m = true →
  ∃ text, text ∈ texts ∧ Contains (Map_ToLower text) m = true.
Proof.
  intros Hne Hm. induction texts as [|e rest IH].
  - simpl. rewrite Map_ToLower_nil. by intros ?%Contains_of_empty.
  - rewrite Join_cons. destruct rest as [|e' rest'].
    + intros E. exists e. split; [left|done].
    + change (e +:+ String bufio.newline "" +:+ Join (e' :: rest') (String bufio.newline ""))
        with (e +:+ String bufio.newline (Join (e' :: rest') (String bufio.newline ""))).
      rewrite (Map_ToLower_byte e bufio.newline _ eq_refl).
      intros [He|Hr]%(Contains_sep _ _ _ _ Hm).
      * exists e. split; [left|done].
      * destruct (IH Hr) as (text & Hin & Ht). exists text. split; [by right|done].
Qed.

Lemma markers_plain :
  Forall (λ marker, marker ≠ "" ∧ Contains marker (String bufio.newline "") = false) markers.
Proof. repeat constructor; done. Qed.

(** When no comment line of the block contains a marker, in any case of
    its letters, the doc of the block contains none. *)
Lemma docOf_no_marker block :
  (∀ raw marker, raw ∈ block → isComment raw = true → marker ∈ markers →
     Contains (ToLower raw) marker = false) →
  existsb (λ marker, Contains (ToLower (docOf block)) marker) markers = false.
Proof.
  intros Hno. destruct (existsb _ markers) eqn:E; [|done].
  apply existsb_exists in E as (marker & Hm%list_elem_of_In & E).
  pose proof markers_plain as Hall. rewrite Forall_forall in Hall.
  destruct (Hall marker Hm) as [Hne Hnl].
  rewrite ToLower_Map in E. unfold docOf in E.
  apply (Contains_lower_Join _ _ Hne Hnl) in E as (text & Hin & E).
  apply list_elem_of_fmap in Hin as (raw & -> & Hraw).
  apply list_elem_of_filter in Hraw as [Hc Hraw].
  apply Is_true_eq_true in Hc.
  apply (Contains_lower_commentText _ _ Hc) in E.
  rewrite <- ToLower_Map, (Hno raw marker Hraw Hc Hm) in E. done.
Qed.

(** C7, as the code has it.  For a file that opens and whose lines, as far
    as they are read, fit the buffer, the classifier reads the leading
    block and the line that ends it, and nothing after: the doc is the
    text of the [//] lines of the block, the file is generated exactly
    when the lower-cased doc contains a marker, and two files that agree on
    the lines read are classified alike.  In particular, when a [//] line
    of the block contains a marker, in any case of its letters, the file
    is generated; and when no [//] line of the block contains a marker,
    in any case of its letters, the file is not generated, whatever the
    lines of the block that start with [package] and the lines after the
    block hold. *)
Theorem C7_leading_comments_decide path content :
  os_Open path = inr content →
  let raws := bufio.rawLines content in
  let block := leadingBlock raws in
  existsb (bufio.tooLong maxTokenSize) (linesRead raws) = false →
  getDoc path = inr (docOf block)
  ∧ classify path
    = inr (existsb (λ marker, Contains (ToLower (docOf block)) marker) markers)
  ∧ (∀ path' content',
       os_Open path' = inr content' →
       linesRead (bufio.rawLines content') = linesRead raws →
       classify path' = classify path)
  ∧ (∀ raw marker,
       raw ∈ block → isComment raw = true → marker ∈ markers →
       Contains (mapLower raw) marker = true →
       classify path = inr true)
  ∧ ((∀ raw marker,
        raw ∈ block → isComment raw = true → marker ∈ markers →
        Contains (ToLower raw) marker = false) →
     classify path = inr false).
Proof.
  intros Eopen raws block Hfit.
  assert (getDoc path = inr (docOf block)) as Edoc.
  { rewrite (getDoc_spec _ _ Eopen). fold raws. by rewrite Hfit. }
  assert (classify path
          = inr (existsb (λ marker, Contains (ToLower (docOf block)) marker) markers))
    as Eclass by (unfold classify; by rewrite Edoc).
  split; [done|]. split; [done|]. split; [|split].
  - intros path' content' Eopen' Hread. unfold classify at 1.
    rewrite (getDoc_spec _ _ Eopen'), Hread, Hfit.
    rewrite <- (leadingBlock_linesRead (bufio.rawLines content')), Hread.
    rewrite leadingBlock_linesRead. fold block. by rewrite Eclass.
  - intros raw marker Hraw Hc Hm E. rewrite Eclass. f_equal.
    apply existsb_exists. exists marker. split; [by apply list_elem_of_In|].
    pose proof markers_solid as Hall. rewrite Forall_forall in Hall.
    destruct (Hall marker Hm) as [Hsolid Hascii].
    apply Contains_ToLower; [done|].
    apply Contains_Join with (commentText raw).
    + apply list_elem_of_fmap. exists raw. split; [done|].
      apply list_elem_of_filter. split; [by rewrite Hc|done].
    + by apply Contains_commentText.
  - intros Hno. rewrite Eclass. f_equal. by apply docOf_no_marker.
Qed.

End ClassifierRunes.

Section ClassifierExamples.
Import gostrings processors examples.
#[local] Existing Instance asciiOnly.
#[local] Existing Instance asciiOnlyRunes.
#[local] Existing Instance simplePaths.
#[local] Existing Instance projectFiles.

(** [cased.go] has the marker in mixed case in the comment of its leading
    block and is generated; [late.go] has a marker after its first
    declaration only, no comment of its leading block contains one, and it
    is not generated. *)
Lemma C7_leading_comments_decide_witness :
  os_Open "cased.go" = inr (fileOf ["  // dO nOt EdIt  "; "package cased"])
  ∧ existsb (bufio.tooLong maxTokenSize)
      (linesRead (bufio.rawLines (fileOf ["  // dO nOt EdIt  "; "package cased"]))) = false
  ∧ getDoc "cased.go" = inr "dO nOt EdIt"
  ∧ classify "cased.go" = inr true
  ∧ leadingBlock
      (bufio.rawLines
         (fileOf ["// Package late."; "package late"; ""; "func G() {}"; "// DO NOT EDIT"]))
    = ["// Package late."; "package late"; ""]
  ∧ classify "late.go" = inr false.
Proof.
  assert (existsb (bufio.tooLong maxTokenSize)
            (linesRead (bufio.rawLines (fileOf ["  // dO nOt EdIt  "; "package cased"])))
          = false) as Hfit by (vm_compute; reflexivity).
  assert (os_Open "cased.go" = inr (fileOf ["  // dO nOt EdIt  "; "package cased"]))
    as Hopen by (vm_compute; reflexivity).
  destruct (C7_leading_comments_decide "cased.go"
              (fileOf ["  // dO nOt EdIt  "; "package cased"]) Hopen Hfit)
    as (Hdoc & _ & _ & Hmark & _).
  split; [exact Hopen|]. split; [exact Hfit|].
  split; [rewrite Hdoc; vm_compute; reflexivity|].
  split; [|split; [vm_compute; reflexivity|]].
  - apply (Hmark "  // dO nOt EdIt  " "do not edit").
    + vm_compute. left.
    + vm_compute. reflexivity.
    + vm_compute. right. left.
    + vm_compute. reflexivity.
  - assert (os_Open "late.go"
            = inr (fileOf ["// Package late."; "package late"; ""; "func G() {}";
                           "// DO NOT EDIT"])) as Hopen' by (vm_compute; reflexivity).
    assert (existsb (bufio.tooLong maxTokenSize)
              (linesRead (bufio.rawLines
                 (fileOf ["// Package late."; "package late"; ""; "func G() {}";
                          "// DO NOT EDIT"]))) = false) as Hfit'
      by (vm_compute; reflexivity).
    destruct (C7_leading_comments_decide "late.go" _ Hopen' Hfit') as (_ & _ & _ & _ & Hno).
    apply Hno. intros raw marker Hraw _ Hm.
    change (raw ∈ ["// Package late."; "package late"; ""]) in Hraw.
    change (marker ∈ ["code generated"; "do not edit"; "autogenerated file"]) in Hm.
    repeat (apply elem_of_cons in Hraw as [->|Hraw]);
      [| | |by apply not_elem_of_nil in Hraw];
      (repeat (apply elem_of_cons in Hm as [->|Hm]);
        [| | |by apply not_elem_of_nil in Hm]); vm_compute; reflexivity.
Defined.

(** The claim C7 as stated fails for a marker on the line of the package
    clause: the line belongs to the leading block, it contains [do not
    edit] in upper case, and the file is not classified as generated. *)
Lemma C7_counterexample :
  os_Open "pkgline.go"
    = inr (fileOf ["package main // Code generated by tool; DO NOT EDIT."; "func main() {}"])
  ∧ leadingBlock
      (bufio.rawLines
         (fileOf ["package main // Code generated by tool; DO NOT EDIT."; "func main() {}"]))
    = ["package main // Code generated by tool; DO NOT EDIT."]
  ∧ blockContainsMarker ["package main // Code generated by tool; DO NOT EDIT."]
  ∧ classify "pkgline.go" = inr false.
Proof.
  split; [vm_compute; reflexivity|]. split; [vm_compute; reflexivity|].
  split; [|vm_compute; reflexivity].
  exists "package main // Code generated by tool; DO NOT EDIT.", "do not edit".
  split; [left|]. split; [right; left|]. vm_compute. reflexivity.
Qed.

End ClassifierExamples.

(** * Further properties of the code

    Properties of the resolver, the runner and the two processors beyond
    those the specification states, and of four more parts of the
    repository: the analyzers of [govet], the arguments the root command
    parses first, the validation of the configuration of a custom build,
    and the linter [lll]. *)

(** ** The resolver: where the descriptors of the resolved map come from *)

Section ResolverMore.
Import config linter lintersdb.
Context `{!LintContext, !GoAnalysis, !PluginLoader}.
Implicit Types (es : EnabledSet) (v : Validator) (cfg lcfg : Linters) (lcs : list Config).

(** Where an entry of the map comes from, step by step. *)
Lemma applyEnable_lookup es ns m name lc :
  applyEnable es ns m !! name = Some lc →
  m !! name = Some lc
  ∨ ∃ n, n ∈ ns ∧ lc ∈ GetLinterConfigs (EnabledSet_m es) n ∧ Name lc = name.
Proof.
  revert m. induction ns as [|n ns IH]; intros m; simpl; [by left|].
  intros E. apply IH in E as [E|(n' & Hn' & Hlc & Hname)].
  - apply putAll_lookup in E as [[Hin Hname]|E]; [|by left].
    right. exists n. split; [by left|done].
  - right. exists n'. split; [by right|done].
Qed.

Lemma addPresets_lookup es ps m name lc :
  addPresets es ps m !! name = Some lc →
  m !! name = Some lc
  ∨ ∃ p, p ∈ ps ∧ lc ∈ GetAllLinterConfigsForPreset (EnabledSet_m es) p ∧ Name lc = name.
Proof.
  revert m. induction ps as [|p ps IH]; intros m; simpl; [by left|].
  intros E. apply IH in E as [E|(p' & Hp' & Hlc & Hname)].
  - apply putAll_lookup in E as [[Hin Hname]|E]; [|by left].
    right. exists p. split; [by left|done].
  - right. exists p'. split; [by right|done].
Qed.

Lemma addCustom_lookup es custom m name lc :
  addCustom es custom m !! name = Some lc →
  m !! name = Some lc
  ∨ ∃ entry, entry ∈ custom ∧ loadCustomLinterConfig es entry.1 entry.2 = inr lc
             ∧ Name lc = name.
Proof.
  revert m. induction custom as [|entry custom IH]; intros m; simpl; [by left|].
  intros E. apply IH in E as [E|(entry' & Hin & Hload & Hname)].
  - destruct (loadCustomLinterConfig es entry.1 entry.2) as [err|c] eqn:Hload; [by left|].
    destruct (decide (Name c = name)) as [Hc|Hc].
    + subst name. rewrite lookup_insert_eq in E. injection E as <-.
      right. exists entry. split; [by left|done].
    + rewrite lookup_insert_ne in E by done. by left.
  - right. exists entry'. split; [by right|done].
Qed.

Lemma addCustom_loaded es custom m entry c :
  entry ∈ custom → loadCustomLinterConfig es entry.1 entry.2 = inr c →
  Name c ∈ dom (addCustom es custom m).
Proof.
  revert m. induction custom as [|x custom IH]; intros m Hin Hload.
  - by apply elem_of_nil in Hin.
  - simpl. apply elem_of_cons in Hin as [<-|Hin].
    + rewrite Hload. apply (addCustom_dom es custom). rewrite dom_insert_L. set_solver.
    + by apply IH.
Qed.

Lemma addCustom_none es custom m :
  (∀ entry, entry ∈ custom → ∃ err, loadCustomLinterConfig es entry.1 entry.2 = inl err) →
  addCustom es custom m = m.
Proof.
  revert m. induction custom as [|x custom IH]; intros m Hall; [done|].
  simpl. destruct (Hall x) as [err ->]; [by left|].
  apply IH. intros entry Hin. apply Hall. by right.
Qed.

(** X1.  Every descriptor of the resolved map was put there by one of the four
    steps that add descriptors: the seed, a preset of the configuration, a
    name of the enable list, or a custom linter whose plugin loaded. *)
Theorem build_provenance es lcfg (enabledByDefaultLinters : list Config) name lc :
  build es lcfg enabledByDefaultLinters !! name = Some lc →
  seedSet es lcfg enabledByDefaultLinters !! name = Some lc
  ∨ (∃ p, p ∈ Presets lcfg ∧ lc ∈ GetAllLinterConfigsForPreset (EnabledSet_m es) p
          ∧ Name lc = name)
  ∨ (∃ n, n ∈ Enable lcfg ∧ lc ∈ GetLinterConfigs (EnabledSet_m es) n ∧ Name lc = name)
  ∨ (∃ entry, entry ∈ Custom (EnabledSet_cfg es)
              ∧ loadCustomLinterConfig es entry.1 entry.2 = inr lc ∧ Name lc = name).
Proof.
  unfold build. intros E.
  apply addCustom_lookup in E as [E|E]; [|by right; right; right].
  rewrite applyDisable_lookup in E. case_decide; [done|].
  apply applyEnable_lookup in E as [E|E]; [|by right; right; left].
  apply removeSlow_lookup in E as [E _].
  apply addPresets_lookup in E as [E|E]; [by left|by right; left].
Qed.

(** X2.  With [Fast], a slow linter is in the resolved map only if a name of the
    enable list resolves to it or it is a custom linter whose plugin
    loaded. *)
Theorem fast_keeps_no_slow es lcfg (enabledByDefaultLinters : list Config) name lc :
  Fast lcfg = true →
  build es lcfg enabledByDefaultLinters !! name = Some lc →
  IsSlowLinter lc = true →
  (∃ n, n ∈ Enable lcfg ∧ lc ∈ GetLinterConfigs (EnabledSet_m es) n ∧ Name lc = name)
  ∨ (∃ entry, entry ∈ Custom (EnabledSet_cfg es)
              ∧ loadCustomLinterConfig es entry.1 entry.2 = inr lc ∧ Name lc = name).
Proof.
  unfold build. intros Hfast E Hslow.
  apply addCustom_lookup in E as [E|E]; [|by right].
  rewrite applyDisable_lookup in E. case_decide; [done|].
  apply applyEnable_lookup in E as [E|E]; [|by left].
  apply removeSlow_lookup in E as [_ E]. rewrite E in Hslow; [done|]. by rewrite Hfast.
Qed.

(** X3.  A linter that a name of the disable list resolves to is not in the
    resolved map, whatever the seed, the presets and the enable list are,
    unless a custom linter of the same name was loaded. *)
Theorem disable_wins es lcfg (enabledByDefaultLinters : list Config) n lc :
  n ∈ Disable lcfg →
  lc ∈ GetLinterConfigs (EnabledSet_m es) n →
  (∀ entry c, entry ∈ Custom (EnabledSet_cfg es) →
     loadCustomLinterConfig es entry.1 entry.2 = inr c → Name c ≠ Name lc) →
  build es lcfg enabledByDefaultLinters !! Name lc = None.
Proof.
  intros Hn Hlc Hcustom.
  destruct (build es lcfg enabledByDefaultLinters !! Name lc) as [c|] eqn:E; [|done].
  exfalso. unfold build in E.
  apply addCustom_lookup in E as [E|(entry & Hin & Hload & Hname)].
  - rewrite applyDisable_lookup in E. rewrite decide_True in E; [done|].
    apply elem_of_resolved. by exists n, lc.
  - by apply (Hcustom entry c).
Qed.

(** X4.  A custom linter whose plugin loads is in the resolved map, also when
    the disable list names it or [Fast] is set and it is slow; its flags
    are those of its settings.  Custom linters whose plugins do not load
    change nothing. *)
Theorem custom_linters_added es lcfg (enabledByDefaultLinters : list Config) :
  (∀ entry c,
     entry ∈ Custom (EnabledSet_cfg es) →
     loadCustomLinterConfig es entry.1 entry.2 = inr c →
     Name c ∈ dom (build es lcfg enabledByDefaultLinters)
     ∧ EnabledByDefault c = Enabled entry.2
     ∧ IsSlow c = Slow entry.2
     ∧ OriginalURL c = OriginalUrl entry.2)
  ∧ ((∀ entry, entry ∈ Custom (EnabledSet_cfg es) →
        ∃ err, loadCustomLinterConfig es entry.1 entry.2 = inl err) →
     build es lcfg enabledByDefaultLinters =
       applyDisable es (Disable lcfg)
         (applyEnable es (Enable lcfg)
           (removeSlow (Fast lcfg)
             (addPresets es (Presets lcfg) (seedSet es lcfg enabledByDefaultLinters))))).
Proof.
  split.
  - intros entry c Hin Hload. split; [by eapply addCustom_loaded|].
    unfold loadCustomLinterConfig in Hload.
    destruct (GetAnalyzerPlugin es (Path entry.2)) as [err|analyzer]; [done|].
    by injection Hload as <-.
  - intros Hall. unfold build. by apply addCustom_none.
Qed.

End ResolverMore.

(** ** The resolver: the metalinter and the validation *)

Section ResolverMore2.
Import config linter lintersdb.
Context `{!LintContext, !GoAnalysis, !PluginLoader}.
Implicit Types (es : EnabledSet) (v : Validator) (cfg lcfg : Linters) (lcs : list Config).

Lemma deleteAll_lookup (lnts : list Linter) (m : gmap string Config) name :
  foldl (λ acc lnt, delete (Linter_Name lnt) acc) m lnts !! name
  = if decide (name ∈ Linter_Name <$> lnts) then None else m !! name.
Proof.
  revert m. induction lnts as [|x lnts IH]; intros m.
  - destruct (decide _) as [Hin|]; [by apply elem_of_nil in Hin|done].
  - simpl foldl. rewrite IH. rewrite fmap_cons.
    destruct (decide (name ∈ Linter_Name <$> lnts)) as [Hin|Hin].
    + by rewrite decide_True by set_solver.
    + destruct (decide (Linter_Name x = name)) as [<-|Hne].
      * rewrite lookup_delete_eq. by rewrite decide_True by set_solver.
      * rewrite lookup_delete_ne by done. by rewrite decide_False by set_solver.
Qed.

Lemma presetsOf_dom (lcs : list Config) (acc : gmap string bool) p :
  p ∈ dom (foldl (λ acc lc, foldl (λ acc p, <[p := true]> acc) acc (InPresets lc)) acc lcs)
  ↔ p ∈ dom acc ∨ ∃ lc, lc ∈ lcs ∧ p ∈ InPresets lc.
Proof.
  assert (∀ (ps : list string) (acc : gmap string bool),
            p ∈ dom (foldl (λ acc p, <[p := true]> acc) acc ps) ↔ p ∈ dom acc ∨ p ∈ ps)
    as Hinner.
  { induction ps as [|q ps IH]; intros acc'; simpl; [set_solver|].
    rewrite IH, dom_insert. set_solver. }
  revert acc. induction lcs as [|x lcs IH]; intros acc; simpl.
  - split; [by left|]. intros [?|(lc & Hin & _)]; [done|]. by apply elem_of_nil in Hin.
  - rewrite IH, Hinner. split.
    + intros [[?|?]|(lc & Hin & Hp)]; [by left|right; exists x; set_solver|].
      right. exists lc. set_solver.
    + intros [?|(lc & Hin & Hp)]; [by left; left|].
      apply elem_of_cons in Hin as [->|Hin]; [by left; right|]. right. by exists lc.
Qed.

(** X5.  [combineGoAnalysisLinters].  The linters it can combine are the
    [*goanalysis.Linter] values of the map whose load mode is not
    [LoadModeWholeProgram].  With at most one of them the map stays as it
    is.  With two or more the map gets, under the name of the metalinter,
    what [WithLoadForGoAnalysis] returns for a descriptor of the
    metalinter; the descriptor given to [WithLoadForGoAnalysis] is not
    enabled by default, is in the presets of the linters that are
    combined, and has no other name and no URL.  The combined linters are
    deleted by their names; every other entry stays. *)
Theorem combineGoAnalysisLinters_spec es (linters : gmap string Config) :
  let eligible := filter (λ lc, combinable lc) (map_to_list linters).*2 in
  let ml := goanalysis_NewMetaLinter (Linter_ <$> eligible) in
  let combined := combineGoAnalysisLinters es linters in
  (length eligible ≤ 1 → combined = linters)
  ∧ (1 < length eligible →
     (∃ mlConfig,
        combined !! Linter_Name ml = Some (WithLoadForGoAnalysis mlConfig)
        ∧ Linter_ mlConfig = ml
        ∧ EnabledByDefault mlConfig = false
        ∧ AlternativeNames mlConfig = []
        ∧ OriginalURL mlConfig = ""
        ∧ ∀ p, p ∈ InPresets mlConfig ↔ ∃ lc, lc ∈ eligible ∧ p ∈ InPresets lc)
     ∧ (∀ name, name ≠ Linter_Name ml →
          combined !! name
          = if decide (name ∈ Name <$> eligible) then None else linters !! name)).
Proof.
  intros eligible ml combined. subst combined. unfold combineGoAnalysisLinters.
  fold eligible. rewrite length_fmap. split.
  - intros Hle. by rewrite (proj2 (Nat.leb_le _ _) Hle).
  - intros Hlt. rewrite (proj2 (Nat.leb_gt _ _) Hlt). fold ml. split.
    + eexists. rewrite lookup_insert_eq. split; [reflexivity|]. simpl.
      split; [done|]. split; [done|]. split; [done|]. split; [done|]. intros p.
      rewrite list_elem_of_fmap. split.
      * intros ([p' b] & -> & Hin). apply elem_of_map_to_list in Hin.
        assert (p' ∈ dom (foldl (λ acc lc, foldl (λ acc p, <[p := true]> acc) acc (InPresets lc))
                            (∅ : gmap string bool) eligible)) as Hd
          by (apply elem_of_dom; eauto).
        apply presetsOf_dom in Hd as [Hd|Hd]; [|done]. by rewrite dom_empty in Hd.
      * intros Hp.
        assert (p ∈ dom (foldl (λ acc lc, foldl (λ acc p, <[p := true]> acc) acc (InPresets lc))
                           (∅ : gmap string bool) eligible)) as Hd
          by (apply presetsOf_dom; by right).
        apply elem_of_dom in Hd as [b Hb]. exists (p, b). split; [done|].
        by apply elem_of_map_to_list.
    + intros name Hne. rewrite lookup_insert_ne by done.
      rewrite deleteAll_lookup. rewrite <- list_fmap_compose. reflexivity.
Qed.

(** A descriptor is among the linters that are combined exactly when the
    map holds it and it passes the two tests. *)
Lemma elem_of_eligible (linters : gmap string Config) lc :
  lc ∈ filter (λ lc, combinable lc) (map_to_list linters).*2
  ↔ combinable lc = true ∧ ∃ name, linters !! name = Some lc.
Proof.
  rewrite list_elem_of_filter, list_elem_of_fmap. split.
  - intros [Hc ([name lc'] & -> & Hin)]. split; [by apply Is_true_eq_true|].
    exists name. by apply elem_of_map_to_list.
  - intros [Hc (name & Hin)]. split; [by rewrite Hc|].
    exists (name, lc). split; [done|]. by apply elem_of_map_to_list.
Qed.

Lemma violation_violates (m : Manager) cfg k e : violation m cfg k e → violates m cfg.
Proof.
  unfold violates. intros Hv.
  destruct Hv as [names Hu|He Hd|p Hp Hn|Hp He|Hd He Hp|name Hd Hh|name He Hh Hf|name He Hd].
  - by left.
  - right; left. done.
  - right; right; left. by exists p.
  - do 3 right; left. done.
  - do 4 right; left. done.
  - do 5 right; left. split; [done|]. by destruct (Disable cfg).
  - do 6 right; left. split; [done|]. split; [|done]. by destruct (Enable cfg).
  - do 7 right. by exists name.
Qed.

(** X6.  A configuration that violates none of the eight constraints passes the
    validation, and [Get] returns no error for it. *)
Theorem validation_accepts es :
  let v := EnabledSet_v es in
  let cfg := Linters_ (EnabledSet_cfg es) in
  ¬ violates (Validator_m v) cfg →
  validateEnabledDisabledLintersConfig v cfg = None
  ∧ ∀ optimize, (Get es optimize).2 = None.
Proof.
  intros v cfg Hn.
  assert (validateEnabledDisabledLintersConfig v cfg = None) as E.
  { destruct (validateEnabledDisabledLintersConfig v cfg) as [e|] eqn:E; [|done].
    apply validate_Some in E as (k & Hviol & _). exfalso. apply Hn.
    by eapply violation_violates. }
  split; [done|]. intros optimize. unfold Get. fold v cfg. by rewrite E.
Qed.

(** X7.  The error for names that do not resolve lists all of them, those of
    the enable list first, and is what [Get] returns. *)
Theorem unknown_linters_reported es :
  let v := EnabledSet_v es in
  let cfg := Linters_ (EnabledSet_cfg es) in
  let unknownNames :=
    filter (λ name, GetLinterConfigs (Validator_m v) name = []) (Enable cfg ++ Disable cfg) in
  unknownNames ≠ [] →
  ∀ optimize,
    Get es optimize =
      ([], Some (fmtErrorf
         "unknown linters: '%v', run 'golangci-lint help linters' to see the list of supported linters"
         [gostrings.Join unknownNames ","] None)).
Proof.
  intros v cfg unknownNames Hne optimize. unfold Get. fold v cfg.
  unfold validateEnabledDisabledLintersConfig. simpl.
  unfold validateLintersNames. fold unknownNames.
  destruct unknownNames; [done|]. reflexivity.
Qed.

End ResolverMore2.

(** ** The runner *)

Section RunnerMore.
Import result linter processors lint.
Context `{!LintContext}.

Lemma errorsJoin_Some acc (e1 e2 : error) : is_Some (errorsJoin [acc; Some e1; Some e2]).
Proof. unfold errorsJoin. destruct acc; simpl; eauto. Qed.

Lemma aggregate_None acc t :
  aggregate acc t = None ↔
  acc = None ∧ ∀ lc c ret, (lc, c, ret) ∈ t → ret.2 = None.
Proof.
  revert acc. induction t as [|[[lc c] [ret [err|]]] t IH]; intros acc; simpl.
  - split; [intros ->; split; [done|]|by intros [-> _]].
    intros ??? Hin. by apply elem_of_nil in Hin.
  - rewrite IH. split.
    + intros [E _]. destruct (errorsJoin_Some acc (cantRun lc) err) as [e He].
      by rewrite He in E.
    + intros [_ Hall]. specialize (Hall lc c (ret, Some err)). simpl in Hall.
      discriminate Hall. by left.
  - rewrite IH. split; intros [-> Hall]; (split; [done|]).
    + intros lc' c' ret' [[= -> -> ->]|Hin]%elem_of_cons; [done|by eapply Hall].
    + intros lc' c' ret' Hin. eapply Hall. by right.
Qed.

Lemma runLinterSafe_ok c lc :
  (runLinterSafe c lc).1.2 = None ↔
  ∃ issues c', Linter_Run (Linter_ lc) c = (Returns issues None, c').
Proof.
  unfold runLinterSafe.
  destruct (Linter_Run (Linter_ lc) c) as [[issues [err|]|recovered stack|panicData] c'];
    simpl; split; try done; try (intros (? & ? & [=])); eauto.
Qed.

(** X8.  The error [Run] returns is nil exactly when every linter returned
    without an error and without a panic. *)
Theorem Run_error_nil_iff r linters :
  (Run r linters).1.1.2 = None ↔
  ∀ lc c ret, (lc, c, ret) ∈ trace (Runner_lintCtx r) linters →
    ∃ issues c', Linter_Run (Linter_ lc) c = (Returns issues None, c').
Proof.
  rewrite Run_unfold. simpl. rewrite aggregate_None. split.
  - intros [_ Hall] lc c ret Hin. apply runLinterSafe_ok.
    rewrite <- (trace_result _ _ _ _ _ Hin). by eapply Hall.
  - intros Hall. split; [done|]. intros lc c ret Hin.
    rewrite (trace_result _ _ _ _ _ Hin). apply runLinterSafe_ok. by eapply Hall.
Qed.

(** X9.  When the linters give no issue, no processor is asked to process
    anything: [Run] returns no issue and leaves every processor as its
    [Finish] leaves it. *)
Theorem Run_without_issues r linters :
  pipelineInput r linters = [] →
  (Run r linters).1.1.1 = []
  ∧ Processors (Run r linters).1.2 = Finish <$> Processors r.
Proof.
  intros E. rewrite Run_unfold. simpl. rewrite E. done.
Qed.

Lemma processIssues_stages ps issues sw stat :
  (processIssues ps issues sw stat).1.2 = sw ++ (Processor_Name <$> ps)
  ∧ Processor_Name <$> (processIssues ps issues sw stat).1.1.2 = Processor_Name <$> ps.
Proof.
  revert issues sw stat. induction ps as [|p ps IH]; intros issues sw stat; simpl.
  - by rewrite app_nil_r.
  - unfold Process. destruct (Processor_Process p (Processor_this p) issues) as [[newIssues err] this].
    destruct err as [err|].
    + specialize (IH issues (TrackStage sw (Processor_Name p)) stat).
      destruct (processIssues ps issues _ stat) as [[[out rest'] sw'] stat'].
      simpl in *. destruct IH as [-> E]. unfold TrackStage.
      split; [by rewrite <- app_assoc|]. by f_equal.
    + specialize (IH newIssues (TrackStage sw (Processor_Name p))
                    (addStat stat (Processor_Name p) (length issues) (length newIssues))).
      destruct (processIssues ps newIssues _ _) as [[[out rest'] sw'] stat'].
      simpl in *. destruct IH as [-> E]. unfold TrackStage.
      split; [by rewrite <- app_assoc|]. by f_equal.
Qed.

Lemma processIssues_stat_other ps issues sw stat name :
  name ∉ Processor_Name <$> ps →
  (processIssues ps issues sw stat).2 !! name = stat !! name.
Proof.
  revert issues sw stat. induction ps as [|p ps IH]; intros issues sw stat Hn; [done|].
  rewrite fmap_cons in Hn. apply not_elem_of_cons in Hn as [Hne Hn]. simpl.
  destruct (Process p issues) as [[newIssues [err|]] p'].
  - specialize (IH issues (TrackStage sw (Processor_Name p)) stat Hn).
    by destruct (processIssues ps issues _ stat) as [[[out rest'] sw'] stat'].
  - specialize (IH newIssues (TrackStage sw (Processor_Name p))
                  (addStat stat (Processor_Name p) (length issues) (length newIssues)) Hn).
    destruct (processIssues ps newIssues _ _) as [[[out rest'] sw'] stat'].
    simpl in *. rewrite IH. unfold addStat. by rewrite lookup_insert_ne.
Qed.

Lemma processIssues_stat_at ps issues sw stat k p :
  NoDup (Processor_Name <$> ps) →
  ps !! k = Some p →
  stat !! Processor_Name p = None →
  (processIssues ps issues sw stat).2 !! Processor_Name p =
    match (Process p (issuesAfter (take k ps) issues)).1 with
    | (newIssues, None) =>
        Some {| inCount := Z.of_nat (length (issuesAfter (take k ps) issues));
                outCount := Z.of_nat (length newIssues) |}
    | (_, Some _) => None
    end.
Proof.
  revert issues sw stat k. induction ps as [|p0 ps IH]; intros issues sw stat k Hnd Hk Hstat;
    [done|].
  rewrite fmap_cons in Hnd. apply NoDup_cons in Hnd as [Hp0 Hnd].
  destruct k as [|k]; simpl in Hk.
  - injection Hk as ->. simpl take. unfold issuesAfter at 1 2. simpl.
    destruct (Process p issues) as [[newIssues [err|]] p'] eqn:EP; simpl.
    + pose proof (processIssues_stat_other ps issues (TrackStage sw (Processor_Name p)) stat
                    _ Hp0) as Ho.
      destruct (processIssues ps issues _ stat) as [[[out rest'] sw'] stat'].
      simpl in *. by rewrite Ho.
    + pose proof (processIssues_stat_other ps newIssues (TrackStage sw (Processor_Name p))
                    (addStat stat (Processor_Name p) (length issues) (length newIssues))
                    _ Hp0) as Ho.
      destruct (processIssues ps newIssues _ _) as [[[out rest'] sw'] stat'].
      simpl in *. rewrite Ho. unfold addStat. rewrite lookup_insert_eq, Hstat. done.
  - assert (Processor_Name p ≠ Processor_Name p0) as Hne.
    { intros E. apply Hp0. rewrite <- E. apply list_elem_of_fmap. exists p.
      split; [done|]. by eapply list_elem_of_lookup_2. }
    change (take (S k) (p0 :: ps)) with ([p0] ++ take k ps).
    rewrite issuesAfter_app, issuesAfter_stage. simpl.
    destruct (Process p0 issues) as [[newIssues [err|]] p'] eqn:EP; simpl.
    + specialize (IH issues (TrackStage sw (Processor_Name p0)) stat k Hnd Hk Hstat).
      by destruct (processIssues ps issues _ stat) as [[[out rest'] sw'] stat'].
    + specialize (IH newIssues (TrackStage sw (Processor_Name p0))
                    (addStat stat (Processor_Name p0) (length issues) (length newIssues))
                    k Hnd Hk).
      destruct (processIssues ps newIssues _ _) as [[[out rest'] sw'] stat'].
      simpl in *. apply IH. unfold addStat. by rewrite lookup_insert_ne.
Qed.

(** X10.  [processIssues] calls every processor once, in the order of the
    pipeline, whether or not processors before it returned an error.  When
    the names of the processors differ, the statistics hold, for every
    processor that returned no error, the number of issues it was given
    and the number it returned, and nothing for a processor that returned
    an error. *)
Theorem processIssues_every_stage ps issues :
  (processIssues ps issues [] ∅).1.2 = Processor_Name <$> ps
  ∧ Processor_Name <$> (processIssues ps issues [] ∅).1.1.2 = Processor_Name <$> ps
  ∧ (NoDup (Processor_Name <$> ps) →
     ∀ k p, ps !! k = Some p →
       (processIssues ps issues [] ∅).2 !! Processor_Name p =
         match (Process p (issuesAfter (take k ps) issues)).1 with
         | (newIssues, None) =>
             Some {| inCount := Z.of_nat (length (issuesAfter (take k ps) issues));
                     outCount := Z.of_nat (length newIssues) |}
         | (_, Some _) => None
         end).
Proof.
  destruct (processIssues_stages ps issues [] ∅) as [E1 E2].
  split; [done|]. split; [done|]. intros Hnd k p Hk.
  by apply processIssues_stat_at.
Qed.

End RunnerMore.

(** ** The stage that excludes generated files *)

Section GeneratedMore.
Import result processors.
Context `{!gostrings.Unicode, !Filepath, !FileSystem}.
Implicit Types (p : AutogeneratedExclude) (i : Issue).

Lemma later_consistent p p' : later p p' → consistent p → consistent p'.
Proof.
  induction 1 as [p|p p' i _ IH]; [done|].
  intros Hp. by apply shouldPassIssue_consistent, IH.
Qed.

Lemma getOrCreateFileSummary_entry p i fs p' :
  getOrCreateFileSummary p i = (inr fs, p') →
  fileSummaryCache p' !! FilePath i = Some fs.
Proof.
  unfold getOrCreateFileSummary.
  destruct (fileSummaryCache p !! FilePath i) as [fs'|] eqn:E.
  - by intros [= <- <-].
  - case_bool_decide; [done|]. destruct (getDoc (FilePath i)); [done|].
    intros [= <- <-]. simpl. by rewrite lookup_insert_eq.
Qed.

(** X11.  The errors of [getDoc], for files that are read without error
    once they are open.  When the file cannot be opened the error wraps
    the error of [os.Open].  When it opens, only the lines the scanner is
    asked for count, the leading block and the line that ends it: if one
    of them fills the buffer of 512 KiB the error wraps
    [bufio.ErrTooLong], whatever the comments before that line say;
    otherwise [getDoc] returns the doc of the leading block, however long
    the lines after these are. *)
Theorem getDoc_errors path :
  match os_Open path with
  | inl err => getDoc path = inl (errorsWrapf err "failed to open file" [])
  | inr content =>
      if existsb (bufio.tooLong maxTokenSize) (linesRead (bufio.rawLines content))
      then getDoc path = inl (errorsWrapf bufio.ErrTooLong "failed to scan file" [])
      else getDoc path = inr (docOf (leadingBlock (bufio.rawLines content)))
  end.
Proof.
  destruct (os_Open path) as [err|content] eqn:Eo.
  - unfold getDoc. by rewrite Eo.
  - rewrite (getDoc_spec _ _ Eo). by destruct (existsb _ _).
Qed.

(** X12.  [shouldPassIssue] returns an error exactly when the issue is not of
    the linter [typecheck], its file is not one of the special files, its
    path is not in the cache yet, and the path is empty or [getDoc] fails
    on it.  The error says that the path is missing, or wraps the error of
    [getDoc]; the issue does not pass; the cache has got an entry for the
    path. *)
Theorem shouldPassIssue_errors p i b err p' :
  shouldPassIssue p i = ((b, Some err), p') ↔
  FromLinter i ≠ "typecheck"
  ∧ isSpecialAutogeneratedFile (FilePath i) = false
  ∧ fileSummaryCache p !! FilePath i = None
  ∧ b = false
  ∧ p' = {| summaries := summaries p ++ [{| isGenerated := false |}];
            fileSummaryCache := <[FilePath i := length (summaries p)]> (fileSummaryCache p) |}
  ∧ ((FilePath i = "" ∧ err = fmtErrorf "no file path for issue" [] None)
     ∨ (FilePath i ≠ ""
        ∧ ∃ e, getDoc (FilePath i) = inl e
               ∧ err = errorsWrapf e "failed to get doc of file %s" [FilePath i])).
Proof.
  unfold shouldPassIssue, getOrCreateFileSummary.
  case_bool_decide as Ht; [naive_solver|].
  destruct (isSpecialAutogeneratedFile _) eqn:Es; [naive_solver|].
  destruct (fileSummaryCache p !! FilePath i) as [fs|] eqn:E; [naive_solver|].
  case_bool_decide as Hp; simpl.
  - split.
    + intros [= <- <- <-]. naive_solver.
    + intros (_ & _ & _ & -> & -> & [[_ ->]|[? _]]); done.
  - destruct (getDoc (FilePath i)) as [e|doc] eqn:Ed; simpl.
    + split.
      * intros [= <- <- <-]. repeat split; try done. right. split; [done|]. by exists e.
      * intros (_ & _ & _ & -> & -> & [[? _]|(_ & e' & [= <-] & ->)]); done.
    + split; [done|]. intros (_ & _ & _ & _ & _ & [[? _]|(_ & e' & [=] & _)]). done.
Qed.

(** X13.  The processor [NewAutogeneratedExclude] makes, at any later moment:
    for an issue that is not of the linter [typecheck], of a file that is
    not special, has a path and can be classified, [shouldPassIssue]
    returns without error, and the issue passes exactly when the file is
    not generated. *)
Theorem shouldPassIssue_verdict p i g :
  later NewAutogeneratedExclude p →
  FromLinter i ≠ "typecheck" →
  isSpecialAutogeneratedFile (FilePath i) = false →
  FilePath i ≠ "" →
  classify (FilePath i) = inr g →
  (shouldPassIssue p i).1 = (negb g, None).
Proof.
  intros Hl Ht Hs Hne Hg.
  assert (consistent p) as Hp by (eapply later_consistent; [done|apply consistent_new]).
  unfold shouldPassIssue. rewrite bool_decide_eq_false_2 by done. rewrite Hs.
  unfold getOrCreateFileSummary.
  destruct (fileSummaryCache p !! FilePath i) as [fs|] eqn:E.
  - simpl. destruct (Hp _ _ E) as (s & Hsum & Hc).
    rewrite (list_lookup_total_correct _ _ _ Hsum). by rewrite (Hc Hne _ Hg).
  - rewrite bool_decide_eq_false_2 by done.
    unfold classify in Hg. destruct (getDoc (FilePath i)) as [e|doc]; [done|].
    injection Hg as Hg. simpl. rewrite Hg.
    rewrite list_lookup_total_insert_eq; [done|]. rewrite length_app. simpl. lia.
Qed.

End GeneratedMore.

Section GeneratedMemo.
Import result processors.
Context `{!gostrings.Unicode, !Filepath, !FileSystem}.
Implicit Types (p : AutogeneratedExclude) (i : Issue).

(** X14.  The verdict on a file is memoized.  Take the processor
    [NewAutogeneratedExclude] makes, at any later moment, and an issue, not
    of the linter [typecheck], for which [shouldPassIssue] returns a
    verdict without error.  At any moment after that call an issue of the
    same file gets the same verdict and the processor stays as it is; the
    file is not opened again: the same holds whatever [os.Open] returns by
    then. *)
Theorem shouldPassIssue_memoized (later_Open : string → error + string)
    p0 i b p1 p2 (i' : Issue) :
  later NewAutogeneratedExclude p0 →
  FromLinter i ≠ "typecheck" →
  shouldPassIssue p0 i = ((b, None), p1) →
  later p1 p2 →
  FilePath i' = FilePath i →
  FromLinter i' ≠ "typecheck" →
  @shouldPassIssue _ _ {| os_Open := later_Open |} p2 i' = ((b, None), p2).
Proof.
  intros Hl0 Ht E Hl Hpath Ht'.
  assert (consistent p1) as Hp1.
  { assert (consistent p0) as Hp0 by (eapply later_consistent; [done|apply consistent_new]).
    pose proof (shouldPassIssue_consistent p0 i Hp0) as Hc. by rewrite E in Hc. }
  unfold shouldPassIssue in E |- *.
  rewrite bool_decide_eq_false_2 in E by done. rewrite bool_decide_eq_false_2 by done.
  rewrite Hpath. destruct (isSpecialAutogeneratedFile (FilePath i)) eqn:Es.
  { by injection E as <- <-. }
  destruct (getOrCreateFileSummary p0 i) as [[err|fs] p1'] eqn:Eg; [done|].
  injection E as <- ->.
  pose proof (getOrCreateFileSummary_entry _ _ _ _ Eg) as Hc1.
  destruct (Hp1 _ _ Hc1) as (s & Hs1 & _).
  destruct (later_keeps _ _ _ _ _ Hl Hc1 Hs1) as [Hc2 Hs2].
  unfold getOrCreateFileSummary. rewrite Hpath, Hc2. simpl.
  rewrite (list_lookup_total_correct _ _ _ Hs1), (list_lookup_total_correct _ _ _ Hs2).
  done.
Qed.

End GeneratedMemo.

(** ** The stage that skips directories *)

Section SkipDirsMore.
Import result processors.
Context `{!Filepath, !Fsutils}.
Implicit Types (p : SkipDirs) (issue : Issue).

Lemma existsb_find {A} (f : A → bool) (l : list A) :
  existsb f l = match List.find f l with Some _ => true | None => false end.
Proof. induction l as [|x l IH]; simpl; [done|]. by destruct (f x). Qed.

Lemma existsb_elem (l : list string) (x : string) :
  existsb (λ y, bool_decide (y = x)) l = bool_decide (x ∈ l).
Proof.
  induction l as [|y l IH].
  - symmetry. apply bool_decide_eq_false_2. apply not_elem_of_nil.
  - simpl. rewrite IH.
    destruct (decide (y = x)) as [->|Hne], (decide (x ∈ l)) as [Hin|Hin].
    all: repeat first [ rewrite bool_decide_eq_true_2 by set_solver
                      | rewrite bool_decide_eq_false_2 by set_solver ]; done.
Qed.

Lemma shouldPassIssueDirs_decision p issueRelDir issueAbsDir :
  (shouldPassIssueDirs p issueRelDir issueAbsDir).1 = negb (skipsDir p issueRelDir issueAbsDir).
Proof.
  unfold shouldPassIssueDirs, skipsDir. rewrite existsb_elem, existsb_find.
  case_bool_decide; simpl; [done|]. by destruct (List.find _ _).
Qed.

Lemma SkipDirs_exact_refl p :
  skippedDirsCache p = ∅ → skippedDirs p = ∅ → SkipDirs_exact p p.
Proof.
  intros Hc Hs. repeat split; try done.
  - intros dir toPass E. by rewrite Hc, lookup_empty in E.
  - intros dir st E. by rewrite Hs, lookup_empty in E.
Qed.

Lemma skipCount_countSkipped p dir dir' :
  is_Some (skippedDirs p !! dir) →
  skipCount (countSkipped p dir) dir'
  = (skipCount p dir' + if bool_decide (dir' = dir) then 1 else 0)%Z.
Proof.
  intros [st Hst]. unfold skipCount, countSkipped. simpl. rewrite lookup_alter.
  case_bool_decide as Hd.
  - subst. rewrite decide_True by done. rewrite Hst. done.
  - rewrite decide_False by done. lia.
Qed.

Lemma skipCount_cacheDir p dir toPass dir' :
  skipCount (cacheDir p dir toPass) dir' = skipCount p dir'.
Proof. reflexivity. Qed.

Lemma initSkipped_spec p dir ps :
  patterns (initSkipped p dir ps) = patterns p
  ∧ absArgsDirs (initSkipped p dir ps) = absArgsDirs p
  ∧ pathPrefix (initSkipped p dir ps) = pathPrefix p
  ∧ skippedDirsCache (initSkipped p dir ps) = skippedDirsCache p
  ∧ skippedDirs (initSkipped p dir ps)
    = match skippedDirs p !! dir with
      | Some _ => skippedDirs p
      | None => <[dir := {| pattern := ps; count := 0 |}]> (skippedDirs p)
      end.
Proof. unfold initSkipped. by destruct (skippedDirs p !! dir). Qed.

(** One call of [shouldPassIssue] on a processor whose caches agree with
    the decisions. *)
Lemma SkipDirs_shouldPassIssue_exact p0 p issue :
  SkipDirs_exact p0 p →
  let dir := filepath_Dir (FilePath issue) in
  let '(toPass, p') := SkipDirs_shouldPassIssue p issue in
  SkipDirs_exact p0 p'
  ∧ toPass = passesDirs p0 issue
  ∧ (∀ dir', skipCount p' dir'
             = (skipCount p dir'
                + if toPass then 0 else if bool_decide (dir' = dir) then 1 else 0)%Z)
  ∧ (toPass = false → is_Some (skippedDirs p' !! dir)).
Proof.
  intros (Hpat & Hargs & Hpre & Hcache & Hstat) dir.
  unfold SkipDirs_shouldPassIssue, passesDirs. fold dir.
  destruct (filepath_IsAbs (FilePath issue)).
  { split; [done|]. split; [done|]. split; [intros; unfold skipCount; simpl; lia|done]. }
  destruct (skippedDirsCache p !! dir) as [[|]|] eqn:Ec.
  - destruct (Hcache _ _ Ec) as (abs & Habs & Hdec & _). rewrite Habs.
    split; [done|]. split; [done|]. split; [intros; unfold skipCount; simpl; lia|done].
  - destruct (Hcache _ _ Ec) as (abs & Habs & Hdec & Hsome). rewrite Habs.
    specialize (Hsome eq_refl). split; [|split; [done|split]].
    + repeat split; try done.
      * intros dir' toPass E. simpl in E. destruct (Hcache _ _ E) as (abs' & ? & ? & Hs).
        exists abs'. split; [done|]. split; [done|]. intros Hf. simpl.
        rewrite lookup_alter. case_decide as Hd; [|by apply Hs].
        subst dir'. destruct Hsome as [st ->]. done.
      * intros dir' st. simpl. rewrite lookup_alter. case_decide as Hd.
        -- subst dir'. destruct Hsome as [st0 Hst0]. rewrite Hst0. simpl.
           intros [= <-]. simpl. by apply Hstat.
        -- apply Hstat.
    + intros dir'. by apply skipCount_countSkipped.
    + intros _. simpl. rewrite lookup_alter_eq. destruct Hsome as [st ->]. done.
  - destruct (filepath_Abs dir) as [e|abs] eqn:Ea.
    { split; [done|]. split; [done|]. split; [intros; unfold skipCount; simpl; lia|done]. }
    pose proof (shouldPassIssueDirs_decision p dir abs) as Hdec.
    assert (skipsDir p dir abs = skipsDir p0 dir abs) as Hsame
      by (unfold skipsDir; by rewrite Hpat, Hargs, Hpre).
    unfold shouldPassIssueDirs in *. rewrite existsb_elem in *.
    case_bool_decide as Hin; simpl in *.
    { split; [|split; [by rewrite <- Hsame, <- Hdec|split; [intros; unfold skipCount; simpl; lia|done]]].
      repeat split; try done.
      - intros dir' toPass. simpl. rewrite lookup_insert. case_decide as Hd.
        + intros [= <-]. subst dir'. exists abs. split; [done|].
          split; [by rewrite <- Hsame, <- Hdec|done].
        + apply Hcache. }
    rewrite Hpat, Hpre in *.
    destruct (List.find _ (patterns p0)) as [r|] eqn:Ef; simpl in *.
    + destruct (initSkipped_spec p dir (Regexp_String r)) as (Ip & Ia & Ix & Ic & Is).
      set (q := initSkipped p dir (Regexp_String r)) in *.
      assert (∃ st, skippedDirs q !! dir = Some st ∧ pattern st = Regexp_String r
                    ∧ skipCount q dir = skipCount p dir) as (st & Hq & Hqp & Hqc).
      { rewrite Is. unfold skipCount. rewrite Is.
        destruct (skippedDirs p !! dir) as [st0|] eqn:Es.
        - exists st0. split; [done|]. split; [|by rewrite Es].
          destruct (Hstat _ _ Es) as (r' & Hr' & ->). congruence.
        - eexists. rewrite lookup_insert_eq. split; [done|]. done. }
      assert (∀ dir', dir' ≠ dir → skippedDirs q !! dir' = skippedDirs p !! dir') as Hother.
      { intros dir' Hd. rewrite Is. destruct (skippedDirs p !! dir); [done|].
        by rewrite lookup_insert_ne. }
      split; [|split; [by rewrite <- Hsame, <- Hdec|split]].
      * split; [by rewrite <- Hpat, <- Ip|]. split; [by rewrite <- Hargs, <- Ia|].
        split; [by rewrite <- Hpre, <- Ix|]. split.
        -- intros dir' toPass. simpl. rewrite lookup_insert. case_decide as Hd.
           ++ intros [= <-]. subst dir'. exists abs. split; [done|].
              split; [by rewrite <- Hsame, <- Hdec|]. intros _.
              rewrite lookup_alter_eq, Hq. done.
           ++ rewrite Ic. intros E. destruct (Hcache _ _ E) as (abs' & ? & ? & Hs).
              exists abs'. split; [done|]. split; [done|]. intros Hf.
              rewrite lookup_alter_ne by done. rewrite Hother by done. by apply Hs.
        -- intros dir' st'. simpl. rewrite lookup_alter. case_decide as Hd.
           ++ subst dir'. rewrite Hq. simpl. intros [= <-]. simpl. by exists r.
           ++ rewrite Hother by done. apply Hstat.
      * intros dir'. rewrite skipCount_cacheDir.
        rewrite skipCount_countSkipped by (by rewrite Hq).
        case_bool_decide as Hd; [subst dir'; by rewrite Hqc|].
        unfold skipCount. by rewrite Hother.
      * intros _. simpl. rewrite lookup_alter_eq, Hq. done.
    + split; [|split; [by rewrite <- Hsame, <- Hdec|split; [intros; unfold skipCount; simpl; lia|done]]].
      repeat split; try done.
      intros dir' toPass. simpl. rewrite lookup_insert. case_decide as Hd.
      * intros [= <-]. subst dir'. exists abs. split; [done|].
        split; [by rewrite <- Hsame, <- Hdec|done].
      * apply Hcache.
Qed.

Lemma SkipDirs_exact_new skipDirs runArgs prefix p0 :
  NewSkipDirs skipDirs runArgs prefix = inr p0 → SkipDirs_exact p0 p0.
Proof.
  intros (Hc & Hs & _)%NewSkipDirs_new. by apply SkipDirs_exact_refl.
Qed.

Lemma SkipDirs_later_exact p0 p p' :
  SkipDirs_later p p' → SkipDirs_exact p0 p → SkipDirs_exact p0 p'.
Proof.
  induction 1 as [p|p p' issue _ IH]; [done|].
  intros Hp. pose proof (SkipDirs_shouldPassIssue_exact p0 p' issue (IH Hp)) as Hs.
  destruct (SkipDirs_shouldPassIssue p' issue) as [toPass p'']. by destruct Hs.
Qed.

(** X15.  The caches of the processor do not change its decisions.  Take the
    processor [NewSkipDirs] makes, at any later moment.  An issue with an
    absolute path passes; an issue whose directory cannot be made absolute
    passes; any other issue is dropped exactly when no analysis argument
    stands for its directory and one of the patterns matches the
    directory, with the path prefix put before it. *)
Theorem SkipDirs_decision skipDirs runArgs prefix p0 p issue :
  NewSkipDirs skipDirs runArgs prefix = inr p0 →
  SkipDirs_later p0 p →
  (SkipDirs_shouldPassIssue p issue).1 = passesDirs p0 issue.
Proof.
  intros Hnew Hl.
  pose proof (SkipDirs_later_exact p0 _ _ Hl (SkipDirs_exact_new _ _ _ _ Hnew)) as Hp.
  pose proof (SkipDirs_shouldPassIssue_exact p0 p issue Hp) as Hs.
  destruct (SkipDirs_shouldPassIssue p issue) as [toPass p']. by destruct Hs as (_ & -> & _).
Qed.

Lemma SkipDirs_calls_count p0 p issues dir :
  SkipDirs_exact p0 p →
  SkipDirs_exact p0 (SkipDirs_calls p issues)
  ∧ skipCount (SkipDirs_calls p issues) dir
    = (skipCount p dir
       + Z.of_nat (length (filter
           (λ issue, negb (passesDirs p0 issue)
                     && bool_decide (filepath_Dir (FilePath issue) = dir)) issues)))%Z.
Proof.
  revert p. induction issues as [|issue issues IH]; intros p Hp.
  - split; [done|]. simpl. lia.
  - unfold SkipDirs_calls. simpl foldl. fold (SkipDirs_calls (SkipDirs_shouldPassIssue p issue).2 issues).
    pose proof (SkipDirs_shouldPassIssue_exact p0 p issue Hp) as Hs.
    destruct (SkipDirs_shouldPassIssue p issue) as [toPass p'] eqn:E.
    destruct Hs as (Hp' & Hdec & Hcount & _). simpl.
    destruct (IH p' Hp') as [Hex ->]. split; [done|]. rewrite Hcount.
    rewrite filter_cons. rewrite <- Hdec.
    destruct toPass; simpl; [by rewrite Z.add_0_r|].
    destruct (decide (filepath_Dir (FilePath issue) = dir)) as [Hd|Hd].
    + rewrite (bool_decide_eq_true_2 (dir = _)) by done.
      rewrite (bool_decide_eq_true_2 (_ = dir)) by done. simpl.
      rewrite Nat2Z.inj_succ. lia.
    + rewrite (bool_decide_eq_false_2 (dir = _)) by done.
      rewrite (bool_decide_eq_false_2 (_ = dir)) by done. simpl.
      by rewrite Z.add_0_r.
Qed.

(** X16.  The statistics [Finish] logs count the skipped issues.  After the
    processor [NewSkipDirs] makes has been asked about a sequence of
    issues, the statistics hold, for every directory, the number of issues
    of the sequence that are in the directory and were dropped, and the
    pattern they name for a directory is the first one that matches it. *)
Theorem SkipDirs_statistics skipDirs runArgs prefix p0 issues :
  NewSkipDirs skipDirs runArgs prefix = inr p0 →
  let p := SkipDirs_calls p0 issues in
  (∀ dir,
     skipCount p dir
     = Z.of_nat (length (filter
         (λ issue, negb (passesDirs p0 issue)
                   && bool_decide (filepath_Dir (FilePath issue) = dir)) issues)))
  ∧ (∀ dir st,
       skippedDirs p !! dir = Some st →
       count st = skipCount p dir
       ∧ ∃ r, List.find (λ pattern, MatchString pattern (WithPathPrefix prefix dir))
                (patterns p0) = Some r
              ∧ pattern st = Regexp_String r).
Proof.
  intros Hnew p. subst p.
  pose proof (SkipDirs_exact_new _ _ _ _ Hnew) as Hex0.
  assert (pathPrefix p0 = prefix) as Hpre.
  { unfold NewSkipDirs in Hnew. destruct (compilePatterns _ _); [done|].
    destruct (absArgs _ _); [done|]. by injection Hnew as <-. }
  split.
  - intros dir. destruct (SkipDirs_calls_count p0 p0 issues dir Hex0) as [_ ->].
    destruct (NewSkipDirs_new _ _ _ _ Hnew) as (_ & Hs & _).
    unfold skipCount. rewrite Hs, lookup_empty. simpl. lia.
  - intros dir st Hst.
    destruct (SkipDirs_calls_count p0 p0 issues dir Hex0) as [(_ & _ & _ & _ & Hstat) _].
    split; [unfold skipCount; by rewrite Hst|].
    rewrite <- Hpre. by apply Hstat.
Qed.

(** X17.  Without patterns the stage returns the issues it is given, and leaves
    the processor as it is. *)
Theorem SkipDirs_without_patterns runArgs prefix p0 p issues :
  NewSkipDirs [] runArgs prefix = inr p0 →
  SkipDirs_later p0 p →
  SkipDirs_Process p issues = ((issues, None), p).
Proof.
  intros Hnew Hl.
  destruct (SkipDirs_later_exact p0 _ _ Hl (SkipDirs_exact_new _ _ _ _ Hnew)) as (Hpat & _).
  unfold SkipDirs_Process. rewrite Hpat.
  unfold NewSkipDirs in Hnew. simpl in Hnew.
  destruct (absArgs _ _); [done|]. by injection Hnew as <-.
Qed.

Lemma compilePatterns_spec skipDirs acc :
  match compilePatterns skipDirs acc with
  | inr res =>
      ∃ rs, res = acc ++ rs
            ∧ Forall2 (λ q r, regexp_Compile (NormalizePathInRegex q) = inr r) skipDirs rs
  | inl e =>
      ∃ pre q rest err,
        skipDirs = pre ++ q :: rest
        ∧ Forall (λ q, ∃ r, regexp_Compile (NormalizePathInRegex q) = inr r) pre
        ∧ regexp_Compile (NormalizePathInRegex q) = inl err
        ∧ e = fmtErrorf "can't compile regexp %q: %w" [NormalizePathInRegex q] (Some err)
  end.
Proof.
  revert acc. induction skipDirs as [|q skipDirs IH]; intros acc; simpl.
  - exists []. by rewrite app_nil_r.
  - destruct (regexp_Compile (NormalizePathInRegex q)) as [err|r] eqn:Ec.
    + by exists [], q, skipDirs, err.
    + specialize (IH (acc ++ [r])). destruct (compilePatterns skipDirs (acc ++ [r])) as [e|res].
      * destruct IH as (pre & q' & rest & err & -> & Hpre & Hq' & ->).
        exists (q :: pre), q', rest, err. split; [done|]. split; [|done].
        constructor; [by exists r|done].
      * destruct IH as (rs & -> & Hrs). exists (r :: rs).
        split; [by rewrite <- app_assoc|]. by constructor.
Qed.

Lemma absArgs_spec runArgs acc :
  match absArgs runArgs acc with
  | inr res =>
      ∃ l, res = acc ++ l
           ∧ Forall2 (λ arg abs, filepath_Abs (argDir arg) = inr abs) runArgs l
  | inl e =>
      ∃ pre arg rest err,
        runArgs = pre ++ arg :: rest
        ∧ Forall (λ arg, ∃ abs, filepath_Abs (argDir arg) = inr abs) pre
        ∧ filepath_Abs (argDir arg) = inl err
        ∧ e = fmtErrorf "failed to abs-ify arg %q: %w" [argDir arg] (Some err)
  end.
Proof.
  revert acc. induction runArgs as [|arg runArgs IH]; intros acc; simpl.
  - exists []. by rewrite app_nil_r.
  - destruct (filepath_Abs (argDir arg)) as [err|abs] eqn:Ea.
    + by exists [], arg, runArgs, err.
    + specialize (IH (acc ++ [abs])). destruct (absArgs runArgs (acc ++ [abs])) as [e|res].
      * destruct IH as (pre & arg' & rest & err & -> & Hpre & Harg' & ->).
        exists (arg :: pre), arg', rest, err. split; [done|]. split; [|done].
        constructor; [by exists abs|done].
      * destruct IH as (l & -> & Hl). exists (abs :: l).
        split; [by rewrite <- app_assoc|]. by constructor.
Qed.

(** X18.  What [NewSkipDirs] returns.  Without analysis arguments it works with
    the argument [./...].  It returns a processor when every pattern, once
    normalized, compiles and every directory an argument stands for can be
    made absolute: the processor holds the compiled patterns and the
    absolute directories, in order, and empty caches.  Otherwise it
    returns the error of the first pattern that does not compile or, when
    all patterns compile, of the first argument whose directory cannot be
    made absolute. *)
Theorem NewSkipDirs_result skipDirs runArgs prefix :
  match NewSkipDirs skipDirs runArgs prefix with
  | inr p =>
      Forall2 (λ q r, regexp_Compile (NormalizePathInRegex q) = inr r) skipDirs (patterns p)
      ∧ Forall2 (λ arg abs, filepath_Abs (argDir arg) = inr abs)
          (argsOrDefault runArgs) (absArgsDirs p)
      ∧ skippedDirs p = ∅ ∧ skippedDirsCache p = ∅ ∧ pathPrefix p = prefix
  | inl e =>
      (∃ pre q rest err,
         skipDirs = pre ++ q :: rest
         ∧ Forall (λ q, ∃ r, regexp_Compile (NormalizePathInRegex q) = inr r) pre
         ∧ regexp_Compile (NormalizePathInRegex q) = inl err
         ∧ e = fmtErrorf "can't compile regexp %q: %w" [NormalizePathInRegex q] (Some err))
      ∨ (Forall (λ q, ∃ r, regexp_Compile (NormalizePathInRegex q) = inr r) skipDirs
         ∧ ∃ pre arg rest err,
             argsOrDefault runArgs = pre ++ arg :: rest
             ∧ Forall (λ arg, ∃ abs, filepath_Abs (argDir arg) = inr abs) pre
             ∧ filepath_Abs (argDir arg) = inl err
             ∧ e = fmtErrorf "failed to abs-ify arg %q: %w" [argDir arg] (Some err))
  end.
Proof.
  unfold NewSkipDirs.
  pose proof (compilePatterns_spec skipDirs []) as Hc.
  destruct (compilePatterns skipDirs []) as [e|res]; [by left|].
  destruct Hc as (rs & -> & Hrs). simpl.
  assert ((if (length runArgs =? 0)%nat then runArgs ++ ["./..."] else runArgs)
          = argsOrDefault runArgs) as -> by (by destruct runArgs).
  pose proof (absArgs_spec (argsOrDefault runArgs) []) as Ha.
  destruct (absArgs (argsOrDefault runArgs) []) as [e|res].
  - right. split; [|done]. clear -Hrs. induction Hrs; constructor; eauto.
  - destruct Ha as (l & -> & Hl). simpl. done.
Qed.

End SkipDirsMore.

(** ** The analyzers of [govet] *)

Section Govet.
Import govet.
Context `{!AnalysisPasses}.
Implicit Types (cfg : GovetSettings) (a : analysis_Analyzer).

Lemma existsb_eq_elem (l : list string) (x : string) :
  existsb (λ n, bool_decide (n = x)) l = true ↔ x ∈ l.
Proof.
  rewrite existsb_exists. split.
  - intros (n & Hin & Hn). apply bool_decide_eq_true in Hn as ->. by apply list_elem_of_In.
  - intros Hin. exists x. split; [by apply list_elem_of_In|by apply bool_decide_eq_true].
Qed.

Lemma isAnalyzerEnabled_true name cfg defaultAnalyzers :
  isAnalyzerEnabled name cfg defaultAnalyzers = true ↔
  EnableAll cfg = true
  ∨ name ∈ Enable cfg
  ∨ name ∈ Disable cfg
  ∨ (DisableAll cfg = false ∧ ∃ d, d ∈ defaultAnalyzers ∧ analysis_Name d = name).
Proof.
  unfold isAnalyzerEnabled. destruct (EnableAll cfg); [naive_solver|].
  destruct (existsb _ (Enable cfg)) eqn:Ee.
  { apply existsb_eq_elem in Ee. naive_solver. }
  destruct (existsb _ (Disable cfg)) eqn:Ed.
  { apply existsb_eq_elem in Ed. naive_solver. }
  assert (name ∉ Enable cfg) as He by (rewrite <- existsb_eq_elem; congruence).
  assert (name ∉ Disable cfg) as Hd by (rewrite <- existsb_eq_elem; congruence).
  destruct (DisableAll cfg); [naive_solver|].
  rewrite existsb_exists. split.
  - intros (d & Hin & Hn). apply bool_decide_eq_true in Hn. do 3 right. split; [done|].
    exists d. split; [by apply list_elem_of_In|done].
  - intros [?|[?|[?|[_ (d & Hin & Hn)]]]]; try done.
    exists d. split; [by apply list_elem_of_In|by apply bool_decide_eq_true].
Qed.

Lemma elem_of_getAllAnalyzers a : a ∈ getAllAnalyzers.
Proof. destruct a; unfold getAllAnalyzers; set_solver. Qed.

(** X19.  Which analyzers [analyzersFromConfig] returns for settings that are
    given.  An analyzer is returned exactly when [EnableAll] is set, or its
    name is in the enable list, or [CheckShadowing] is set and it has the
    name of the analyzer [shadow], or its name is in the disable list, or
    [DisableAll] is not set and it has the name of a default analyzer.  A
    name in the disable list does not take an analyzer out: it puts it
    in. *)
Theorem analyzersFromConfig_enabled cfg a :
  a ∈ (analyzersFromConfig (Some cfg)).1 ↔
  EnableAll cfg = true
  ∨ analysis_Name a ∈ Enable cfg
  ∨ (CheckShadowing cfg = true ∧ analysis_Name a = analysis_Name shadow_Analyzer)
  ∨ analysis_Name a ∈ Disable cfg
  ∨ (DisableAll cfg = false
     ∧ ∃ d, d ∈ getDefaultAnalyzers ∧ analysis_Name d = analysis_Name a).
Proof.
  unfold analyzersFromConfig. simpl. rewrite list_elem_of_filter.
  rewrite Is_true_true, isAnalyzerEnabled_true.
  destruct (CheckShadowing cfg); simpl.
  - rewrite elem_of_app, list_elem_of_singleton.
    pose proof (elem_of_getAllAnalyzers a). naive_solver.
  - pose proof (elem_of_getAllAnalyzers a). naive_solver.
Qed.

Lemma NoDup_getAllAnalyzers : NoDup getAllAnalyzers.
Proof. refine (bool_decide_unpack (NoDup getAllAnalyzers) _). vm_compute. exact I. Qed.

Lemma filter_ext_eq {A} (P Q : A → bool) (l : list A) :
  (∀ x, P x = Q x) → filter (λ x, P x) l = filter (λ x, Q x) l.
Proof.
  intros HPQ. induction l as [|x l IH]; [done|].
  rewrite !filter_cons, IH, HPQ. done.
Qed.

(** X20.  The analyzers [analyzersFromConfig] returns are analyzers of
    [getAllAnalyzers], in the order of that list and each at most once.
    Without settings they are the default analyzers, which are all
    analyzers but [atomicalign] and [shadow].  With [CheckShadowing] every
    call appends the name of [shadow] to the enable list of the settings;
    a second call on the settings the first call left returns the same
    analyzers. *)
Theorem analyzersFromConfig_list (cfg : option GovetSettings) :
  (analyzersFromConfig cfg).1 `sublist_of` getAllAnalyzers
  ∧ NoDup (analyzersFromConfig cfg).1
  ∧ (analyzersFromConfig None).1 = getDefaultAnalyzers
  ∧ getDefaultAnalyzers
    = filter (λ a, a ≠ atomicalign_Analyzer ∧ a ≠ shadow_Analyzer) getAllAnalyzers
  ∧ (∀ settings,
       (analyzersFromConfig (Some settings)).2
       = Some (if CheckShadowing settings then enableShadow settings else settings))
  ∧ (analyzersFromConfig (analyzersFromConfig cfg).2).1 = (analyzersFromConfig cfg).1.
Proof.
  assert (getDefaultAnalyzers
          = filter (λ a, a ≠ atomicalign_Analyzer ∧ a ≠ shadow_Analyzer) getAllAnalyzers)
    as Hdef by (vm_compute; reflexivity).
  assert ((analyzersFromConfig cfg).1 `sublist_of` getAllAnalyzers) as Hsub.
  { destruct cfg as [settings|]; simpl.
    - apply sublist_filter.
    - rewrite Hdef. apply sublist_filter. }
  split; [done|]. split; [by eapply sublist_NoDup; [apply NoDup_getAllAnalyzers|]|].
  split; [done|]. split; [done|]. split; [done|].
  destruct cfg as [settings|]; [|done]. simpl.
  destruct (CheckShadowing settings) eqn:Ec; simpl; rewrite Ec; [|done].
  apply filter_ext_eq. intros a.
  apply eq_true_iff_eq. rewrite !isAnalyzerEnabled_true. simpl.
  rewrite !elem_of_app, !list_elem_of_singleton. naive_solver.
Qed.

End Govet.

(** ** The arguments of the root command *)

Section SafeArgs.
Import commands.
Implicit Types (fs : FlagSet) (args : list string) (arg : string).

Lemma shorthands_fmap fs acc :
  foldl (λ shorthands flag, shorthands ++ [Shorthand flag]) acc fs = acc ++ (Shorthand <$> fs).
Proof.
  revert acc. induction fs as [|flag fs IH]; intros acc; simpl.
  - by rewrite app_nil_r.
  - rewrite IH. by rewrite <- app_assoc.
Qed.

Lemma safeArgs_loop (shorthands : list string) args acc :
  foldl (λ cleanArgs arg,
           if unsupportedShorthand shorthands arg then cleanArgs ++ ["--potato"]
           else cleanArgs ++ [arg]) acc args
  = acc ++ ((λ arg, if unsupportedShorthand shorthands arg then "--potato" else arg) <$> args).
Proof.
  revert acc. induction args as [|arg args IH]; intros acc; simpl.
  - by rewrite app_nil_r.
  - rewrite IH. destruct (unsupportedShorthand shorthands arg); by rewrite <- app_assoc.
Qed.

Lemma safeArgs_fmap fs args :
  safeArgs fs args
  = (λ arg, if unsupportedShorthand (Shorthand <$> fs) arg then "--potato" else arg) <$> args.
Proof.
  unfold safeArgs. rewrite shorthands_fmap. simpl. by rewrite safeArgs_loop.
Qed.

(** X21.  [safeArgs] returns as many arguments as it gets, in their order.  It
    replaces by [--potato] the arguments of two bytes or more that start
    with a dash followed by a byte that is neither a dash nor, taken as a
    string, the shorthand of a flag; every other argument stays as it is.
    So an argument that does not start with a dash, the argument [-], and
    an argument that starts with two dashes always stay. *)
Theorem safeArgs_positions fs args :
  length (safeArgs fs args) = length args
  ∧ (∀ k arg, args !! k = Some arg →
       safeArgs fs args !! k
       = Some (if unsupportedShorthand (Shorthand <$> fs) arg then "--potato" else arg))
  ∧ (∀ arg, arg ∈ args →
       (firstByte arg ≠ Some "-"%char ∨ arg = "-" ∨ gostrings.HasPrefix arg "--" = true) →
       unsupportedShorthand (Shorthand <$> fs) arg = false).
Proof.
  rewrite safeArgs_fmap. split; [by rewrite length_fmap|]. split.
  - intros k arg Hk. by rewrite list_lookup_fmap, Hk.
  - intros arg _ Harg. unfold unsupportedShorthand.
    destruct arg as [|a0 [|a1 rest]]; [done..|].
    destruct Harg as [Hf|[Hd|Hp]].
    + simpl in Hf. rewrite bool_decide_eq_false_2; [done|]. congruence.
    + done.
    + simpl in Hp. apply andb_prop in Hp as [H0 H1]. apply andb_prop in H1 as [H1 _].
      apply bool_decide_eq_true in H0, H1. subst a0 a1.
      by rewrite (bool_decide_eq_true_2 ("-"%char = "-"%char)) by done.
Qed.

(** X22.  What [safeArgs] returns holds no argument with a shorthand that is not
    supported, and [safeArgs] leaves it as it is: cleaning the arguments a
    second time changes nothing. *)
Theorem safeArgs_idempotent fs args :
  Forall (λ arg, unsupportedShorthand (Shorthand <$> fs) arg = false) (safeArgs fs args)
  ∧ safeArgs fs (safeArgs fs args) = safeArgs fs args.
Proof.
  assert (Forall (λ arg, unsupportedShorthand (Shorthand <$> fs) arg = false)
            (safeArgs fs args)) as Hall.
  { rewrite safeArgs_fmap. apply Forall_fmap, Forall_forall. intros arg _. simpl.
    by destruct (unsupportedShorthand (Shorthand <$> fs) arg) eqn:E. }
  split; [done|]. rewrite (safeArgs_fmap fs (safeArgs fs args)).
  induction Hall as [|arg l Harg _ IH]; [done|]. rewrite fmap_cons, Harg. by f_equal.
Qed.

End SafeArgs.

(** ** The configuration of a custom build *)

Section ConfigurationProofs.
Import internal.
Context `{!gostrings.Unicode, !Filepath}.
Implicit Types (c : Configuration) (h : gmap nat Plugin) (plugin : Plugin).

Lemma touched_refl plugin : touched plugin plugin.
Proof. repeat split. by left. Qed.

Lemma touched_trans p1 p2 p3 : touched p1 p2 → touched p2 p3 → touched p1 p3.
Proof.
  intros (M1 & V1 & I1) (M2 & V2 & I2). split; [congruence|]. split; [congruence|].
  destruct I1 as [I1|[B1 I1]], I2 as [I2|[B2 I2]].
  - left. congruence.
  - right. split; congruence.
  - right. split; congruence.
  - right. split; congruence.
Qed.

Lemma validatePlugins_frame plugins h o h' :
  validatePlugins plugins h = (o, h') →
  ∀ l, match h !! l with
       | None => h' !! l = None
       | Some plugin =>
           ∃ plugin', h' !! l = Some plugin' ∧ touched plugin plugin'
                      ∧ (l ∉ plugins → plugin' = plugin)
       end.
Proof.
  revert h. induction plugins as [|l0 rest IH]; intros h; simpl.
  { intros [= <- <-] l. destruct (h !! l) as [plugin|]; [|done].
    exists plugin. split; [done|]. split; [apply touched_refl|done]. }
  assert (∀ l, match h !! l with
               | Some plugin => ∃ plugin', h !! l = Some plugin' ∧ touched plugin plugin'
                                           ∧ (l ∉ l0 :: rest → plugin' = plugin)
               | None => h !! l = None
               end) as Hsame.
  { intros l. destruct (h !! l) as [plugin|]; [|done].
    exists plugin. split; [done|]. split; [apply touched_refl|done]. }
  destruct (h !! l0) as [plugin0|] eqn:E0; [|by intros [= <- <-]].
  destruct (blank (Module_ plugin0)) eqn:Bm; [by intros [= <- <-]|].
  set (plugin1 := if blank (Import_ plugin0) then setImport plugin0 (Module_ plugin0)
                  else plugin0).
  assert (touched plugin0 plugin1) as T1.
  { unfold plugin1. destruct (blank (Import_ plugin0)) eqn:Bi; [|apply touched_refl].
    split; [done|]. split; [done|]. by right. }
  assert (∀ plugin2 h2,
            touched plugin0 plugin2 →
            (∀ l, match <[l0 := plugin2]> h2 !! l with
                  | None => h' !! l = None
                  | Some plugin =>
                      ∃ plugin', h' !! l = Some plugin' ∧ touched plugin plugin'
                                 ∧ (l ∉ rest → plugin' = plugin)
                  end) →
            (∀ l, l ≠ l0 → h2 !! l = h !! l) →
            ∀ l, match h !! l with
                 | None => h' !! l = None
                 | Some plugin =>
                     ∃ plugin', h' !! l = Some plugin' ∧ touched plugin plugin'
                                ∧ (l ∉ l0 :: rest → plugin' = plugin)
                 end) as Hstep.
  { intros plugin2 h2 T2 Hrest Hother l. specialize (Hrest l).
    destruct (decide (l = l0)) as [->|Hne].
    - rewrite lookup_insert_eq in Hrest. rewrite E0.
      destruct Hrest as (plugin' & Hl & Ht & _). exists plugin'. split; [done|].
      split; [by eapply touched_trans|]. intros Hn. exfalso. apply Hn. left.
    - rewrite lookup_insert_ne in Hrest by done. rewrite Hother in Hrest by done.
      destruct (h !! l) as [plugin|]; [|done].
      destruct Hrest as (plugin' & Hl & Ht & Hn). exists plugin'. split; [done|].
      split; [done|]. intros Hnot. apply Hn. intros Hin. apply Hnot. by right. }
  assert (∀ plugin2, touched plugin0 plugin2 →
            ∀ l, match h !! l with
                 | None => <[l0 := plugin2]> h !! l = None
                 | Some plugin =>
                     ∃ plugin', <[l0 := plugin2]> h !! l = Some plugin' ∧ touched plugin plugin'
                                ∧ (l ∉ l0 :: rest → plugin' = plugin)
                 end) as Hwrite.
  { intros plugin2 T2 l. destruct (decide (l = l0)) as [->|Hne].
    - rewrite E0, lookup_insert_eq. exists plugin2. split; [done|]. split; [done|].
      intros Hn. exfalso. apply Hn. left.
    - rewrite lookup_insert_ne by done. destruct (h !! l) as [plugin|]; [|done].
      exists plugin. split; [done|]. split; [apply touched_refl|done]. }
  fold plugin1.
  destruct (blank (Plugin_Path plugin1) && blank (Plugin_Version plugin1)).
  { intros [= <- <-]. by apply Hwrite. }
  destruct (negb (blank (Plugin_Path plugin1)) && negb (blank (Plugin_Version plugin1))).
  { intros [= <- <-]. by apply Hwrite. }
  destruct (blank (Plugin_Path plugin1)).
  { intros E. apply (Hstep plugin1 h T1); [|done]. apply (IH _ E). }
  destruct (filepath_Abs (Plugin_Path plugin1)) as [err|abs].
  { intros [= <- <-]. by apply Hwrite. }
  intros E. apply (Hstep (setPath plugin1 abs) (<[l0 := plugin1]> h)).
  - destruct T1 as (M & V & I). split; [done|]. split; [done|]. done.
  - apply (IH _ E).
  - intros l Hne. by rewrite lookup_insert_ne.
Qed.

Lemma validatePlugins_valid plugins h h' :
  validatePlugins plugins h = (Returns None, h') →
  (∀ l plugin, h !! l = Some plugin → validPlugin plugin →
     ∃ plugin', h' !! l = Some plugin' ∧ validPlugin plugin')
  ∧ (∀ l, l ∈ plugins → ∃ plugin', h' !! l = Some plugin' ∧ validPlugin plugin').
Proof.
  revert h. induction plugins as [|l0 rest IH]; intros h; simpl.
  { intros [= <-]. split; [by eauto|]. intros l Hin. by apply elem_of_nil in Hin. }
  destruct (h !! l0) as [plugin0|] eqn:E0; [|done].
  destruct (blank (Module_ plugin0)) eqn:Bm; [done|].
  set (plugin1 := if blank (Import_ plugin0) then setImport plugin0 (Module_ plugin0)
                  else plugin0).
  assert (blank (Module_ plugin1) = false ∧ blank (Import_ plugin1) = false) as [Bm1 Bi1].
  { unfold plugin1. by destruct (blank (Import_ plugin0)) eqn:Bi. }
  assert (∀ plugin2 h2,
            validPlugin plugin2 →
            validatePlugins rest (<[l0 := plugin2]> h2) = (Returns None, h') →
            (∀ l, l ≠ l0 → h2 !! l = h !! l) →
            (∀ l plugin, h !! l = Some plugin → validPlugin plugin →
               ∃ plugin', h' !! l = Some plugin' ∧ validPlugin plugin')
            ∧ (∀ l, l ∈ l0 :: rest → ∃ plugin', h' !! l = Some plugin' ∧ validPlugin plugin'))
    as Hstep.
  { intros plugin2 h2 V2 E Hother. destruct (IH _ E) as [IH1 IH2].
    assert (∃ plugin', h' !! l0 = Some plugin' ∧ validPlugin plugin') as H0'
      by (apply (IH1 l0 plugin2); [by rewrite lookup_insert_eq|done]).
    split.
    - intros l plugin Hl Hv. destruct (decide (l = l0)) as [->|Hne]; [done|].
      apply (IH1 l plugin); [|done]. by rewrite lookup_insert_ne, Hother.
    - intros l [->|Hin]%elem_of_cons; [done|by apply IH2]. }
  destruct (blank (Plugin_Path plugin1)) eqn:Bp, (blank (Plugin_Version plugin1)) eqn:Bv;
    simpl; try done.
  - intros E. apply (Hstep plugin1 h); [|done..].
    split; [done|]. split; [done|]. split; [done|]. by rewrite Bv.
  - destruct (filepath_Abs (Plugin_Path plugin1)) as [err|abs] eqn:Ea; [done|].
    intros E. apply (Hstep (setPath plugin1 abs) (<[l0 := plugin1]> h)); [|done|].
    + split; [done|]. split; [done|]. simpl. split; [by rewrite Bv|].
      intros _. by exists (Plugin_Path plugin1).
    + intros l Hne. by rewrite lookup_insert_ne.
Qed.

(** X23.  What [Validate] leaves when it accepts a configuration.  The version
    and the name are not blank, the name being the default name when it
    was blank; there is a plugin; and every plugin of the configuration
    has a module and an import that are not blank, and either a version
    and a blank path, or no version and a path that [filepath.Abs]
    returned.  Nothing else of the configuration changed, and no plugin
    outside it. *)
Theorem Validate_accepted c h c' h' :
  Validate c h = (Returns None, c', h') →
  blank (Version c') = false
  ∧ blank (Name c') = false
  ∧ c' = (if blank (Name c) then setName c defaultBinaryName else c)
  ∧ Plugins c ≠ []
  ∧ (∀ l, l ∈ Plugins c → ∃ plugin, h' !! l = Some plugin ∧ validPlugin plugin)
  ∧ (∀ l, l ∉ Plugins c → h' !! l = h !! l).
Proof.
  unfold Validate. destruct (blank (Version c)) eqn:Bv; [done|].
  set (c1 := if blank (Name c) then setName c defaultBinaryName else c).
  assert (Plugins c1 = Plugins c ∧ Version c1 = Version c ∧ blank (Name c1) = false)
    as (Hp & Hv & Hn).
  { unfold c1. by destruct (blank (Name c)) eqn:Bn. }
  rewrite Hp. destruct (Plugins c) as [|l0 rest] eqn:Ep; [done|].
  simpl length. simpl Nat.eqb. cbv iota.
  destruct (validatePlugins (l0 :: rest) h) as [o h1] eqn:E.
  intros [= -> <- <-].
  split; [by rewrite Hv|]. split; [done|]. split; [done|]. split; [done|].
  split; [by apply (validatePlugins_valid _ _ _ E)|].
  intros l Hl. pose proof (validatePlugins_frame _ _ _ _ E l) as Hf.
  destruct (h !! l) as [plugin|]; [|done].
  destruct Hf as (plugin' & -> & _ & Hsame). by rewrite Hsame.
Qed.

(** X24.  What [Validate] never does, however it ends.  Of the configuration it
    changes the name only, and only from a blank name to the default name;
    it adds no plugin to the heap and takes none away; of a plugin it
    leaves the module and the version as they are, changes the import only
    from a blank import to the module, and touches no plugin outside the
    configuration.  It ends the process only when [filepath.Abs] fails,
    and panics only when the configuration holds a nil plugin. *)
Theorem Validate_frame c h o c' h' :
  Validate c h = (o, c', h') →
  (c' = c ∨ (blank (Name c) = true ∧ c' = setName c defaultBinaryName))
  ∧ (∀ l, match h !! l with
          | None => h' !! l = None
          | Some plugin =>
              ∃ plugin', h' !! l = Some plugin' ∧ touched plugin plugin'
                         ∧ (l ∉ Plugins c → plugin' = plugin)
          end)
  ∧ (o = NilDereference → ∃ l, l ∈ Plugins c ∧ h !! l = None)
  ∧ (∀ err, o = Fatal err → ∃ path, filepath_Abs path = inl err).
Proof.
  assert (∀ plugins h o h', validatePlugins plugins h = (o, h') →
            (o = NilDereference → ∃ l, l ∈ plugins ∧ h' !! l = None)
            ∧ (∀ err, o = Fatal err → ∃ path, filepath_Abs path = inl err)) as Hend.
  { clear. induction plugins as [|l0 rest IH]; intros h o h'; simpl.
    { by intros [= <- <-]. }
    destruct (h !! l0) as [plugin0|] eqn:E0.
    2:{ intros [= <- <-]. split; [|done]. intros _. exists l0. split; [left|done]. }
    destruct (blank (Module_ plugin0)); [by intros [= <- <-]|].
    destruct (blank (Plugin_Path _) && blank (Plugin_Version _)); [by intros [= <- <-]|].
    destruct (negb (blank (Plugin_Path _)) && negb (blank (Plugin_Version _)));
      [by intros [= <- <-]|].
    destruct (blank (Plugin_Path _)).
    { intros E. destruct (IH _ _ _ E) as [I1 I2]. split; [|done].
      intros Ho. destruct (I1 Ho) as (l & Hin & Hl). exists l. split; [by right|done]. }
    destruct (filepath_Abs _) as [err|abs] eqn:Ea.
    { intros [= <- <-]. split; [done|]. intros err' [= <-]. eauto. }
    intros E. destruct (IH _ _ _ E) as [I1 I2]. split; [|done].
    intros Ho. destruct (I1 Ho) as (l & Hin & Hl). exists l. split; [by right|done]. }
  assert (∀ l, match h !! l with
               | None => h !! l = None
               | Some plugin =>
                   ∃ plugin', h !! l = Some plugin' ∧ touched plugin plugin'
                              ∧ (l ∉ Plugins c → plugin' = plugin)
               end) as Hsame.
  { intros l. destruct (h !! l) as [plugin|]; [|done].
    exists plugin. split; [done|]. split; [apply touched_refl|done]. }
  unfold Validate. destruct (blank (Version c)) eqn:Bv.
  { intros [= <- <- <-]. split; [by left|]. done. }
  set (c1 := if blank (Name c) then setName c defaultBinaryName else c).
  assert (Plugins c1 = Plugins c
          ∧ (c1 = c ∨ (blank (Name c) = true ∧ c1 = setName c defaultBinaryName)))
    as (Hp & Hc).
  { unfold c1. destruct (blank (Name c)) eqn:Bn; [|by split; [|left]].
    split; [done|]. by right. }
  rewrite Hp. destruct (length (Plugins c) =? 0)%nat.
  { intros [= <- <- <-]. done. }
  destruct (validatePlugins (Plugins c) h) as [o1 h1] eqn:E.
  intros [= <- <- <-]. split; [done|].
  pose proof (validatePlugins_frame _ _ _ _ E) as Hf. split; [done|].
  destruct (Hend _ _ _ _ E) as [H1 H2]. split; [|done].
  intros Ho. destruct (H1 Ho) as (l & Hin & Hl). exists l. split; [done|].
  specialize (Hf l). destruct (h !! l) as [plugin|]; [|done].
  destruct Hf as (plugin' & Hl' & _). congruence.
Qed.

End ConfigurationProofs.

(** ** The linter [lll] *)

Section Lll.
Import result lll.
Context `{!FileSystem}.
Implicit Types (st : scanState) (raw : string) (raws : list string).

Lemma scanLine_spec filename maxLineLen tabSpaces st raw :
  let st1 := scanLine filename maxLineLen tabSpaces st (bufio.dropCR raw) in
  lineNumber st1 = (lineNumber st + 1)%Z
  ∧ (res st1 = res st
     ∨ (res st1 = res st ++ [longLine filename (lineNumber st) (lineLenOf tabSpaces raw) maxLineLen]
        ∧ reportable maxLineLen tabSpaces raw = true))
  ∧ (multiImportEnabled st = false →
     gostrings.HasPrefix (bufio.dropCR raw) "import" = false →
     multiImportEnabled st1 = false
     ∧ res st1 = res st ++
         (if reportable maxLineLen tabSpaces raw
          then [longLine filename (lineNumber st) (lineLenOf tabSpaces raw) maxLineLen]
          else [])).
Proof.
  unfold scanLine, reportable, lineLenOf.
  destruct (gostrings.HasPrefix (bufio.dropCR raw) goCommentDirectivePrefix) eqn:Ed; simpl.
  { split; [done|]. split; [by left|]. intros Hm Hi. split; [done|]. by rewrite app_nil_r. }
  destruct (gostrings.HasPrefix (bufio.dropCR raw) "import") eqn:Ei; simpl.
  { split; [done|]. split; [by left|]. done. }
  destruct (multiImportEnabled st) eqn:Em; simpl.
  { split; [done|]. split; [by left|]. done. }
  split; [done|]. destruct (_ <? _)%Z eqn:El.
  - split; [by right|]. done.
  - split; [by left|]. intros _ _. split; [done|]. by rewrite app_nil_r.
Qed.

(** The loop: how far it gets, and what it adds to the issues. *)
Lemma scanLines_spec filename maxLineLen tabSpaces raws st :
  ∃ m added,
    (scanLines filename maxLineLen tabSpaces raws st).1
      = (scanLines filename maxLineLen tabSpaces (take m raws) st).1
    ∧ lineNumber (scanLines filename maxLineLen tabSpaces raws st).1
      = (lineNumber st + Z.of_nat m)%Z
    ∧ res (scanLines filename maxLineLen tabSpaces raws st).1 = res st ++ added
    ∧ Forall (λ raw, bufio.tooLong MaxScanTokenSize raw = false) (take m raws)
    ∧ match (scanLines filename maxLineLen tabSpaces raws st).2 with
      | None => m = length raws
      | Some err =>
          err = bufio.ErrTooLong
          ∧ ∃ raw, raws !! m = Some raw ∧ bufio.tooLong MaxScanTokenSize raw = true
      end
    ∧ (∀ i, i ∈ added →
         ∃ n raw, n < m ∧ raws !! n = Some raw
                  ∧ i = longLine filename (lineNumber st + Z.of_nat n)
                          (lineLenOf tabSpaces raw) maxLineLen
                  ∧ reportable maxLineLen tabSpaces raw = true)
    ∧ StronglySorted byLine added.
Proof.
  revert st. induction raws as [|raw rest IH]; intros st; simpl.
  { exists 0, []. rewrite app_nil_r, Z.add_0_r. repeat split; try done; try constructor.
    intros i Hi. by apply elem_of_nil in Hi. }
  destruct (bufio.tooLong MaxScanTokenSize raw) eqn:Et.
  { exists 0, []. simpl. rewrite app_nil_r, Z.add_0_r. repeat split; try done; try constructor.
    - by exists raw.
    - intros i Hi. by apply elem_of_nil in Hi. }
  destruct (scanLine_spec filename maxLineLen tabSpaces st raw) as (Hn & Hr & _).
  set (st1 := scanLine filename maxLineLen tabSpaces st (bufio.dropCR raw)) in *.
  destruct (IH st1) as (m & added & Etake & Hline & Hres & Hfit & Herr & Hadded & Hsorted).
  assert (∀ i, i ∈ added →
            ∃ n raw0, n < S m ∧ (raw :: rest) !! n = Some raw0
                      ∧ i = longLine filename (lineNumber st + Z.of_nat n)
                              (lineLenOf tabSpaces raw0) maxLineLen
                      ∧ reportable maxLineLen tabSpaces raw0 = true) as Hadded'.
  { intros i Hi. destruct (Hadded i Hi) as (n & raw0 & Hlt & Hraw0 & -> & Hrep).
    exists (S n), raw0. split; [lia|]. split; [done|]. split; [|done].
    f_equal. rewrite Hn. lia. }
  destruct Hr as [Hr|[Hr Hrep]].
  - exists (S m), added. simpl. rewrite Et. fold st1.
    split; [done|]. split; [rewrite Hline, Hn; lia|]. split; [by rewrite Hres, Hr|].
    split; [by constructor|]. split; [|done].
    destruct (scanLines _ _ _ rest st1).2; [done|]. by rewrite Herr.
  - exists (S m), (longLine filename (lineNumber st) (lineLenOf tabSpaces raw) maxLineLen :: added).
    simpl. rewrite Et. fold st1.
    split; [done|]. split; [rewrite Hline, Hn; lia|].
    split; [rewrite Hres, Hr; by rewrite <- app_assoc|].
    split; [by constructor|]. split; [|split].
    + destruct (scanLines _ _ _ rest st1).2; [done|]. by rewrite Herr.
    + intros i [->|Hi]%elem_of_cons; [|by apply Hadded'].
      exists 0, raw. split; [lia|]. split; [done|]. split; [|done].
      f_equal. lia.
    + constructor; [done|]. apply Forall_forall. intros i Hi.
      destruct (Hadded i Hi) as (n & raw0 & _ & _ & -> & _).
      unfold byLine. simpl. rewrite Hn. lia.
Qed.

Lemma scanLines_overlong filename maxLineLen tabSpaces pre raw post st :
  Forall (λ raw, bufio.tooLong MaxScanTokenSize raw = false) pre →
  (scanLines filename maxLineLen tabSpaces pre st).2 = None
  ∧ lineNumber (scanLines filename maxLineLen tabSpaces pre st).1
    = (lineNumber st + Z.of_nat (length pre))%Z
  ∧ (bufio.tooLong MaxScanTokenSize raw = true →
     scanLines filename maxLineLen tabSpaces (pre ++ raw :: post) st
     = ((scanLines filename maxLineLen tabSpaces pre st).1, Some bufio.ErrTooLong)).
Proof.
  intros Hpre. revert st. induction Hpre as [|raw0 pre Hfit _ IH]; intros st; simpl.
  - split; [done|]. split; [lia|]. by intros ->.
  - rewrite Hfit. destruct (IH (scanLine filename maxLineLen tabSpaces st (bufio.dropCR raw0)))
      as (I1 & I2 & I3).
    split; [done|]. split; [|done]. rewrite I2.
    destruct (scanLine_spec filename maxLineLen tabSpaces st raw0) as (-> & _). lia.
Qed.

Lemma scanLines_complete filename maxLineLen tabSpaces raws st :
  multiImportEnabled st = false →
  Forall (λ raw, bufio.tooLong MaxScanTokenSize raw = false
                 ∧ gostrings.HasPrefix (bufio.dropCR raw) "import" = false) raws →
  ∀ n raw, raws !! n = Some raw → reportable maxLineLen tabSpaces raw = true →
    longLine filename (lineNumber st + Z.of_nat n) (lineLenOf tabSpaces raw) maxLineLen
      ∈ res (scanLines filename maxLineLen tabSpaces raws st).1.
Proof.
  intros Hm Hall. revert st Hm.
  induction Hall as [|raw0 rest [Hfit Himp] _ IH]; intros st Hm n raw Hn Hrep; [done|].
  simpl. rewrite Hfit.
  destruct (scanLine_spec filename maxLineLen tabSpaces st raw0) as (Hline & _ & Hstep).
  destruct (Hstep Hm Himp) as [Hm1 Hres1].
  set (st1 := scanLine filename maxLineLen tabSpaces st (bufio.dropCR raw0)) in *.
  destruct n as [|n]; simpl in Hn.
  - injection Hn as ->. rewrite Hrep in Hres1.
    destruct (scanLines_spec filename maxLineLen tabSpaces rest st1)
      as (_ & added & _ & _ & -> & _).
    rewrite Hres1, Z.add_0_r. set_solver.
  - specialize (IH st1 Hm1 n raw Hn Hrep). rewrite Hline in IH.
    by replace (lineNumber st + Z.of_nat (S n))%Z with (lineNumber st + 1 + Z.of_nat n)%Z by lia.
Qed.

(** The scanner fails with [bufio.ErrTooLong] only, which [errors.Is]
    recognises: the test of [maxLineLen] alone decides what
    [getLLLIssuesForFile] does with the error. *)
Lemma scanLines_err filename maxLineLen tabSpaces raws st st' e :
  scanLines filename maxLineLen tabSpaces raws st = (st', Some e) → e = bufio.ErrTooLong.
Proof.
  revert st. induction raws as [|raw rest IH]; intros st; simpl; [done|].
  destruct (bufio.tooLong MaxScanTokenSize raw); [by intros [= _ <-]|apply IH].
Qed.

Lemma getLLLIssuesForFile_eq filename maxLineLen tabSpaces :
  getLLLIssuesForFile filename maxLineLen tabSpaces =
    match os_Open filename with
    | inl err => inl (fmtErrorf "can't open file %s: %w" [filename] (Some err))
    | inr f =>
        let '(st, err) :=
          scanLines filename maxLineLen tabSpaces (bufio.rawLines f)
            {| lineNumber := 1; multiImportEnabled := false; res := [] |} in
        match err with
        | Some err =>
            if (maxLineLen <? Z.of_N MaxScanTokenSize)%Z then
              inr (res st ++ [overlongLine filename (lineNumber st)])
            else inl (fmtErrorf "can't scan file %s: %w" [filename] (Some err))
        | None => inr (res st)
        end
    end.
Proof.
  unfold getLLLIssuesForFile. destruct (os_Open filename) as [err|f]; [done|].
  destruct (scanLines _ _ _ _ _) as [st [e|]] eqn:E; [|done].
  by rewrite (scanLines_err _ _ _ _ _ _ _ E).
Qed.

(** X25.  The issues [getLLLIssuesForFile] returns for a file.  Every issue is
    of the linter [lll], names the file and points to a line of it.  It
    reports that the line, which is not a [//go:] directive and does not
    start with [import], is longer than [maxLineLen] runes once its tabs
    are replaced; or it is the issue, with column 1, for a line of 64 KiB
    or more on which the scanner gave up, which is returned only when
    [maxLineLen] is below 64 KiB.  The issues come in the order of their
    lines, at most one for a line. *)
Theorem getLLLIssuesForFile_issues filename maxLineLen tabSpaces content issues :
  os_Open filename = inr content →
  getLLLIssuesForFile filename maxLineLen tabSpaces = inr issues →
  (∀ i, i ∈ issues →
     FromLinter i = linterName
     ∧ Filename (Pos i) = filename
     ∧ ∃ n raw,
         bufio.rawLines content !! n = Some raw
         ∧ Line (Pos i) = (Z.of_nat n + 1)%Z
         ∧ ((i = longLine filename (Z.of_nat n + 1) (lineLenOf tabSpaces raw) maxLineLen
             ∧ reportable maxLineLen tabSpaces raw = true
             ∧ bufio.tooLong MaxScanTokenSize raw = false)
            ∨ (i = overlongLine filename (Z.of_nat n + 1)
               ∧ bufio.tooLong MaxScanTokenSize raw = true
               ∧ (maxLineLen < Z.of_N MaxScanTokenSize)%Z)))
  ∧ StronglySorted byLine issues.
Proof.
  intros Eo. rewrite getLLLIssuesForFile_eq, Eo.
  set (st0 := {| lineNumber := 1; multiImportEnabled := false; res := [] |}).
  destruct (scanLines_spec filename maxLineLen tabSpaces (bufio.rawLines content) st0)
    as (m & added & _ & Hline & Hres & Hfit & Herr & Hadded & Hsorted).
  destruct (scanLines _ _ _ _ st0) as [st err]. simpl in *.
  assert (∀ i, i ∈ added →
            FromLinter i = linterName ∧ Filename (Pos i) = filename
            ∧ (Line (Pos i) < 1 + Z.of_nat m)%Z
            ∧ ∃ n raw,
                bufio.rawLines content !! n = Some raw
                ∧ Line (Pos i) = (Z.of_nat n + 1)%Z
                ∧ ((i = longLine filename (Z.of_nat n + 1) (lineLenOf tabSpaces raw) maxLineLen
                    ∧ reportable maxLineLen tabSpaces raw = true
                    ∧ bufio.tooLong MaxScanTokenSize raw = false)
                   ∨ (i = overlongLine filename (Z.of_nat n + 1)
                      ∧ bufio.tooLong MaxScanTokenSize raw = true
                      ∧ (maxLineLen < Z.of_N MaxScanTokenSize)%Z))) as Hin.
  { intros i Hi. destruct (Hadded i Hi) as (n & raw & Hlt & Hraw & -> & Hrep).
    split; [done|]. split; [done|]. split; [simpl; lia|].
    exists n, raw. split; [done|]. split; [simpl; lia|]. left.
    split; [f_equal; lia|]. split; [done|].
    rewrite Forall_forall in Hfit. apply Hfit.
    apply list_elem_of_lookup. exists n. rewrite lookup_take_lt by done. done. }
  destruct err as [err|].
  - destruct Herr as (-> & raw & Hraw & Hlong).
    destruct (_ <? _)%Z eqn:El; [|done]. intros [= <-]. rewrite Hres. split.
    + intros i [Hi|Hi]%elem_of_app.
      * destruct (Hin i Hi) as (? & ? & _ & ?). done.
      * apply list_elem_of_singleton in Hi as ->. split; [done|]. split; [done|].
        exists m, raw. split; [done|]. split; [simpl; lia|]. right.
        split; [f_equal; lia|]. split; [done|]. by apply Z.ltb_lt.
    + clear -Hsorted Hin Hline.
      induction Hsorted as [|i added Hs IH Hall]; simpl.
      * repeat constructor.
      * constructor.
        -- apply IH. intros j Hj. apply Hin. by right.
        -- apply Forall_app. split; [done|]. constructor; [|done].
           destruct (Hin i) as (_ & _ & Hlt & _); [by left|].
           unfold byLine. simpl. lia.
  - intros [= <-]. rewrite Hres. simpl. split; [|done].
    intros i Hi. destruct (Hin i Hi) as (? & ? & _ & ?). done.
Qed.

(** X26.  In a file without an overlong line and without a line that starts
    with [import], every line that is not a [//go:] directive and is
    longer than [maxLineLen] is reported, with its number and its
    length. *)
Theorem getLLLIssuesForFile_complete filename maxLineLen tabSpaces content :
  os_Open filename = inr content →
  Forall (λ raw, bufio.tooLong MaxScanTokenSize raw = false
                 ∧ gostrings.HasPrefix (bufio.dropCR raw) "import" = false)
    (bufio.rawLines content) →
  ∃ issues,
    getLLLIssuesForFile filename maxLineLen tabSpaces = inr issues
    ∧ ∀ n raw, bufio.rawLines content !! n = Some raw →
        reportable maxLineLen tabSpaces raw = true →
        longLine filename (Z.of_nat n + 1) (lineLenOf tabSpaces raw) maxLineLen ∈ issues.
Proof.
  intros Eo Hall. rewrite getLLLIssuesForFile_eq, Eo.
  set (st0 := {| lineNumber := 1; multiImportEnabled := false; res := [] |}).
  assert (Forall (λ raw, bufio.tooLong MaxScanTokenSize raw = false) (bufio.rawLines content))
    as Hfit by (eapply Forall_impl; [exact Hall|]; by intros raw [? _]).
  destruct (scanLines_overlong filename maxLineLen tabSpaces _ "" [] st0 Hfit) as (Herr & _).
  pose proof (scanLines_complete filename maxLineLen tabSpaces _ st0 eq_refl Hall) as Hc.
  destruct (scanLines _ _ _ _ st0) as [st err]. simpl in *. subst err.
  exists (res st). split; [done|]. intros n raw Hn Hrep.
  specialize (Hc n raw Hn Hrep).
  by replace (Z.of_nat n + 1)%Z with (1 + Z.of_nat n)%Z by lia.
Qed.

(** X27.  The errors of [getLLLIssuesForFile], for files that are read
    without error once they are open.  When the file cannot be opened it
    returns an error that wraps the error of [os.Open].  When a line has
    64 KiB or more, the scanner gives up on it and the lines after it are
    not looked at: with [maxLineLen] below 64 KiB the result is what the
    lines before it give, followed by one issue for that line; otherwise
    it is an error that wraps [bufio.ErrTooLong].  When no line has
    64 KiB or more, issues are returned. *)
Theorem getLLLIssuesForFile_errors filename maxLineLen tabSpaces :
  match os_Open filename with
  | inl err =>
      getLLLIssuesForFile filename maxLineLen tabSpaces
      = inl (fmtErrorf "can't open file %s: %w" [filename] (Some err))
  | inr content =>
      (Forall (λ raw, bufio.tooLong MaxScanTokenSize raw = false) (bufio.rawLines content) →
       ∃ issues, getLLLIssuesForFile filename maxLineLen tabSpaces = inr issues)
      ∧ ∀ pre raw post,
          bufio.rawLines content = pre ++ raw :: post →
          Forall (λ raw, bufio.tooLong MaxScanTokenSize raw = false) pre →
          bufio.tooLong MaxScanTokenSize raw = true →
          getLLLIssuesForFile filename maxLineLen tabSpaces
          = if (maxLineLen <? Z.of_N MaxScanTokenSize)%Z then
              inr (res (scanLines filename maxLineLen tabSpaces pre
                          {| lineNumber := 1; multiImportEnabled := false; res := [] |}).1
                   ++ [overlongLine filename (Z.of_nat (length pre) + 1)])
            else inl (fmtErrorf "can't scan file %s: %w" [filename] (Some bufio.ErrTooLong))
  end.
Proof.
  rewrite getLLLIssuesForFile_eq. destruct (os_Open filename) as [err|content]; [done|].
  set (st0 := {| lineNumber := 1; multiImportEnabled := false; res := [] |}). split.
  - intros Hfit.
    destruct (scanLines_overlong filename maxLineLen tabSpaces _ "" [] st0 Hfit) as (Herr & _).
    destruct (scanLines _ _ _ _ st0) as [st err]. simpl in *. subst err. by eexists.
  - intros pre raw post -> Hpre Hlong.
    destruct (scanLines_overlong filename maxLineLen tabSpaces pre raw post st0 Hpre)
      as (_ & Hline & Hcut).
    rewrite (Hcut Hlong). simpl. rewrite Hline. simpl.
    by replace (1 + Z.of_nat (length pre))%Z with (Z.of_nat (length pre) + 1)%Z by lia.
Qed.

End Lll.

(** ** Examples: the resolver and the runner *)

Section ResolverMoreExamples.
Import config linter lintersdb examples.
#[local] Existing Instance unitContext.
#[local] Existing Instance noGoAnalysis.
#[local] Existing Instance noPlugins.

(** With [--fast --enable unused] the slow linter [unused] is in the
    resolved map, and it is the enable list that put it there. *)
Lemma build_provenance_witness :
  build (enabledSetOf fastEnable) fastEnable (GetAllEnabledByDefaultLinters registry)
    !! "unused" = Some unused
  ∧ (seedSet (enabledSetOf fastEnable) fastEnable (GetAllEnabledByDefaultLinters registry)
       !! "unused" = Some unused
     ∨ (∃ p, p ∈ Presets fastEnable
             ∧ unused ∈ GetAllLinterConfigsForPreset registry p ∧ Name unused = "unused")
     ∨ (∃ n, n ∈ Enable fastEnable
             ∧ unused ∈ GetLinterConfigs registry n ∧ Name unused = "unused")
     ∨ (∃ entry, entry ∈ Custom (configOf fastEnable)
                 ∧ loadCustomLinterConfig (enabledSetOf fastEnable) entry.1 entry.2 = inr unused
                 ∧ Name unused = "unused")).
Proof.
  assert (build (enabledSetOf fastEnable) fastEnable (GetAllEnabledByDefaultLinters registry)
            !! "unused" = Some unused) as E by (vm_compute; reflexivity).
  split; [exact E|].
  exact (build_provenance (enabledSetOf fastEnable) fastEnable
           (GetAllEnabledByDefaultLinters registry) "unused" unused E).
Defined.

Lemma fast_keeps_no_slow_witness :
  Fast fastEnable = true
  ∧ build (enabledSetOf fastEnable) fastEnable (GetAllEnabledByDefaultLinters registry)
      !! "unused" = Some unused
  ∧ IsSlowLinter unused = true
  ∧ ((∃ n, n ∈ Enable fastEnable
           ∧ unused ∈ GetLinterConfigs registry n ∧ Name unused = "unused")
     ∨ (∃ entry, entry ∈ Custom (configOf fastEnable)
                 ∧ loadCustomLinterConfig (enabledSetOf fastEnable) entry.1 entry.2 = inr unused
                 ∧ Name unused = "unused")).
Proof.
  assert (build (enabledSetOf fastEnable) fastEnable (GetAllEnabledByDefaultLinters registry)
            !! "unused" = Some unused) as E by (vm_compute; reflexivity).
  split; [reflexivity|]. split; [exact E|]. split; [reflexivity|].
  exact (fast_keeps_no_slow (enabledSetOf fastEnable) fastEnable
           (GetAllEnabledByDefaultLinters registry) "unused" unused eq_refl E eq_refl).
Defined.

(** [--disable megacheck] takes out [unused], which [--enable unused] had
    put in. *)
Lemma disable_wins_witness :
  "megacheck" ∈ Disable fastEnableDisable
  ∧ unused ∈ GetLinterConfigs registry "megacheck"
  ∧ build (enabledSetOf fastEnableDisable) fastEnableDisable
      (GetAllEnabledByDefaultLinters registry) !! Name unused = None.
Proof.
  assert ("megacheck" ∈ Disable fastEnableDisable) as Hn by left.
  assert (unused ∈ GetLinterConfigs registry "megacheck") as Hlc by (vm_compute; left).
  split; [exact Hn|]. split; [exact Hlc|].
  refine (disable_wins (enabledSetOf fastEnableDisable) fastEnableDisable
            (GetAllEnabledByDefaultLinters registry) "megacheck" unused Hn Hlc _).
  intros entry c Hin. by apply elem_of_nil in Hin.
Defined.

(** [--fast --enable unused] violates no constraint. *)
Lemma validation_accepts_witness :
  ¬ violates registry fastEnable
  ∧ validateEnabledDisabledLintersConfig {| Validator_m := registry |} fastEnable = None
  ∧ ∀ optimize, (Get (enabledSetOf fastEnable) optimize).2 = None.
Proof.
  assert (¬ violates registry fastEnable) as Hn.
  { intros Hv. destruct (violates_violation _ _ Hv) as (k & e & Hviol).
    refine (validate_None {| Validator_m := registry |} fastEnable k e _ Hviol).
    vm_compute. reflexivity. }
  split; [exact Hn|].
  exact (validation_accepts (enabledSetOf fastEnable) Hn).
Defined.

(** Of [--enable nope --enable govet --disable missing] the error names
    [nope] and [missing]. *)
Lemma unknown_linters_reported_witness :
  filter (λ name, GetLinterConfigs registry name = []) (Enable twoUnknown ++ Disable twoUnknown)
    = ["nope"; "missing"]
  ∧ ∀ optimize,
      Get (enabledSetOf twoUnknown) optimize =
        ([], Some (fmtErrorf
           "unknown linters: '%v', run 'golangci-lint help linters' to see the list of supported linters"
           ["nope,missing"] None)).
Proof.
  assert (filter (λ name, GetLinterConfigs registry name = [])
            (Enable twoUnknown ++ Disable twoUnknown) = ["nope"; "missing"]) as E
    by (vm_compute; reflexivity).
  split; [exact E|]. intros optimize.
  pose proof (unknown_linters_reported (enabledSetOf twoUnknown)) as H.
  cbv zeta in H. change (Validator_m (EnabledSet_v (enabledSetOf twoUnknown))) with registry in H.
  change (Linters_ (EnabledSet_cfg (enabledSetOf twoUnknown))) with twoUnknown in H.
  rewrite E in H. exact (H ltac:(discriminate) optimize).
Defined.

(** Of the four linters, [errcheck] and [gofmt] are combined: they leave
    the map, and the metalinter enters it with their presets; [unparam],
    which loads the whole program, and [gosec] stay. *)
Lemma combineGoAnalysisLinters_spec_witness :
  let combined := combineGoAnalysisLinters (enabledSetOf fastEnable) fourLinters in
  combined !! "errcheck" = None
  ∧ combined !! "gofmt" = None
  ∧ combined !! "unparam" = fourLinters !! "unparam"
  ∧ combined !! "gosec" = Some gosec
  ∧ ∃ mlConfig, combined !! "goanalysis_metalinter" = Some mlConfig
                ∧ ∀ p, p ∈ InPresets mlConfig ↔ p = "bugs" ∨ p = "format".
Proof.
  intros combined.
  destruct (combineGoAnalysisLinters_spec (enabledSetOf fastEnable) fourLinters)
    as [_ Hmany].
  assert (filter (λ lc, combinable lc) (map_to_list fourLinters).*2
          = [analysing "errcheck" LoadModeTypesInfo ["bugs"];
             analysing "gofmt" LoadModeSyntax ["format"]]
          ∨ filter (λ lc, combinable lc) (map_to_list fourLinters).*2
            = [analysing "gofmt" LoadModeSyntax ["format"];
               analysing "errcheck" LoadModeTypesInfo ["bugs"]]) as He.
  { vm_compute. first [left; reflexivity|right; reflexivity]. }
  cbv zeta in Hmany.
  assert (1 < length (filter (λ lc, combinable lc) (map_to_list fourLinters).*2)) as Hlen
    by (destruct He as [-> | ->]; simpl; lia).
  destruct (Hmany Hlen) as [(mlConfig & Hml & _ & _ & _ & _ & Hpresets) Hother].
  change (Linter_Name (goanalysis_NewMetaLinter _)) with "goanalysis_metalinter" in *.
  unfold combined.
  pose proof (Hother "errcheck" ltac:(discriminate)) as H1.
  pose proof (Hother "gofmt" ltac:(discriminate)) as H2.
  pose proof (Hother "unparam" ltac:(discriminate)) as H3.
  pose proof (Hother "gosec" ltac:(discriminate)) as H4.
  split; [rewrite H1; destruct He as [He | He]; rewrite He; vm_compute; reflexivity|].
  split; [rewrite H2; destruct He as [He | He]; rewrite He; vm_compute; reflexivity|].
  split; [rewrite H3; destruct He as [He | He]; rewrite He; vm_compute; reflexivity|].
  split; [rewrite H4; destruct He as [He | He]; rewrite He; vm_compute; reflexivity|].
  exists (WithLoadForGoAnalysis mlConfig). split; [exact Hml|].
  intros p. change (WithLoadForGoAnalysis mlConfig) with mlConfig.
  specialize (Hpresets p). clear -Hpresets He.
  destruct He as [He | He]; rewrite He in Hpresets; clear He; split.
  - intros Hp. apply Hpresets in Hp as (lc & Hin & Hp).
    apply elem_of_cons in Hin as [->|Hin]; [left; by apply list_elem_of_singleton in Hp|].
    apply list_elem_of_singleton in Hin as ->. right. by apply list_elem_of_singleton in Hp.
  - intros Hp. apply Hpresets. destruct Hp as [-> | ->].
    + exists (analysing "errcheck" LoadModeTypesInfo ["bugs"]). split; [left|left].
    + exists (analysing "gofmt" LoadModeSyntax ["format"]). split; [right; left|left].
  - intros Hp. apply Hpresets in Hp as (lc & Hin & Hp).
    apply elem_of_cons in Hin as [->|Hin]; [right; by apply list_elem_of_singleton in Hp|].
    apply list_elem_of_singleton in Hin as ->. left. by apply list_elem_of_singleton in Hp.
  - intros Hp. apply Hpresets. destruct Hp as [-> | ->].
    + exists (analysing "errcheck" LoadModeTypesInfo ["bugs"]). split; [right; left|left].
    + exists (analysing "gofmt" LoadModeSyntax ["format"]). split; [left|left].
Defined.

End ResolverMoreExamples.

Section CustomLinterExamples.
Import config linter lintersdb examples.
#[local] Existing Instance unitContext.
#[local] Existing Instance noGoAnalysis.
#[local] Existing Instance onePlugin.

(** The custom linter [mine] is slow and named in the disable list; with
    [--fast] it is in the resolved map all the same. *)
Lemma custom_linters_added_witness :
  ∃ c,
    loadCustomLinterConfig customSet "ours"
      {| Path := "plugins/mine.so"; Enabled := true; Slow := true;
         OriginalUrl := "https://example.org/mine" |} = inr c
    ∧ Name c = "mine"
    ∧ "mine" ∈ dom (build customSet (Linters_ (EnabledSet_cfg customSet))
                     (GetAllEnabledByDefaultLinters registry))
    ∧ IsSlow c = true.
Proof.
  eexists. split; [vm_compute; reflexivity|]. split; [reflexivity|].
  destruct (proj1 (custom_linters_added customSet (Linters_ (EnabledSet_cfg customSet))
                     (GetAllEnabledByDefaultLinters registry))
              ("ours", {| Path := "plugins/mine.so"; Enabled := true; Slow := true;
                          OriginalUrl := "https://example.org/mine" |})
              _ ltac:(left) ltac:(vm_compute; reflexivity)) as (Hdom & _ & Hslow & _).
  split; [exact Hdom|exact Hslow].
Defined.

End CustomLinterExamples.

Section RunnerMoreExamples.
Import result linter processors lint examples.
#[local] Existing Instance unitContext.

(** The one linter of the run faults: the stage is not asked to process
    anything. *)
Lemma Run_without_issues_witness :
  pipelineInput oneStageRunner [taskA] = []
  ∧ (Run oneStageRunner [taskA]).1.1.1 = []
  ∧ Processors (Run oneStageRunner [taskA]).1.2 = Finish <$> Processors oneStageRunner.
Proof.
  assert (pipelineInput oneStageRunner [taskA] = []) as E by reflexivity.
  split; [exact E|]. exact (Run_without_issues oneStageRunner [taskA] E).
Defined.

End RunnerMoreExamples.

(** ** Examples: the two processors *)

Section GeneratedMoreExamples.
Import result processors examples.
#[local] Existing Instance asciiOnly.
#[local] Existing Instance simplePaths.
#[local] Existing Instance projectFiles.

(** [late.go] has its marker after the first declaration: it is not
    generated, and its issue passes. *)
Lemma shouldPassIssue_verdict_witness :
  later NewAutogeneratedExclude NewAutogeneratedExclude
  ∧ FromLinter (issueAt "golint" "late.go" 4) ≠ "typecheck"
  ∧ isSpecialAutogeneratedFile (FilePath (issueAt "golint" "late.go" 4)) = false
  ∧ FilePath (issueAt "golint" "late.go" 4) ≠ ""
  ∧ classify (FilePath (issueAt "golint" "late.go" 4)) = inr false
  ∧ (shouldPassIssue NewAutogeneratedExclude (issueAt "golint" "late.go" 4)).1 = (true, None).
Proof.
  assert (classify (FilePath (issueAt "golint" "late.go" 4)) = inr false) as Hc
    by (vm_compute; reflexivity).
  split; [constructor|]. split; [discriminate|]. split; [reflexivity|].
  split; [discriminate|]. split; [exact Hc|].
  exact (shouldPassIssue_verdict NewAutogeneratedExclude (issueAt "golint" "late.go" 4) false
           (later_now _) ltac:(discriminate) eq_refl ltac:(discriminate) Hc).
Defined.

(** The issue of [zz_generated.go] is dropped; a later issue of the file
    is dropped as well, also when no file can be opened any more. *)
Lemma shouldPassIssue_memoized_witness :
  let i := issueAt "golint" "zz_generated.go" 5 in
  let i' := issueAt "govet" "zz_generated.go" 9 in
  let p1 := (shouldPassIssue NewAutogeneratedExclude i).2 in
  shouldPassIssue NewAutogeneratedExclude i = ((false, None), p1)
  ∧ @shouldPassIssue asciiOnly simplePaths noFiles p1 i' = ((false, None), p1).
Proof.
  intros i i' p1.
  assert ((shouldPassIssue NewAutogeneratedExclude i).1 = (false, None)) as E1
    by (vm_compute; reflexivity).
  assert (shouldPassIssue NewAutogeneratedExclude i = ((false, None), p1)) as E.
  { unfold p1. rewrite <- E1. by destruct (shouldPassIssue NewAutogeneratedExclude i). }
  split; [exact E|].
  exact (@shouldPassIssue_memoized asciiOnly simplePaths projectFiles (@os_Open noFiles)
           NewAutogeneratedExclude i false p1 p1 i'
           (later_now _) ltac:(discriminate) E (later_now _) eq_refl ltac:(discriminate)).
Defined.

End GeneratedMoreExamples.

Section SkipDirsMoreExamples.
Import result processors examples.
#[local] Existing Instance simplePaths.
#[local] Existing Instance literalPatterns.

(** The pattern [vendor] with the argument [vendor/lib/...]: an issue of
    [vendor/other] is dropped. *)
Lemma SkipDirs_decision_witness :
  NewSkipDirs ["vendor"] ["vendor/lib/..."] "" = inr vendorSkipDirs
  ∧ SkipDirs_later vendorSkipDirs vendorSkipDirs
  ∧ passesDirs vendorSkipDirs (issueAt "govet" "vendor/other/b.go" 8) = false
  ∧ (SkipDirs_shouldPassIssue vendorSkipDirs (issueAt "govet" "vendor/other/b.go" 8)).1 = false.
Proof.
  assert (NewSkipDirs ["vendor"] ["vendor/lib/..."] "" = inr vendorSkipDirs) as E
    by reflexivity.
  assert (passesDirs vendorSkipDirs (issueAt "govet" "vendor/other/b.go" 8) = false) as Hp
    by (vm_compute; reflexivity).
  split; [exact E|]. split; [constructor|]. split; [exact Hp|].
  rewrite <- Hp.
  exact (SkipDirs_decision ["vendor"] ["vendor/lib/..."] "" vendorSkipDirs vendorSkipDirs
           (issueAt "govet" "vendor/other/b.go" 8) E (SkipDirs_later_now _)).
Defined.

(** Of three issues, the two of [vendor/other] are dropped and counted. *)
Lemma SkipDirs_statistics_witness :
  let issues := [issueAt "govet" "vendor/other/b.go" 8; issueAt "govet" "vendor/lib/a.go" 3;
                 issueAt "golint" "vendor/other/c.go" 1] in
  NewSkipDirs ["vendor"] ["vendor/lib/..."] "" = inr vendorSkipDirs
  ∧ skipCount (SkipDirs_calls vendorSkipDirs issues) "vendor/other" = 2%Z
  ∧ skipCount (SkipDirs_calls vendorSkipDirs issues) "vendor/lib" = 0%Z.
Proof.
  intros issues.
  assert (NewSkipDirs ["vendor"] ["vendor/lib/..."] "" = inr vendorSkipDirs) as E
    by reflexivity.
  split; [exact E|].
  destruct (SkipDirs_statistics ["vendor"] ["vendor/lib/..."] "" vendorSkipDirs issues E)
    as [Hcount _].
  split; rewrite Hcount; vm_compute; reflexivity.
Defined.

Lemma SkipDirs_without_patterns_witness :
  NewSkipDirs [] [] "" = inr noSkipDirs
  ∧ SkipDirs_later noSkipDirs noSkipDirs
  ∧ SkipDirs_Process noSkipDirs [issueAt "govet" "vendor/other/b.go" 8]
    = (([issueAt "govet" "vendor/other/b.go" 8], None), noSkipDirs).
Proof.
  assert (NewSkipDirs [] [] "" = inr noSkipDirs) as E by reflexivity.
  split; [exact E|]. split; [constructor|].
  exact (SkipDirs_without_patterns [] "" noSkipDirs noSkipDirs
           [issueAt "govet" "vendor/other/b.go" 8] E (SkipDirs_later_now _)).
Defined.

End SkipDirsMoreExamples.

(** ** Examples: the configuration of a custom build *)

Section ConfigurationExamples.
Import internal examples.
#[local] Existing Instance asciiOnly.
#[local] Existing Instance simplePaths.

(** The build of two plugins without a name is accepted: it gets the
    default name, and the plugin of the local path is left valid. *)
Lemma Validate_accepted_witness :
  (Validate customBuild twoPlugins).1.1 = Returns None
  ∧ Name (Validate customBuild twoPlugins).1.2 = defaultBinaryName
  ∧ ∃ plugin, (Validate customBuild twoPlugins).2 !! 1 = Some plugin ∧ validPlugin plugin.
Proof.
  assert ((Validate customBuild twoPlugins).1.1 = Returns None) as E1
    by (vm_compute; reflexivity).
  assert (Validate customBuild twoPlugins
          = (Returns None, (Validate customBuild twoPlugins).1.2,
             (Validate customBuild twoPlugins).2)) as E.
  { rewrite <- E1. by destruct (Validate customBuild twoPlugins) as [[??]?]. }
  destruct (Validate_accepted customBuild twoPlugins _ _ E) as (_ & _ & Hc & _ & Hvalid & _).
  split; [exact E1|]. split; [by rewrite Hc|].
  apply Hvalid. set_solver.
Defined.

(** With a third plugin that is nil, [Validate] stops at it; the two
    plugins before it keep their module and version. *)
Lemma Validate_frame_witness :
  (Validate customBuildNil twoPlugins).1.1 = NilDereference
  ∧ (∃ l, l ∈ Plugins customBuildNil ∧ twoPlugins !! l = None)
  ∧ ∃ plugin', (Validate customBuildNil twoPlugins).2 !! 0 = Some plugin'
               ∧ Module_ plugin' = "example.org/proxied".
Proof.
  assert ((Validate customBuildNil twoPlugins).1.1 = NilDereference) as E1
    by (vm_compute; reflexivity).
  assert (Validate customBuildNil twoPlugins
          = (NilDereference, (Validate customBuildNil twoPlugins).1.2,
             (Validate customBuildNil twoPlugins).2)) as E.
  { rewrite <- E1. by destruct (Validate customBuildNil twoPlugins) as [[??]?]. }
  destruct (Validate_frame customBuildNil twoPlugins _ _ _ E) as (_ & Hheap & Hnil & _).
  split; [exact E1|]. split; [by apply Hnil|].
  specialize (Hheap 0). 
  change (twoPlugins !! 0) with (Some {| Module_ := "example.org/proxied"; Import_ := "";
             Plugin_Version := "v1.2.0"; Plugin_Path := "" |}) in Hheap.
  destruct Hheap as (plugin' & Hl & (Hm & _) & _).
  exists plugin'. split; [exact Hl|exact Hm].
Defined.

End ConfigurationExamples.

(** ** Examples: the linter [lll] *)

Section LllExamples.
Import result lll examples.
#[local] Existing Instance projectFiles.

(** [zz_generated.go] with at most 20 runes a line: the issues are of
    [lll], of the file, and in the order of their lines. *)
Lemma getLLLIssuesForFile_issues_witness :
  ∃ issues,
    getLLLIssuesForFile "zz_generated.go" 20 " " = inr issues
    ∧ Forall (λ i, FromLinter i = linterName ∧ Filename (Pos i) = "zz_generated.go") issues
    ∧ StronglySorted byLine issues.
Proof.
  destruct (os_Open "zz_generated.go") as [err|content] eqn:Eo; [discriminate Eo|].
  destruct (getLLLIssuesForFile "zz_generated.go" 20 " ") as [err|issues] eqn:Eg;
    [vm_compute in Eg; discriminate Eg|].
  destruct (getLLLIssuesForFile_issues "zz_generated.go" 20 " " content issues Eo Eg)
    as [Hall Hsorted].
  exists issues. split; [reflexivity|]. split; [|exact Hsorted].
  apply Forall_forall. intros i Hi. destruct (Hall i Hi) as (? & ? & _). done.
Defined.

(** The first line of [zz_generated.go] has 39 runes: it is reported. *)
Lemma getLLLIssuesForFile_complete_witness :
  ∃ issues,
    getLLLIssuesForFile "zz_generated.go" 20 " " = inr issues
    ∧ longLine "zz_generated.go" 1 39 20 ∈ issues.
Proof.
  destruct (os_Open "zz_generated.go") as [err|content] eqn:Eo; [discriminate Eo|].
  assert (Forall (λ raw, bufio.tooLong MaxScanTokenSize raw = false
                         ∧ gostrings.HasPrefix (bufio.dropCR raw) "import" = false)
            (bufio.rawLines content)) as Hlines.
  { injection Eo as <-. vm_compute. repeat constructor. }
  destruct (getLLLIssuesForFile_complete "zz_generated.go" 20 " " content Eo Hlines)
    as (issues & Eg & Hall).
  exists issues. split; [exact Eg|].
  injection Eo as <-.
  exact (Hall 0%nat "// Code generated by tool; DO NOT EDIT." eq_refl eq_refl).
Defined.

End LllExamples.

